(** * eavesarp: ARP-event ingestion, ledger aggregation and report

    Shallow embedding of [eavesarp/eavesarp.py] and [eavesarp/color.py].

    The SQLite database behind a SQLAlchemy session is a record of three
    tables (lists of rows in insertion order).  The network (reverse DNS and
    the active ARP probe) is an oracle that may answer differently at every
    call; every call is recorded in a log carried next to the database, so
    that "at most once" properties can be stated on the log.  The file system
    seen by [create_db] and [rdpcap] is a finite map from paths to files. *)

From Stdlib Require Import ZArith Lia DecimalString.
From stdpp Require Import base option list strings gmap sorting.

Open Scope Z_scope.
Open Scope nat_scope.
Open Scope string_scope.
Open Scope list_scope.

(** ** Python values *)

(** Truth value of an optional string: [None] and [''] are falsy. *)
Definition truthy (o : option string) : bool :=
  match o with
  | Some (String _ _) => true
  | _ => false
  end.

(** Exceptions raised by the modelled code or by its collaborators. *)
Inductive exn :=
  | Exception (msg : string)
  | AttributeError
  | FileNotFoundError (fname : string)
  | DatabaseError (fname : string)
  | Scapy_Exception (fname : string).

Inductive result (A : Type) :=
  | Ok (a : A)
  | Raise (e : exn).
Arguments Ok {A} a.
Arguments Raise {A} e.

Definition bind {A B} (m : result A) (k : A -> result B) : result B :=
  match m with
  | Ok a => k a
  | Raise e => Raise e
  end.

Notation "'do' x <- m ; k" := (bind m (fun x => k))
  (at level 10, x pattern, m at level 100, k at level 200).

Fixpoint mapM {A B} (f : A -> result B) (l : list A) : result (list B) :=
  match l with
  | [] => Ok []
  | a :: l' => do b <- f a; do bs <- mapM f l'; Ok (b :: bs)
  end.

Fixpoint foldM {A S} (f : S -> A -> result S) (l : list A) (s : S) : result S :=
  match l with
  | [] => Ok s
  | a :: l' => do s' <- f s a; foldM f l' s'
  end.

(** ** The tables of [sql.py] *)

(** Modelled from the spec: [sql.py] (the declarative models [IP], [PTR] and
    [Transaction]) is imported by [eavesarp.py] and missing from the sources.
    The spec gives the three relations: Address(value unique, mac_address
    nullable, resolve_attempted boolean), ReverseName(owning_address_ref,
    value), Transaction(sender_ref, target_ref, count).  A new address has
    [resolve_attempted = false] and [mac_address = null]; a new transaction
    has count 1 unless a count is given. *)
Module IP.
Record t := mk {
  id : nat;
  value : string;
  mac_address : option string;
  arp_resolve_attempted : bool
}.
End IP.

Module PTR.
Record t := mk {
  ip_id : nat;
  value : string
}.
End PTR.

Module Transaction.
Record t := mk {
  sender_ip_id : nat;
  target_ip_id : nat;
  count : Z
}.
(** Modelled from the spec: column default of [count] ("initial value 1"). *)
Definition default_count : Z := 1%Z.
End Transaction.

#[global] Instance IP_eq_dec : EqDecision IP.t.
Proof. solve_decision. Defined.
#[global] Instance PTR_eq_dec : EqDecision PTR.t.
Proof. solve_decision. Defined.
#[global] Instance Transaction_eq_dec : EqDecision Transaction.t.
Proof. solve_decision. Defined.

(** The database a session is bound to. *)
Record Session := mkSession {
  ips : list IP.t;
  ptrs : list PTR.t;
  transactions : list Transaction.t
}.

Definition empty_db : Session := mkSession [] [] [].

(** [db_session.query(IP).filter(IP.value==ip).first()] *)
Definition query_ip (ip : string) (s : Session) : option IP.t :=
  List.find (fun r => bool_decide (IP.value r = ip)) (ips s).

(** The relationships [t.sender] / [t.target]: the row with that key. *)
Definition ip_by_id (i : nat) (s : Session) : option IP.t :=
  List.find (fun r => bool_decide (IP.id r = i)) (ips s).

(** The relationship [ip.ptr]: the reverse-name rows owned by the address. *)
Definition ip_ptr (r : IP.t) (s : Session) : list PTR.t :=
  List.filter (fun p => bool_decide (PTR.ip_id p = IP.id r)) (ptrs s).

(** [db_session.query(Transaction).filter(sender_ip_id==.., target_ip_id==..).first()] *)
Definition query_transaction (sid tid : nat) (s : Session) : option Transaction.t :=
  List.find (fun t => bool_decide (Transaction.sender_ip_id t = sid)
                      && bool_decide (Transaction.target_ip_id t = tid))
            (transactions s).

(** Key given by SQLite to a new row of an integer primary key: one more than
    the largest key in the table. *)
Definition next_ip_id (s : Session) : nat := S (max_list (map IP.id (ips s))).

Definition add_ip (r : IP.t) (s : Session) : Session :=
  mkSession (ips s ++ [r]) (ptrs s) (transactions s).

Definition add_ptr (p : PTR.t) (s : Session) : Session :=
  mkSession (ips s) (ptrs s ++ [p]) (transactions s).

Definition add_transaction (t : Transaction.t) (s : Session) : Session :=
  mkSession (ips s) (ptrs s) (transactions s ++ [t]).

(** Flushing a modified [IP] object: the row with its key is rewritten. *)
Definition update_ip (r : IP.t) (s : Session) : Session :=
  mkSession (map (fun r0 => if bool_decide (IP.id r0 = IP.id r) then r else r0) (ips s))
            (ptrs s) (transactions s).

(** Flushing [transaction.count += n] on the row of the pair [(sid, tid)];
    the pair is a key of the table. *)
Definition add_count (sid tid : nat) (n : Z) (s : Session) : Session :=
  mkSession (ips s) (ptrs s)
    (map (fun t => if bool_decide (Transaction.sender_ip_id t = sid)
                      && bool_decide (Transaction.target_ip_id t = tid)
                   then Transaction.mk sid tid (Transaction.count t + n)
                   else t)
         (transactions s)).

(** ** The network *)

(** One entry per call that reaches the network. *)
Inductive NetCall :=
  | ReverseQuery (ip : string) (answer : option string)
  | ArpRequest (interface : option string) (target : string) (answer : option string).

#[global] Instance NetCall_eq_dec : EqDecision NetCall.
Proof. solve_decision. Defined.

(** A session in use: the database and the network calls made so far. *)
Record World := mkWorld {
  db : Session;
  net : list NetCall
}.

Definition on_db (f : Session -> Session) (w : World) : World :=
  mkWorld (f (db w)) (net w).

Definition log_call (c : NetCall) (w : World) : World :=
  mkWorld (db w) (net w ++ [c]).

(** ** Packets (scapy) *)

Module ARP.
Record t := mk {
  op : Z;
  hwsrc : string;
  psrc : string;
  pdst : string
}.
End ARP.

(** A captured frame, reduced to what the code looks at: its ARP layer. *)
Record Packet := mkPacket { getlayer_ARP : option ARP.t }.

(** ** Files *)

Inductive File :=
  | SqliteFile (d : Session)
  | PcapFile (packets : list Packet).

(** [create_db(dbfile, overwrite)]: the file system after the call.  The
    session it returns is bound to [dbfile]; its reads and commits are [load]
    and [store] on that path. *)
Definition create_db (dbfile : string) (overwrite : bool) (fs : gmap string File)
  : gmap string File :=
  (* Remove the file if specified *)
  let fs := if bool_decide (is_Some (fs !! dbfile)) && overwrite
            then delete dbfile fs else fs in
  (* Don't clobber pre-existing database files *)
  if negb (bool_decide (is_Some (fs !! dbfile))) || overwrite
  then <[dbfile := SqliteFile empty_db]> fs
  else fs.

Definition load (dbfile : string) (fs : gmap string File) : result Session :=
  match fs !! dbfile with
  | Some (SqliteFile d) => Ok d
  | _ => Raise (DatabaseError dbfile)
  end.

Definition store (dbfile : string) (d : Session) (fs : gmap string File)
  : gmap string File :=
  <[dbfile := SqliteFile d]> fs.

(** scapy's [rdpcap]. *)
Definition rdpcap (fname : string) (fs : gmap string File) : result (list Packet) :=
  match fs !! fname with
  | Some (PcapFile packets) => Ok packets
  | Some (SqliteFile _) => Raise (Scapy_Exception fname)
  | None => Raise (FileNotFoundError fname)
  end.

(** ** Calls on a session *)

(** What a program does to a session in use: the calls that write to it. *)
Inductive Op :=
  | CallGetOrCreateIp (ip : string) (resolve : bool) (ptr : option string)
      (interface : option string) (active : bool)
  | CallHandlePackets (packets : list Packet) (resolve active : bool)
      (interface : option string)
  | CallMerge (isess : Session).

(** ** Sample data *)

Module Example.

(** A network where only 10.0.0.1 has a PTR record and only 10.0.0.2
    answers ARP. *)
Definition resolver_query (calls : list NetCall) (ip : string) : option string :=
  if bool_decide (ip = "10.0.0.1") then Some "gw.lan." else None.

Definition sr (calls : list NetCall) (interface : option string) (target : string)
  : list string :=
  if bool_decide (target = "10.0.0.2") then ["52:54:00:12:34:56"] else [].

Definition stylize (v style : string) : string := style ++ v ++ "[0m".

(** Deny-lists: [check] accepts what is not listed. *)
Definition Lists : Type := list string.
Definition Lists_bool (l : Lists) : bool := true.
Definition check (l : Lists) (v : string) : bool := negb (bool_decide (v ∈ l)).

Definition who_has (sender target : string) : Packet :=
  mkPacket (Some (ARP.mk 1 "52:54:00:00:00:01" sender target)).

Definition fresh : World := mkWorld empty_db [].

(** The ledgers [{(A,B):3}] and [{(A,B):2}]. *)
Definition ledger_AB (n : Z) : Session :=
  mkSession [IP.mk 1 "A" None false; IP.mk 2 "B" None false] []
            [Transaction.mk 1 2 n].

(** The ledger [{(A,B):3, (C,D):2, (A,E):1}]. *)
Definition ledger_interleaved : Session :=
  mkSession [IP.mk 1 "A" None false; IP.mk 2 "B" None false; IP.mk 3 "C" None false;
             IP.mk 4 "D" None false; IP.mk 5 "E" None false] []
            [Transaction.mk 1 2 3; Transaction.mk 3 4 2; Transaction.mk 1 5 1].

(** A ledger after A asked for D, probed without answer, and for B, which
    answered its probe. *)
Definition ledger_probed : Session :=
  mkSession [IP.mk 1 "A" None false; IP.mk 2 "D" None true;
             IP.mk 3 "B" (Some "52:54:00:12:34:56") true] []
            [Transaction.mk 1 2 2; Transaction.mk 1 3 1].

(** A capture session: B is asked for twice by different hosts, then asks. *)
Definition capture : list Op :=
  [CallHandlePackets [who_has "10.0.0.1" "10.0.0.2"; who_has "10.0.0.3" "10.0.0.2";
                      who_has "10.0.0.2" "10.0.0.4"]
     true true (Some "eth0")].

(** A capture file with one request sent by X. *)
Definition capture_file : gmap string File :=
  {[ "capture.pcap" := PcapFile [who_has "X" "B"] ]}.

(** A source database whose second transaction names a sender that is
    gone. *)
Definition ledger_dangling : Session :=
  mkSession [IP.mk 1 "A" None false; IP.mk 2 "B" None false] []
            [Transaction.mk 1 2 2; Transaction.mk 7 2 1; Transaction.mk 2 1 4].

(** A source database with reverse names: one of A, an empty one of B,
    none of C. *)
Definition ledger_named : Session :=
  mkSession [IP.mk 1 "A" None false; IP.mk 2 "B" None false; IP.mk 3 "C" None false]
            [PTR.mk 1 "a.lan."; PTR.mk 2 EmptyString]
            [Transaction.mk 1 2 2; Transaction.mk 3 1 1].

(** A and C ask for B. *)
Definition two_senders : list Packet := [who_has "A" "B"; who_has "C" "B"].

(** The session after [two_senders], without enrichment. *)
Definition after_two_senders : World :=
  mkWorld (mkSession [IP.mk 1 "A" None false; IP.mk 2 "B" None false;
                      IP.mk 3 "C" None false] []
                     [Transaction.mk 1 2 1; Transaction.mk 3 2 1]) [].

End Example.

(** ** Ingestion *)

Section Eavesarp.

Set Default Proof Using "Type".

(** [resolver.query(reversename.from_address(ip),'PTR')[0].__str__()], with
    [None] for any exception; the answer may depend on what happened on the
    network before. *)
Variable resolver_query : list NetCall -> string -> option string.

(** [sr(ARP(op=1,pdst=target),iface=interface,...)]: the [hwsrc] of the
    received packet of every answered pair. *)
Variable sr : list NetCall -> option string -> string -> list string.

(** [colored.stylize(v, style)] *)
Variable stylize : string -> string -> string.

(** The class [Lists] of [lists.py] (imported, missing from the sources):
    its instances, their truth value and their method [check]. *)
Variable Lists : Type.
Variable Lists_bool : Lists -> bool.
Variable check : Lists -> string -> bool.

Definition reverse_resolve (ip : string) (w : World) : option string * World :=
  let answer := resolver_query (net w) ip in
  (answer, log_call (ReverseQuery ip answer) w).

Definition arp_request (interface : option string) (target : string) (w : World)
  : option string * World :=
  let results := sr (net w) interface target in
  let answer := match results with
                | hwsrc :: _ => Some hwsrc
                | [] => None
                end in
  (answer, log_call (ArpRequest interface target answer) w).

Definition validate_packet (packet : Packet) : option ARP.t :=
  match getlayer_ARP packet with
  | Some arp => if bool_decide (ARP.op arp = 1%Z) then Some arp else None
  | None => None
  end.

Definition unpack_arp (arp : ARP.t) : string * string :=
  (ARP.psrc arp, ARP.pdst arp).

Definition unpack_packet (packet : Packet) : result (string * string) :=
  match getlayer_ARP packet with
  | Some arp => Ok (unpack_arp arp)
  | None => Raise AttributeError
  end.

(** An optional [Lists] rejects a value when it is given, truthy, and its
    [check] fails. *)
Definition rejects (lists : option Lists) (v : string) : bool :=
  match lists with
  | Some l => Lists_bool l && negb (check l v)
  | None => false
  end.

(** [filter_packet] under its decorator [validate_packet_unpack]; [None] is
    the return value [False].  The test [if not packet] never fires: what
    the decorator hands over is a pair. *)
Definition filter_packet (packet : Packet) (sender_lists target_lists : option Lists)
  : option (string * string) :=
  match validate_packet packet with
  | None => None
  | Some arp =>
      let '(sender, target) := unpack_arp arp in
      if rejects sender_lists sender then None
      else if rejects target_lists target then None
      else Some (sender, target)
  end.

Definition get_or_create_ip (ip : string) (resolve : bool) (ptr : option string)
    (interface : option string) (active : bool) (w : World) : IP.t * World :=
  match query_ip ip (db w) with
  | Some db_ip => (db_ip, w)
  | None =>
      let ip0 := IP.mk (next_ip_id (db w)) ip None false in
      let w := on_db (add_ip ip0) w in
      (* PTR record handed over by the caller, or resolved now *)
      let w :=
        if truthy ptr then
          on_db (add_ptr (PTR.mk (IP.id ip0) (default "" ptr))) w
        else if resolve then
          let '(ptr, w) := reverse_resolve (IP.value ip0) w in
          if truthy ptr then
            on_db (add_ptr (PTR.mk (IP.id ip0) (default "" ptr))) w
          else w
        else w in
      (* ARP request if active is enabled *)
      if active && negb (IP.arp_resolve_attempted ip0) then
        let '(hwaddr, w) := arp_request interface (IP.value ip0) w in
        let ip1 := IP.mk (IP.id ip0) (IP.value ip0)
                     (if truthy hwaddr then hwaddr else IP.mac_address ip0)
                     true in
        (ip1, on_db (update_ip ip1) w)
      else (ip0, w)
  end.

(** One iteration of the loop of [handle_packets]. *)
Definition handle_packet (resolve active : bool) (interface : option string)
    (w : World) (packet : string * string) : World :=
  let '(sender, w) := get_or_create_ip (fst packet) resolve None None false w in
  let '(target, w) := get_or_create_ip (snd packet) resolve None interface active w in
  match query_transaction (IP.id sender) (IP.id target) (db w) with
  | None =>
      on_db (add_transaction
               (Transaction.mk (IP.id sender) (IP.id target) Transaction.default_count)) w
  | Some _ =>
      on_db (add_count (IP.id sender) (IP.id target) 1) w
  end.

(** [handle_packets] under its decorator [unpack_packets]. *)
Definition handle_packets (packets : list Packet) (resolve active : bool)
    (interface : option string) (w : World) : result World :=
  do packets <- mapM unpack_packet packets;
  if active && negb (truthy interface) then
    Raise (Exception "Active ARP resolution requires an interface ip")
  else
    Ok (fold_left (handle_packet resolve active interface) packets w).

(** *** Capture *)

(** scapy's [sniff(iface=.., lfilter=.., count=..)]: of the frames that
    arrive on the interface, those accepted by [lfilter], at most [count] of
    them (all of them when [count] is 0). *)
Definition sniff (arriving : list Packet) (lfilter : Packet -> bool) (count : nat)
  : list Packet :=
  let kept := List.filter lfilter arriving in
  match count with
  | 0 => kept
  | _ => take count kept
  end.

Definition do_sniff (arriving : list Packet) (redraw_frequency : nat)
    (sender_lists target_lists : option Lists) : list Packet :=
  sniff arriving
        (fun pkt => bool_decide (is_Some (filter_packet pkt sender_lists target_lists)))
        redraw_frequency.

(** ** Report *)

(** [color.py]: a profile holds the three styles computed by its constructor
    and the optional emoji. *)
Record ColorProfile := mkColorProfile {
  even_style : string;
  odd_style : string;
  header_style : string;
  target_emoji : option string
}.

Definition style_list (values : list string) (style : string) : list string :=
  map (fun v => stylize v style) values.

Definition style_header (cp : ColorProfile) (headers : list string) : list string :=
  style_list headers (header_style cp).

Definition style_even (cp : ColorProfile) (values : list string) : list string :=
  style_list values (even_style cp).

Definition style_odd (cp : ColorProfile) (values : list string) : list string :=
  style_list values (odd_style cp).

(** What [get_output] returns: the fixed message, or the arguments it hands to
    [tabulate]. *)
Inductive Output :=
  | Message (text : string)
  | Tabulate (rows : list (list string)) (headers : list string).

Definition newline : string := String (Ascii.ascii_of_nat 10) "".

Definition no_records : string :=
  "- No accepted ARP requests captured" ++ newline ++
  "- If this is unexpected, check your whitelist/blacklist configuration".

(** [str(n)] for an integer. *)
Definition str (n : Z) : string := NilZero.string_of_int (Z.to_int n).

(** [.order_by(desc(Transaction.count))]: rows by descending count.  The order
    of rows of equal count is left to the engine; here it is that of the merge
    sort. *)
Definition count_ge (t1 t2 : Transaction.t) : Prop :=
  (Transaction.count t2 <= Transaction.count t1)%Z.

#[global] Instance count_ge_dec : RelDecision count_ge.
Proof. intros t1 t2. unfold count_ge. apply _. Defined.

Definition order_by_desc_count (l : list Transaction.t) : list Transaction.t :=
  merge_sort count_ge l.

(** Attribute access through a relationship that may be [None]. *)
Definition attr {A} (o : option A) : result A :=
  match o with
  | Some a => Ok a
  | None => Raise AttributeError
  end.

(** [rowdict]: a Python dict, iterated in insertion order. *)
Definition Rowdict := list (string * list (list string)).

Definition rowdict_mem (sender : string) (rd : Rowdict) : bool :=
  existsb (fun kv => bool_decide (fst kv = sender)) rd.

(** [rowdict[sender].append(row)] *)
Definition rowdict_append (sender : string) (row : list string) (rd : Rowdict) : Rowdict :=
  map (fun kv => if bool_decide (fst kv = sender) then (fst kv, snd kv ++ [row]) else kv) rd.

(** The stale-IP cell of a row. *)
Definition sploit_char (color_profile : option ColorProfile) (target : IP.t) : string :=
  if negb (truthy (IP.mac_address target)) && IP.arp_resolve_attempted target then
    match color_profile with
    | Some cp => if truthy (target_emoji cp) then default "" (target_emoji cp) else "X"
    | None => "X"
    end
  else "".

(** [ip.ptr[0].value] when [ip.ptr] is not empty, [''] otherwise. *)
Definition first_ptr (r : IP.t) (s : Session) : string :=
  match ip_ptr r s with
  | p :: _ => PTR.value p
  | [] => ""
  end.

(** One iteration of the first loop of [get_output]. *)
Definition report_transaction (s : Session) (sender_lists target_lists : option Lists)
    (color_profile : option ColorProfile) (resolve active : bool)
    (rowdict : Rowdict) (t : Transaction.t) : result Rowdict :=
  do t_sender <- attr (ip_by_id (Transaction.sender_ip_id t) s);
  let sender := IP.value t_sender in
  do t_target <- attr (ip_by_id (Transaction.target_ip_id t) s);
  let target := IP.value t_target in
  if rejects sender_lists sender then Ok rowdict
  else if rejects target_lists target then Ok rowdict
  else
    let new_sender := negb (rowdict_mem sender rowdict) in
    let row := if new_sender then [sender; target] else [""; target] in
    let row := if active then row ++ [sploit_char color_profile t_target] else row in
    let row := row ++ [str (Transaction.count t)] in
    let row :=
      if resolve then
        let sptr := first_ptr t_sender s in
        let tptr := first_ptr t_target s in
        (row ++ [if new_sender then sptr else ""]) ++ [tptr]
      else row in
    Ok (if new_sender then rowdict ++ [(sender, [row])]
        else rowdict_append sender row rowdict).

(** The second loop: the rows of each sender, styled by the parity of the
    sender's rank when a profile is given.  [counter] is the rank of the
    previous sender. *)
Fixpoint restructure (color_profile : option ColorProfile) (counter : nat)
    (items : Rowdict) : list (list string) :=
  match items with
  | [] => []
  | (sender, irows) :: items' =>
      let counter := S counter in
      let styled :=
        match color_profile with
        | Some cp =>
            if Nat.odd counter then map (style_odd cp) irows
            else map (style_even cp) irows
        | None => irows
        end in
      styled ++ restructure color_profile counter items'
  end.

Definition build_headers (color_profile : option ColorProfile) (resolve active : bool)
  : list string :=
  let headers := ["Sender"; "Target"; "ARP#"] in
  let headers := if active then ["Sender"; "Target"; "TS"; "ARP#"] else headers in
  let headers := if resolve then headers ++ ["Sender PTR"; "Target PTR"] else headers in
  match color_profile with
  | Some cp => style_header cp headers
  | None => headers
  end.

Definition get_output (s : Session) (sender_lists target_lists : option Lists)
    (color_profile : option ColorProfile) (resolve active : bool) : result Output :=
  let transactions := order_by_desc_count (transactions s) in
  match transactions with
  | [] => Ok (Message no_records)
  | _ =>
      do rowdict <- foldM (report_transaction s sender_lists target_lists
                             color_profile resolve active) transactions [];
      Ok (Tabulate (restructure color_profile 0 rowdict)
                   (build_headers color_profile resolve active))
  end.

(** ** Loops that may raise *)

(** A loop whose body may raise: the state reached, and the exception that
    stopped the loop if there is one.  What was committed before stays. *)
Fixpoint for_each {A S} (body : S -> A -> S * option exn) (l : list A) (s : S)
  : S * option exn :=
  match l with
  | [] => (s, None)
  | a :: l' =>
      match body s a with
      | (s', None) => for_each body l' s'
      | (s', Some e) => (s', Some e)
      end
  end.

Definition or_keep {A S} (body : S -> A -> result S) (s : S) (a : A) : S * option exn :=
  match body s a with
  | Ok s' => (s', None)
  | Raise e => (s, Some e)
  end.

(** ** Live capture *)

(** [async_sniff]; [arriving] are the frames that reach the interface during
    the call.  What is printed is left out: of the report printed first when
    the database file exists, only the exception it may raise is kept. *)
Definition async_sniff (interface : option string) (redraw_frequency : nat)
    (sender_lists target_lists : option Lists) (dbfile : string) (resolve : bool)
    (color_profile : option ColorProfile) (active : bool)
    (arriving : list Packet) (fs : gmap string File) (calls : list NetCall)
  : gmap string File * list NetCall * result (Output * list Packet) :=
  let existed := bool_decide (is_Some (fs !! dbfile)) in
  let fs := create_db dbfile false fs in
  match load dbfile fs with
  | Raise e => (fs, calls, Raise e)
  | Ok sess =>
      match (if existed
             then get_output sess sender_lists target_lists color_profile resolve active
             else Ok (Message "")) with
      | Raise e => (fs, calls, Raise e)
      | Ok _ =>
          let packets := do_sniff arriving redraw_frequency sender_lists target_lists in
          match handle_packets packets resolve active interface (mkWorld sess calls) with
          | Raise e => (fs, calls, Raise e)
          | Ok w =>
              (store dbfile (db w) fs, net w,
               do output <- get_output (db w) sender_lists target_lists
                              color_profile resolve active;
               Ok (output, packets))
          end
      end
  end.

(** ** Offline import *)

(** [ip.ptr[0].value] when [ip.ptr] is not empty, [None] otherwise. *)
Definition carried_ptr (r : IP.t) (s : Session) : option string :=
  match ip_ptr r s with
  | p :: _ => Some (PTR.value p)
  | [] => None
  end.

(** One iteration of the inner loop over the transactions of a source
    database [isess]. *)
Definition import_transaction (isess : Session) (w : World) (t : Transaction.t)
  : result World :=
  do t_sender <- attr (ip_by_id (Transaction.sender_ip_id t) isess);
  let sptr := carried_ptr t_sender isess in
  do t_target <- attr (ip_by_id (Transaction.target_ip_id t) isess);
  let tptr := carried_ptr t_target isess in
  let '(sender, w) := get_or_create_ip (IP.value t_sender) false sptr None false w in
  let '(target, w) := get_or_create_ip (IP.value t_target) false tptr None false w in
  match query_transaction (IP.id sender) (IP.id target) (db w) with
  | Some _ =>
      Ok (on_db (add_count (IP.id sender) (IP.id target) (Transaction.count t)) w)
  | None =>
      Ok (on_db (add_transaction
                   (Transaction.mk (IP.id sender) (IP.id target) (Transaction.count t))) w)
  end.

(** The inner loop: all transactions of [isess] into the session [w]. *)
Definition merge (isess : Session) (w : World) : World * option exn :=
  for_each (or_keep (import_transaction isess)) (transactions isess) w.

(** One iteration of the loop over [sqlite_files].  The source is read as it
    is when it is opened: the rows the loop reads from it later (addresses
    and their first PTR record) are never changed by the import. *)
Definition import_sqlite (database_output_file : string)
    (st : gmap string File * list NetCall) (sfile : string)
  : gmap string File * list NetCall * option exn :=
  let '(fs, calls) := st in
  let fs := create_db sfile false fs in
  match load sfile fs with
  | Raise e => (fs, calls, Some e)
  | Ok isess =>
      match load database_output_file fs with
      | Raise e => (fs, calls, Some e)
      | Ok outdb =>
          let '(w, e) := merge isess (mkWorld outdb calls) in
          (store database_output_file (db w) fs, net w, e)
      end
  end.

(** One iteration of the loop over [pcap_files]. *)
Definition import_pcap (database_output_file : string)
    (st : gmap string File * list NetCall) (pfile : string)
  : gmap string File * list NetCall * option exn :=
  let '(fs, calls) := st in
  match rdpcap pfile fs with
  | Raise e => (fs, calls, Some e)
  | Ok read =>
      (* Assure that each packet is ARP WHO-HAS *)
      let packets :=
        List.filter (fun p => bool_decide (is_Some (filter_packet p None None))) read in
      match load database_output_file fs with
      | Raise e => (fs, calls, Some e)
      | Ok outdb =>
          match handle_packets packets false false None (mkWorld outdb calls) with
          | Raise e => (fs, calls, Some e)
          | Ok w => (store database_output_file (db w) fs, net w, None)
          end
      end
  end.

Definition analyze (database_output_file : string)
    (sender_lists target_lists : option Lists)
    (pcap_files sqlite_files : list string)
    (color_profile : option ColorProfile) (resolve : bool)
    (fs : gmap string File) (calls : list NetCall)
  : gmap string File * list NetCall * result Output :=
  let fs := create_db database_output_file true fs in
  match for_each (import_sqlite database_output_file) sqlite_files (fs, calls) with
  | (st, Some e) => (st, Raise e)
  | (st, None) =>
      match for_each (import_pcap database_output_file) pcap_files st with
      | (st, Some e) => (st, Raise e)
      | (st, None) =>
          (st, do outdb <- load database_output_file (fst st);
               get_output outdb sender_lists target_lists color_profile resolve false)
      end
  end.

(** ** Sessions *)

Definition run_op (w : World) (o : Op) : World :=
  match o with
  | CallGetOrCreateIp ip resolve ptr interface active =>
      snd (get_or_create_ip ip resolve ptr interface active w)
  | CallHandlePackets packets resolve active interface =>
      match handle_packets packets resolve active interface w with
      | Ok w' => w'
      | Raise _ => w
      end
  | CallMerge isess => fst (merge isess w)
  end.

Definition run_ops (ops : list Op) (w : World) : World := fold_left run_op ops w.

(** ** Vocabulary of the statements *)

(** The transaction of the ordered pair of addresses [(a, b)], found the way
    the code finds it: the two addresses by value, the row by their keys. *)
Definition transaction_of (a b : string) (s : Session) : option Transaction.t :=
  match query_ip a s, query_ip b s with
  | Some ra, Some rb => query_transaction (IP.id ra) (IP.id rb) s
  | _, _ => None
  end.

Definition count_of (a b : string) (s : Session) : option Z :=
  Transaction.count <$> transaction_of a b s.

(** Integrity of a database: keys of addresses are distinct and every
    transaction refers to addresses of the table. *)
Definition db_wf (s : Session) : Prop :=
  NoDup (map IP.id (ips s)) /\
  Forall (fun t => Transaction.sender_ip_id t ∈ map IP.id (ips s) /\
                   Transaction.target_ip_id t ∈ map IP.id (ips s))
         (transactions s).

#[global] Instance db_wf_dec (s : Session) : Decision (db_wf s).
Proof. unfold db_wf. apply _. Defined.

(** The rows and network calls made when a new address is created. *)
Definition created (ip : string) (resolve : bool) (ptr : option string)
    (interface : option string) (active : bool) (w : World)
  : IP.t * list PTR.t * list NetCall :=
  let i := next_ip_id (db w) in
  let '(ps, cs) :=
    if truthy ptr then ([PTR.mk i (default "" ptr)], [])
    else if resolve then
      let answer := resolver_query (net w) ip in
      (if truthy answer then [PTR.mk i (default "" answer)] else [],
       [ReverseQuery ip answer])
    else ([], []) in
  if active then
    let answer := head (sr (net w ++ cs) interface ip) in
    (IP.mk i ip (if truthy answer then answer else None) true, ps,
     cs ++ [ArpRequest interface ip answer])
  else (IP.mk i ip None false, ps, cs).

Definition is_probe_of (a : string) (c : NetCall) : bool :=
  match c with
  | ArpRequest _ target _ => bool_decide (target = a)
  | ReverseQuery _ _ => false
  end.

Definition is_reverse_of (a : string) (c : NetCall) : bool :=
  match c with
  | ReverseQuery ip _ => bool_decide (ip = a)
  | ArpRequest _ _ _ => false
  end.

(** Number of ARP probes sent for [a] / reverse lookups made for [a]. *)
Definition probes (a : string) (calls : list NetCall) : nat :=
  length (List.filter (is_probe_of a) calls).

Definition reverse_lookups (a : string) (calls : list NetCall) : nat :=
  length (List.filter (is_reverse_of a) calls).

(** The read-modify-write on the transaction of a pair of keys that
    [handle_packets] (with [n = 1]) and the import loop (with the count of
    the source) both do. *)
Definition upsert_transaction (sid tid : nat) (n : Z) (s : Session) : Session :=
  match query_transaction sid tid s with
  | Some _ => add_count sid tid n s
  | None => add_transaction (Transaction.mk sid tid n) s
  end.

(** [s'] is [s] with new addresses, of new keys, and the same transactions. *)
Definition extends (s s' : Session) : Prop :=
  transactions s' = transactions s /\
  exists l, ips s' = ips s ++ l /\
            NoDup (map IP.id l) /\
            forall x, x ∈ l -> next_ip_id s <= IP.id x.

(** The event carried by a packet names the address [x]. *)
Definition names (p : Packet) (x : string) : Prop :=
  match getlayer_ARP p with
  | Some arp => ARP.psrc arp = x \/ ARP.pdst arp = x
  | None => False
  end.

(** The ledger has an entity for the address [x]. *)
Definition knows (s : Session) (x : string) : Prop := x ∈ map IP.value (ips s).

(** The transaction [t] of the ledger refers to an entity of address [x]. *)
Definition refers_to (s : Session) (t : Transaction.t) (x : string) : Prop :=
  exists r, r ∈ ips s /\ IP.value r = x /\
            (IP.id r = Transaction.sender_ip_id t \/ IP.id r = Transaction.target_ip_id t).

(** *** The report, said by groups *)

(** A transaction together with the two addresses its relationships load. *)
Record Loaded := mkLoaded {
  the_transaction : Transaction.t;
  the_sender : IP.t;
  the_target : IP.t
}.

Definition load_transaction (s : Session) (t : Transaction.t) : result Loaded :=
  do t_sender <- attr (ip_by_id (Transaction.sender_ip_id t) s);
  do t_target <- attr (ip_by_id (Transaction.target_ip_id t) s);
  Ok (mkLoaded t t_sender t_target).

Definition sender_of (x : Loaded) : string := IP.value (the_sender x).

(** Kept by the sender and target lists given to the report. *)
Definition listed (sender_lists target_lists : option Lists) (x : Loaded) : bool :=
  negb (rejects sender_lists (IP.value (the_sender x)))
  && negb (rejects target_lists (IP.value (the_target x))).

(** The cells of the row of a transaction; [labelled] tells whether the row
    is the first of its sender. *)
Definition make_row (s : Session) (color_profile : option ColorProfile)
    (resolve active : bool) (labelled : bool) (x : Loaded) : list string :=
  [if labelled then sender_of x else ""; IP.value (the_target x)]
  ++ (if active then [sploit_char color_profile (the_target x)] else [])
  ++ [str (Transaction.count (the_transaction x))]
  ++ (if resolve
      then [if labelled then first_ptr (the_sender x) s else "";
            first_ptr (the_target x) s]
      else []).

(** Senders in the order of their first appearance. *)
Fixpoint first_appearances (l : list string) : list string :=
  match l with
  | [] => []
  | k :: l' => k :: List.filter (fun k' => negb (bool_decide (k' = k))) (first_appearances l')
  end.

(** The group of a sender: the rows of all its transactions, in the order of
    the list, the first one labelled. *)
Definition group_of (s : Session) (color_profile : option ColorProfile)
    (resolve active : bool) (xs : list Loaded) (sender : string)
  : string * list (list string) :=
  (sender,
   match List.filter (fun x => bool_decide (sender_of x = sender)) xs with
   | [] => []
   | x :: xs' =>
       make_row s color_profile resolve active true x
       :: map (make_row s color_profile resolve active false) xs'
   end).

Definition grouped_report (s : Session) (color_profile : option ColorProfile)
    (resolve active : bool) (xs : list Loaded) : Rowdict :=
  map (group_of s color_profile resolve active xs) (first_appearances (map sender_of xs)).

(** The report said by groups: the transactions by descending count, those
    kept by the lists, one group per sender in the order of first appearance
    of the senders. *)
Definition report_by_groups (s : Session) (sender_lists target_lists : option Lists)
    (color_profile : option ColorProfile) (resolve active : bool) : result Output :=
  match order_by_desc_count (transactions s) with
  | [] => Ok (Message no_records)
  | ordered =>
      do xs <- mapM (load_transaction s) ordered;
      Ok (Tabulate
            (restructure color_profile 0
               (grouped_report s color_profile resolve active
                  (List.filter (listed sender_lists target_lists) xs)))
            (build_headers color_profile resolve active))
  end.

(** The rows as the spec words them: in the order of the query, a row
    labelled when its sender is not the sender of the row before it. *)
Fixpoint rows_in_query_order (s : Session) (color_profile : option ColorProfile)
    (resolve active : bool) (previous : option string) (xs : list Loaded)
  : list (list string) :=
  match xs with
  | [] => []
  | x :: xs' =>
      make_row s color_profile resolve active
               (negb (bool_decide (previous = Some (sender_of x)))) x
      :: rows_in_query_order s color_profile resolve active (Some (sender_of x)) xs'
  end.

(** A row of the table and the cells it styles. *)
Definition styled_as (color_profile : option ColorProfile)
    (plain row : list string) : Prop :=
  match color_profile with
  | None => row = plain
  | Some _ => exists style, row = map (fun v => stylize v style) plain
  end.

(** What a session that started on the database [d] with no network call
    made yet keeps true about ARP probes: at most one per address; a probed
    address has its entity, marked as attempted; a MAC address in the table
    was there from the start or is the answer to a probe of that address. *)
Definition probe_ledger (d : Session) (w : World) : Prop :=
  (forall a, probes a (net w) <= 1) /\
  (forall a, 0 < probes a (net w) ->
     exists r, query_ip a (db w) = Some r /\ IP.arp_resolve_attempted r = true) /\
  (forall r, r ∈ ips (db w) ->
     r ∈ ips d \/ IP.mac_address r = None \/
     exists interface m,
       IP.mac_address r = Some m /\ m <> "" /\
       ArpRequest interface (IP.value r) (Some m) ∈ net w).

(** The same for reverse lookups: at most one per address, and an address
    looked up has its entity. *)
Definition reverse_ledger (w : World) : Prop :=
  (forall a, reverse_lookups a (net w) <= 1) /\
  (forall a, 0 < reverse_lookups a (net w) -> is_Some (query_ip a (db w))).

(** A property of sessions that no write to the transaction table affects. *)
Definition transaction_blind (P : World -> Prop) : Prop :=
  forall w txs,
    P w -> P (mkWorld (mkSession (ips (db w)) (ptrs (db w)) txs) (net w)).

(** A property of sessions kept by every call of [get_or_create_ip]. *)
Definition kept_by_get_or_create_ip (P : World -> Prop) : Prop :=
  forall ip resolve ptr interface active w,
    P w -> P (snd (get_or_create_ip ip resolve ptr interface active w)).

(** *** Counting *)

(** The key of a transaction: the keys of its two addresses. *)
Definition tx_key (t : Transaction.t) : nat * nat :=
  (Transaction.sender_ip_id t, Transaction.target_ip_id t).

Definition Z_sum (l : list Z) : Z := foldr Z.add 0%Z l.

(** The events recorded by the ledger, all pairs together. *)
Definition total_count (s : Session) : Z :=
  Z_sum (map Transaction.count (transactions s)).

(** The number of events [(a, b)] in a batch. *)
Definition occurrences (a b : string) (events : list (string * string)) : nat :=
  length (List.filter (fun e => bool_decide (e = (a, b))) events).

(** What a batch adds to the count of a pair: nothing when no event of the
    batch is of that pair, else the sum of what its events of that pair
    weigh, on top of the count the pair had (none counting as 0). *)
Definition count_after (before : option Z) (added : list Z) : option Z :=
  match added with
  | [] => before
  | _ => Some (from_option id 0%Z before + Z_sum added)%Z
  end.

(** The pair of address values a transaction of a source database stands
    for. *)
Definition source_pair (isess : Session) (t : Transaction.t) : string * string :=
  (from_option IP.value "" (ip_by_id (Transaction.sender_ip_id t) isess),
   from_option IP.value "" (ip_by_id (Transaction.target_ip_id t) isess)).

(** Both relationships of a transaction of the source load an address. *)
Definition loads (isess : Session) (t : Transaction.t) : Prop :=
  is_Some (ip_by_id (Transaction.sender_ip_id t) isess) /\
  is_Some (ip_by_id (Transaction.target_ip_id t) isess).

#[global] Instance loads_dec isess t : Decision (loads isess t).
Proof. unfold loads. apply _. Defined.

(** The counts a source database holds for the pair [(a, b)]. *)
Definition source_counts (a b : string) (isess : Session) : list Z :=
  map Transaction.count
    (List.filter (fun t => bool_decide (source_pair isess t = (a, b))) (transactions isess)).

(** *** Reverse names *)

(** Every PTR record belongs to an address of the table. *)
Definition ptrs_owned (s : Session) : Prop :=
  Forall (fun p => PTR.ip_id p ∈ map IP.id (ips s)) (ptrs s).

#[global] Instance ptrs_owned_dec (s : Session) : Decision (ptrs_owned s).
Proof. unfold ptrs_owned. apply _. Defined.

(** The PTR records an import gives to the address of key [i] it creates
    from the row [r] of the source: the first reverse name of [r], if it has
    one that is not empty. *)
Definition carried_records (isess : Session) (r : IP.t) (i : nat) : list PTR.t :=
  if truthy (carried_ptr r isess)
  then [PTR.mk i (default "" (carried_ptr r isess))]
  else [].

(** The reverse names of the row [r'] of [d] after an import of [isess] into
    [d0]: those it had when it was in [d0], else those carried from a row of
    the source for the same address. *)
Definition names_carried (isess d0 d : Session) (r' : IP.t) : Prop :=
  (r' ∈ ips d0 /\ ip_ptr r' d = ip_ptr r' d0) \/
  (~ knows d0 (IP.value r') /\
   exists r, r ∈ ips isess /\ IP.value r = IP.value r' /\
             ip_ptr r' d = carried_records isess r (IP.id r')).


(** * Properties *)

(** The solvers look at everything in the context; what a goal does not
    mention of the collaborators is put aside first. *)
Ltac aside :=
  try clear stylize; try clear check; try clear Lists_bool; try clear Lists;
  try clear sr; try clear resolver_query.
Ltac solve_elem := aside; set_solver.

(** ** Lookups in tables that only grow *)

Lemma find_app_Some {A} (f : A -> bool) (l l' : list A) (x : A) :
  List.find f l = Some x -> List.find f (l ++ l') = Some x.
Proof.
  induction l as [|y l IH]; simpl; [discriminate|].
  destruct (f y); auto.
Qed.

Lemma find_app_None {A} (f : A -> bool) (l l' : list A) :
  List.find f l = None -> List.find f (l ++ l') = List.find f l'.
Proof.
  induction l as [|y l IH]; simpl; [reflexivity|].
  destruct (f y); [discriminate|auto].
Qed.

Lemma find_None_iff {A} (f : A -> bool) (l : list A) :
  List.find f l = None <-> forall x, x ∈ l -> f x = false.
Proof.
  induction l as [|y l IH]; simpl.
  - split; [intros _ x Hx; inversion Hx|reflexivity].
  - destruct (f y) eqn:Hy.
    + split; [discriminate|].
      intros H. rewrite (H y) in Hy by left. discriminate.
    + rewrite IH. split.
      * intros H x [->|Hx]%elem_of_cons; auto.
      * intros H x Hx. apply H. by right.
Qed.

Lemma find_Some_elem {A} (f : A -> bool) (l : list A) (x : A) :
  List.find f l = Some x -> x ∈ l /\ f x = true.
Proof.
  intros [H1 H2]%find_some. split; [by apply list_elem_of_In|done].
Qed.

Lemma next_ip_id_fresh (s : Session) (r : IP.t) :
  r ∈ ips s -> IP.id r < next_ip_id s.
Proof.
  intros Hr. unfold next_ip_id.
  assert (IP.id r ∈ map IP.id (ips s)) as Hin.
  { apply list_elem_of_In, in_map, list_elem_of_In, Hr. }
  apply max_list_elem_of_le in Hin. lia.
Qed.

Lemma update_ip_new (l : list IP.t) (r0 r : IP.t) (i : nat) :
  (forall x, x ∈ l -> IP.id x <> i) -> IP.id r0 = i ->
  map (fun x => if bool_decide (IP.id x = i) then r else x) (l ++ [r0]) = l ++ [r].
Proof.
  intros Hl Hr. rewrite map_app. simpl.
  rewrite bool_decide_eq_true_2 by done. f_equal.
  induction l as [|y l IH]; simpl; [reflexivity|].
  rewrite bool_decide_eq_false_2 by (apply Hl; left).
  f_equal. apply IH. intros x Hx. apply Hl. by right.
Qed.

(** ** [get_or_create_ip] in closed form *)

Lemma get_or_create_ip_found ip resolve ptr interface active w r :
  query_ip ip (db w) = Some r ->
  get_or_create_ip ip resolve ptr interface active w = (r, w).
Proof. intros H. unfold get_or_create_ip. by rewrite H. Qed.

Lemma get_or_create_ip_new ip resolve ptr interface active w :
  query_ip ip (db w) = None ->
  get_or_create_ip ip resolve ptr interface active w =
    let '(r, ps, cs) := created ip resolve ptr interface active w in
    (r, mkWorld (mkSession (ips (db w) ++ [r]) (ptrs (db w) ++ ps) (transactions (db w)))
                (net w ++ cs)).
Proof.
  intros H. unfold get_or_create_ip, created. rewrite H.
  destruct w as [[i p t] n]. simpl.
  assert (forall x, x ∈ i -> IP.id x <> next_ip_id (mkSession i p t)) as Hfresh.
  { intros x Hx. pose proof (next_ip_id_fresh (mkSession i p t) x Hx). lia. }
  unfold on_db, add_ip, add_ptr, update_ip, reverse_resolve, arp_request, log_call; simpl.
  destruct (truthy ptr), resolve, (truthy (resolver_query n ip)), active; simpl;
    rewrite ?update_ip_new by done; rewrite ?app_nil_r, <- ?app_assoc; simpl;
    repeat match goal with
           | |- context [sr ?a ?b ?c] => destruct (sr a b c)
           end; reflexivity.
Qed.

Lemma created_row ip resolve ptr interface active w r ps cs :
  created ip resolve ptr interface active w = (r, ps, cs) ->
  IP.id r = next_ip_id (db w) /\ IP.value r = ip.
Proof.
  unfold created.
  destruct (truthy ptr), resolve, active; intros [= <- _ _]; done.
Qed.

Lemma get_or_create_ip_cases ip resolve ptr interface active w :
  forall r w', get_or_create_ip ip resolve ptr interface active w = (r, w') ->
  (query_ip ip (db w) = Some r /\ w' = w) \/
  (query_ip ip (db w) = None /\
   exists ps cs,
     created ip resolve ptr interface active w = (r, ps, cs) /\
     w' = mkWorld (mkSession (ips (db w) ++ [r]) (ptrs (db w) ++ ps)
                             (transactions (db w)))
                  (net w ++ cs)).
Proof.
  intros r w' H. destruct (query_ip ip (db w)) as [r0|] eqn:Hq.
  - rewrite (get_or_create_ip_found _ _ _ _ _ _ _ Hq) in H. left. by simplify_eq.
  - rewrite (get_or_create_ip_new _ _ _ _ _ _ Hq) in H. right. split; [done|].
    destruct (created ip resolve ptr interface active w) as [[r1 ps] cs].
    simplify_eq. eauto.
Qed.

Lemma query_ip_app_new l r ps txs ip :
  List.find (fun x => bool_decide (IP.value x = ip)) l = None -> IP.value r = ip ->
  query_ip ip (mkSession (l ++ [r]) ps txs) = Some r.
Proof.
  intros Hn Hv. unfold query_ip. simpl. rewrite find_app_None by done. simpl.
  by rewrite bool_decide_eq_true_2.
Qed.

(** The entity returned is the one later lookups of the address find. *)
Lemma get_or_create_ip_query ip resolve ptr interface active w r w' :
  get_or_create_ip ip resolve ptr interface active w = (r, w') ->
  query_ip ip (db w') = Some r /\ IP.value r = ip.
Proof.
  intros [[Hq ->]|[Hq (ps & cs & Hc & ->)]]%get_or_create_ip_cases.
  - split; [done|]. apply find_Some_elem in Hq as [_ Hv].
    by apply bool_decide_eq_true in Hv.
  - apply created_row in Hc as [_ Hv]. split; [|done]. simpl.
    by apply query_ip_app_new.
Qed.

(** ** Properties kept along a session *)

Lemma handle_packet_kept (P : World -> Prop) resolve active interface w packet :
  kept_by_get_or_create_ip P -> transaction_blind P ->
  P w -> P (handle_packet resolve active interface w packet).
Proof.
  intros Hg Hb Hw. unfold handle_packet.
  pose proof (Hg (fst packet) resolve None None false w Hw) as H1.
  destruct (get_or_create_ip (fst packet) resolve None None false w) as [sender w1].
  pose proof (Hg (snd packet) resolve None interface active w1 H1) as H2.
  destruct (get_or_create_ip (snd packet) resolve None interface active w1) as [target w2].
  simpl in *.
  destruct (query_transaction _ _ _); apply (Hb w2 _ H2).
Qed.

Lemma handle_packets_kept (P : World -> Prop) packets resolve active interface w w' :
  kept_by_get_or_create_ip P -> transaction_blind P ->
  handle_packets packets resolve active interface w = Ok w' ->
  P w -> P w'.
Proof.
  intros Hg Hb. unfold handle_packets.
  destruct (mapM unpack_packet packets) as [l|]; simpl; [|discriminate].
  destruct (active && negb (truthy interface)); [discriminate|].
  intros [= <-]. revert w.
  induction l as [|p l IH]; simpl; intros w Hw; [done|].
  apply IH. by apply handle_packet_kept.
Qed.

Lemma import_transaction_kept (P : World -> Prop) isess w t w' :
  kept_by_get_or_create_ip P -> transaction_blind P ->
  import_transaction isess w t = Ok w' ->
  P w -> P w'.
Proof.
  intros Hg Hb. unfold import_transaction.
  destruct (ip_by_id (Transaction.sender_ip_id t) isess) as [ts|]; simpl; [|discriminate].
  destruct (ip_by_id (Transaction.target_ip_id t) isess) as [tt|]; simpl; [|discriminate].
  intros H Hw.
  pose proof (Hg (IP.value ts) false (carried_ptr ts isess) None false w Hw) as H1.
  destruct (get_or_create_ip (IP.value ts) false _ None false w) as [sender w1].
  pose proof (Hg (IP.value tt) false (carried_ptr tt isess) None false w1 H1) as H2.
  destruct (get_or_create_ip (IP.value tt) false _ None false w1) as [target w2].
  simpl in *.
  destruct (query_transaction _ _ _); simplify_eq; apply (Hb w2 _ H2).
Qed.

Lemma merge_kept (P : World -> Prop) isess w :
  kept_by_get_or_create_ip P -> transaction_blind P ->
  P w -> P (fst (merge isess w)).
Proof.
  intros Hg Hb. unfold merge. generalize (transactions isess) as l.
  intros l. revert w. induction l as [|t l IH]; simpl; intros w Hw; [done|].
  unfold or_keep at 1.
  destruct (import_transaction isess w t) as [w1|e] eqn:Hi; simpl; [|done].
  apply IH. eapply import_transaction_kept; eauto.
Qed.

Lemma run_ops_kept (P : World -> Prop) ops w :
  kept_by_get_or_create_ip P -> transaction_blind P ->
  P w -> P (run_ops ops w).
Proof.
  intros Hg Hb. unfold run_ops. revert w.
  induction ops as [|o ops IH]; simpl; intros w Hw; [done|].
  apply IH. destruct o as [ip rs p i a|pk rs a i|isess]; simpl.
  - by apply Hg.
  - destruct (handle_packets pk rs a i w) as [w'|] eqn:Hh; [|done].
    eapply handle_packets_kept; eauto.
  - by apply merge_kept.
Qed.

(** ** Entity registry *)

Lemma query_ip_None_values ip s :
  query_ip ip s = None -> ip ∉ map IP.value (ips s).
Proof.
  unfold query_ip. rewrite find_None_iff. intros H Hin.
  apply list_elem_of_fmap in Hin as (x & -> & Hx).
  specialize (H x Hx). by apply bool_decide_eq_false in H.
Qed.

Lemma unique_values_kept :
  kept_by_get_or_create_ip (fun w => NoDup (map IP.value (ips (db w)))).
Proof.
  intros ip resolve ptr interface active w Hw.
  destruct (get_or_create_ip ip resolve ptr interface active w) as [r w'] eqn:Hg.
  apply get_or_create_ip_cases in Hg as [[_ ->]|[Hq (ps & cs & Hc & ->)]]; [done|].
  simpl. rewrite map_app. apply NoDup_app. split; [done|]. split.
  - intros x Hx [->|Hn]%elem_of_cons; [|inversion Hn].
    apply created_row in Hc as [_ Hv]. rewrite Hv in Hx.
    by apply query_ip_None_values in Hq.
  - apply NoDup_singleton.
Qed.

(** C2: [get_or_create_ip] called a second time with an equal address, with
    whatever other arguments, returns the entity the first call returned and
    leaves the session as it is; and along any sequence of calls on a session
    a store whose address values are distinct keeps them distinct. *)
Theorem get_or_create_ip_idempotent
    ip resolve ptr interface active resolve' ptr' interface' active' ops w :
  (forall r1 w1,
     get_or_create_ip ip resolve ptr interface active w = (r1, w1) ->
     get_or_create_ip ip resolve' ptr' interface' active' w1 = (r1, w1)) /\
  (NoDup (map IP.value (ips (db w))) ->
   NoDup (map IP.value (ips (db (run_ops ops w))))).
Proof.
  split.
  - intros r1 w1 [Hq _]%get_or_create_ip_query.
    by apply get_or_create_ip_found.
  - apply (run_ops_kept (fun w => NoDup (map IP.value (ips (db w))))).
    + apply unique_values_kept.
    + intros w0 txs H. exact H.
Qed.

(** ** Enrichment: at most once per address *)

Lemma probes_app a l l' : probes a (l ++ l') = probes a l + probes a l'.
Proof. unfold probes. by rewrite List.filter_app, length_app. Qed.

Lemma reverse_lookups_app a l l' :
  reverse_lookups a (l ++ l') = reverse_lookups a l + reverse_lookups a l'.
Proof. unfold reverse_lookups. by rewrite List.filter_app, length_app. Qed.

Lemma truthy_Some o : truthy o = true -> exists m, o = Some m /\ m <> "".
Proof. destruct o as [[|c m]|]; try discriminate. intros _. by eexists. Qed.

(** Network calls of the creation path. *)
Lemma created_calls ip resolve ptr interface active w r ps cs a :
  created ip resolve ptr interface active w = (r, ps, cs) ->
  probes a cs = (if active && bool_decide (ip = a) then 1 else 0) /\
  reverse_lookups a cs =
    (if negb (truthy ptr) && resolve && bool_decide (ip = a) then 1 else 0).
Proof.
  unfold created.
  destruct (truthy ptr), resolve, active; simpl; intros H; simplify_eq;
    unfold probes, reverse_lookups; simpl;
    repeat case_match; repeat case_bool_decide; simplify_eq; try done.
Qed.

(** The row of the creation path. *)
Lemma created_probe ip resolve ptr interface active w r ps cs :
  created ip resolve ptr interface active w = (r, ps, cs) ->
  IP.arp_resolve_attempted r = active /\
  (active = false -> IP.mac_address r = None) /\
  (active = true -> exists answer,
      ArpRequest interface ip answer ∈ cs /\
      IP.mac_address r = if truthy answer then answer else None).
Proof.
  unfold created.
  destruct (truthy ptr), resolve, active; simpl; intros H;
    injection H as <- <- <-; simpl;
    (split; [reflexivity|]); (split; [intros; congruence|]);
    intros Ha; try discriminate Ha;
    eexists; (split; [|reflexivity]); rewrite ?elem_of_cons;
    first [left; reflexivity | right; left; reflexivity].
Qed.

Lemma query_ip_stable ip s r l ps txs :
  query_ip ip s = Some r ->
  query_ip ip (mkSession (ips s ++ l) ps txs) = Some r.
Proof. unfold query_ip. simpl. apply find_app_Some. Qed.

Lemma probe_ledger_kept d : kept_by_get_or_create_ip (probe_ledger d).
Proof.
  intros ip resolve ptr interface active w (H1 & H2 & H3).
  destruct (get_or_create_ip ip resolve ptr interface active w) as [r w'] eqn:Hg.
  apply get_or_create_ip_cases in Hg as [[_ ->]|[Hq (ps & cs & Hc & ->)]]; [done|].
  unfold probe_ledger, reverse_ledger; cbn [snd db net ips ptrs transactions].
  assert (probes ip (net w) = 0) as Hzero.
  { destruct (probes ip (net w)) eqn:Hp; [done|].
    destruct (H2 ip) as (r0 & Hr0 & _); [lia|congruence]. }
  pose proof (created_probe _ _ _ _ _ _ _ _ _ Hc) as (Hatt & Hmac0 & Hmac1).
  pose proof (created_row _ _ _ _ _ _ _ _ _ Hc) as [_ Hval].
  split; [|split].
  - intros a. rewrite probes_app.
    destruct (created_calls _ _ _ _ _ _ _ _ _ a Hc) as [-> _].
    destruct active; simpl; [|specialize (H1 a); lia].
    case_bool_decide; [subst a; lia|specialize (H1 a); lia].
  - intros a. rewrite probes_app.
    destruct (created_calls _ _ _ _ _ _ _ _ _ a Hc) as [-> _].
    destruct active; simpl.
    + case_bool_decide as Ha.
      * subst a. intros _. exists r. split; [|done].
        by apply query_ip_app_new.
      * intros Hp. destruct (H2 a) as (r0 & Hr0 & Hr0'); [lia|].
        exists r0. split; [|done]. by apply query_ip_stable.
    + intros Hp. destruct (H2 a) as (r0 & Hr0 & Hr0'); [lia|].
      exists r0. split; [|done]. by apply query_ip_stable.
  - intros r0 [Hr0|Hr0%list_elem_of_singleton]%elem_of_app; [|subst r0].
    + destruct (H3 r0 Hr0) as [?|[?|(i & m & ? & ? & ?)]]; [by left|by right; left|].
      right; right. exists i, m. solve_elem.
    + destruct active.
      * destruct Hmac1 as (answer & Hin & Hm); [done|].
        destruct (truthy answer) eqn:Ht; [|by right; left].
        apply truthy_Some in Ht as (m & -> & Hne).
        right; right. exists interface, m. rewrite Hval. solve_elem.
      * right; left. by apply Hmac0.
Qed.

Lemma reverse_ledger_kept : kept_by_get_or_create_ip reverse_ledger.
Proof.
  intros ip resolve ptr interface active w (H1 & H2).
  destruct (get_or_create_ip ip resolve ptr interface active w) as [r w'] eqn:Hg.
  apply get_or_create_ip_cases in Hg as [[_ ->]|[Hq (ps & cs & Hc & ->)]]; [done|].
  unfold probe_ledger, reverse_ledger; cbn [snd db net ips ptrs transactions].
  assert (reverse_lookups ip (net w) = 0) as Hzero.
  { destruct (reverse_lookups ip (net w)) eqn:Hp; [done|].
    destruct (H2 ip) as [r0 Hr0]; [lia|congruence]. }
  pose proof (created_row _ _ _ _ _ _ _ _ _ Hc) as [_ Hval].
  split.
  - intros a. rewrite reverse_lookups_app.
    destruct (created_calls _ _ _ _ _ _ _ _ _ a Hc) as [_ ->].
    destruct (negb (truthy ptr) && resolve); simpl; [|specialize (H1 a); lia].
    case_bool_decide; [subst a; lia|specialize (H1 a); lia].
  - intros a. rewrite reverse_lookups_app.
    destruct (created_calls _ _ _ _ _ _ _ _ _ a Hc) as [_ ->].
    destruct (decide (ip = a)) as [<-|Hne].
    + intros _. exists r. by apply query_ip_app_new.
    + rewrite (bool_decide_eq_false_2 _ Hne), andb_false_r.
      intros Hp. destruct (H2 a) as [r0 Hr0]; [lia|].
      exists r0. by apply query_ip_stable.
Qed.

Lemma entity_kept a r :
  kept_by_get_or_create_ip (fun w => query_ip a (db w) = Some r).
Proof.
  intros ip resolve ptr interface active w Hw.
  destruct (get_or_create_ip ip resolve ptr interface active w) as [r' w'] eqn:Hg.
  apply get_or_create_ip_cases in Hg as [[_ ->]|[Hq (ps & cs & Hc & ->)]]; [done|].
  unfold probe_ledger, reverse_ledger; cbn [snd db net ips ptrs transactions]. by apply query_ip_stable.
Qed.

(** C5: in a session that starts on any database with no network call made
    yet, after any sequence of writes: no address has been sent more than one
    ARP probe; an address that was probed has its entity with
    [arp_resolve_attempted] true, and that very row stays the entity of the
    address whatever the session does next; a MAC address found in the table
    was there at the start or is the non-empty answer to a probe of that
    address.  A call for an address that has its entity probes nothing and
    changes nothing; a call that creates the entity with [active] set sends
    the probe, marks the entity as attempted whatever the answer, and records
    the answer as MAC address only when there is one. *)
Theorem arp_probe_at_most_once d ops :
  let w := run_ops ops (mkWorld d []) in
  (forall a, probes a (net w) <= 1) /\
  (forall a, 0 < probes a (net w) ->
     exists r, query_ip a (db w) = Some r /\ IP.arp_resolve_attempted r = true /\
               forall ops', query_ip a (db (run_ops ops' w)) = Some r) /\
  (forall r, r ∈ ips (db w) ->
     r ∈ ips d \/ IP.mac_address r = None \/
     exists interface m,
       IP.mac_address r = Some m /\ m <> "" /\
       ArpRequest interface (IP.value r) (Some m) ∈ net w) /\
  (forall ip resolve ptr interface active w0 r,
     query_ip ip (db w0) = Some r ->
     get_or_create_ip ip resolve ptr interface active w0 = (r, w0)) /\
  (forall ip resolve ptr interface w0 r w',
     query_ip ip (db w0) = None ->
     get_or_create_ip ip resolve ptr interface true w0 = (r, w') ->
     probes ip (net w') = S (probes ip (net w0)) /\
     IP.arp_resolve_attempted r = true /\
     exists answer,
       ArpRequest interface ip answer ∈ net w' /\
       IP.mac_address r = if truthy answer then answer else None).
Proof.
  intros w.
  assert (probe_ledger d w) as (H1 & H2 & H3).
  { apply run_ops_kept.
    - apply probe_ledger_kept.
    - intros w0 txs H. exact H.
    - split; [|split]; unfold probes; simpl; intros; [lia|lia|by left]. }
  split; [done|]. split; [|split; [done|split]].
  - intros a Ha. destruct (H2 a Ha) as (r & Hr & Hatt).
    exists r. split; [done|]. split; [done|].
    intros ops'.
    apply (run_ops_kept (fun w => query_ip a (db w) = Some r)); [| |done].
    + apply entity_kept.
    + intros w0 txs H. exact H.
  - intros. by apply get_or_create_ip_found.
  - intros ip resolve ptr interface w0 r w' Hq Hg.
    apply get_or_create_ip_cases in Hg as [[Hq' _]|[_ (ps & cs & Hc & ->)]];
      [congruence|].
    cbn [db net].
    pose proof (created_probe _ _ _ _ _ _ _ _ _ Hc) as (Hatt & _ & Hmac).
    destruct (created_calls _ _ _ _ _ _ _ _ _ ip Hc) as [Hp _].
    rewrite probes_app, Hp. simpl. rewrite bool_decide_eq_true_2 by done.
    split; [lia|]. split; [done|].
    destruct Hmac as (answer & Hin & Hm); [done|].
    exists answer. split; [|done]. solve_elem.
Qed.

(** C6: in a session that starts with no network call made yet, after any
    sequence of writes, no address has been looked up more than once, and an
    address that was looked up has its entity; a call for an address that has
    its entity looks nothing up and changes nothing, whatever its arguments;
    the call that creates the entity with [resolve] set and no PTR value
    handed over makes exactly one lookup, and adds exactly one PTR row, owned
    by the new entity, when the lookup answers and none when it does not. *)
Theorem reverse_lookup_at_most_once d ops :
  let w := run_ops ops (mkWorld d []) in
  (forall a, reverse_lookups a (net w) <= 1) /\
  (forall a, 0 < reverse_lookups a (net w) -> is_Some (query_ip a (db w))) /\
  (forall ip resolve ptr interface active w0 r,
     query_ip ip (db w0) = Some r ->
     get_or_create_ip ip resolve ptr interface active w0 = (r, w0)) /\
  (forall ip interface active w0 r w',
     query_ip ip (db w0) = None ->
     get_or_create_ip ip true None interface active w0 = (r, w') ->
     let answer := resolver_query (net w0) ip in
     reverse_lookups ip (net w') = S (reverse_lookups ip (net w0)) /\
     ReverseQuery ip answer ∈ net w' /\
     ptrs (db w') =
       ptrs (db w0) ++
       (if truthy answer then [PTR.mk (IP.id r) (default "" answer)] else [])).
Proof.
  intros w.
  assert (reverse_ledger w) as (H1 & H2).
  { apply run_ops_kept.
    - apply reverse_ledger_kept.
    - intros w0 txs H. exact H.
    - split; unfold reverse_lookups; simpl; intros; lia. }
  split; [done|]. split; [done|]. split.
  - intros. by apply get_or_create_ip_found.
  - intros ip interface active w0 r w' Hq Hg answer.
    apply get_or_create_ip_cases in Hg as [[Hq' _]|[_ (ps & cs & Hc & ->)]];
      [congruence|].
    cbn [db net ptrs].
    destruct (created_calls _ _ _ _ _ _ _ _ _ ip Hc) as [_ Hp].
    rewrite reverse_lookups_app, Hp. simpl. rewrite bool_decide_eq_true_2 by done.
    split; [lia|].
    unfold created in Hc. simpl in Hc. fold answer in Hc.
    destruct active; simplify_eq; simpl; (split; [solve_elem|done]).
Qed.

(** ** Transaction ledger *)

Lemma extends_refl s : extends s s.
Proof.
  split; [done|]. exists []. rewrite app_nil_r.
  split; [done|]. split; [constructor|]. intros x Hx. inversion Hx.
Qed.

Lemma next_ip_id_le x s : x ∈ ips s -> IP.id x < next_ip_id s.
Proof. apply next_ip_id_fresh. Qed.

Lemma max_list_app_le (l l' : list nat) : max_list l <= max_list (l ++ l').
Proof. induction l as [|x l IH]; simpl; lia. Qed.

Lemma next_ip_id_mono s s' l :
  ips s' = ips s ++ l -> next_ip_id s <= next_ip_id s'.
Proof.
  intros H. unfold next_ip_id. rewrite H, map_app.
  pose proof (max_list_app_le (map IP.id (ips s)) (map IP.id l)). lia.
Qed.

Lemma extends_trans s1 s2 s3 : extends s1 s2 -> extends s2 s3 -> extends s1 s3.
Proof.
  intros [Ht1 (l1 & Hl1 & Hn1 & Hf1)] [Ht2 (l2 & Hl2 & Hn2 & Hf2)].
  split; [congruence|]. exists (l1 ++ l2).
  split; [by rewrite Hl2, Hl1, app_assoc|]. split.
  - rewrite map_app. apply NoDup_app. split; [done|]. split; [|done].
    intros i Hi1 Hi2.
    apply list_elem_of_fmap in Hi1 as (x1 & -> & Hx1).
    apply list_elem_of_fmap in Hi2 as (x2 & Heq & Hx2).
    apply Hf2 in Hx2.
    assert (x1 ∈ ips s2) as Hin by (rewrite Hl1; solve_elem).
    apply next_ip_id_le in Hin. lia.
  - intros x [Hx|Hx]%elem_of_app; [by apply Hf1|].
    apply Hf2 in Hx. pose proof (next_ip_id_mono _ _ _ Hl1). lia.
Qed.

Lemma get_or_create_ip_extends ip resolve ptr interface active w r w' :
  get_or_create_ip ip resolve ptr interface active w = (r, w') ->
  extends (db w) (db w').
Proof.
  intros [[_ ->]|[Hq (ps & cs & Hc & ->)]]%get_or_create_ip_cases.
  - apply extends_refl.
  - split; [done|]. exists [r]. simpl. split; [done|].
    split; [apply NoDup_singleton|].
    intros x ->%list_elem_of_singleton.
    apply created_row in Hc as [-> _]. done.
Qed.

Lemma extends_wf s s' : extends s s' -> db_wf s -> db_wf s'.
Proof.
  intros [Ht (l & Hl & Hn & Hf)] [Hnd Hrefs]. split.
  - rewrite Hl, map_app. apply NoDup_app. split; [done|]. split; [|done].
    intros i Hi1 Hi2.
    apply list_elem_of_fmap in Hi1 as (x1 & -> & Hx1).
    apply list_elem_of_fmap in Hi2 as (x2 & Heq & Hx2).
    apply Hf in Hx2. apply next_ip_id_le in Hx1. lia.
  - rewrite Ht, Hl, map_app. eapply Forall_impl; [exact Hrefs|].
    simpl. intros t [H1 H2]. split; apply elem_of_app; by left.
Qed.

Lemma extends_query_Some s s' ip r :
  extends s s' -> query_ip ip s = Some r -> query_ip ip s' = Some r.
Proof.
  intros [_ (l & Hl & _)] H. unfold query_ip in *. rewrite Hl.
  by apply find_app_Some.
Qed.

(** An address that appears along an extension has a key no transaction of
    the database extended refers to. *)
Lemma extends_query_new s s' ip r :
  extends s s' -> query_ip ip s = None -> query_ip ip s' = Some r ->
  IP.id r ∉ map IP.id (ips s).
Proof.
  intros [_ (l & Hl & _ & Hf)] Hn Hs. unfold query_ip in *.
  rewrite Hl, find_app_None in Hs by done.
  apply find_Some_elem in Hs as [Hin _]. apply Hf in Hin.
  intros Hi. apply list_elem_of_fmap in Hi as (x & Heq & Hx).
  apply next_ip_id_le in Hx. lia.
Qed.

Lemma query_transaction_no_sender sid tid s :
  db_wf s -> sid ∉ map IP.id (ips s) -> query_transaction sid tid s = None.
Proof.
  intros [_ Hrefs] Hs. unfold query_transaction. apply find_None_iff.
  intros t Ht. rewrite Forall_forall in Hrefs. destruct (Hrefs t Ht) as [H1 _].
  apply andb_false_iff. left. apply bool_decide_eq_false. congruence.
Qed.

Lemma query_transaction_no_target sid tid s :
  db_wf s -> tid ∉ map IP.id (ips s) -> query_transaction sid tid s = None.
Proof.
  intros [_ Hrefs] Hs. unfold query_transaction. apply find_None_iff.
  intros t Ht. rewrite Forall_forall in Hrefs. destruct (Hrefs t Ht) as [_ H2].
  apply andb_false_iff. right. apply bool_decide_eq_false. congruence.
Qed.

Lemma query_ip_elem ip s r :
  query_ip ip s = Some r -> r ∈ ips s /\ IP.value r = ip.
Proof.
  intros [H1 H2]%find_Some_elem. split; [done|].
  by apply bool_decide_eq_true in H2.
Qed.

(** Keys identify rows, hence address values. *)
Lemma same_key_same_row s r1 r2 :
  NoDup (map IP.id (ips s)) -> r1 ∈ ips s -> r2 ∈ ips s ->
  IP.id r1 = IP.id r2 -> r1 = r2.
Proof.
  intros Hnd. induction (ips s) as [|x l IH]; [intros H; inversion H|].
  simpl in Hnd. apply NoDup_cons in Hnd as [Hx Hnd].
  intros [->|H1]%elem_of_cons [->|H2]%elem_of_cons Heq; auto.
  - exfalso. apply Hx. rewrite Heq. apply list_elem_of_fmap. eauto.
  - exfalso. apply Hx. rewrite <- Heq. apply list_elem_of_fmap. eauto.
Qed.

Lemma upsert_ips sid tid n s : ips (upsert_transaction sid tid n s) = ips s.
Proof. unfold upsert_transaction. by destruct (query_transaction sid tid s). Qed.

Lemma upsert_query_ip sid tid n s ip :
  query_ip ip (upsert_transaction sid tid n s) = query_ip ip s.
Proof. unfold query_ip. by rewrite upsert_ips. Qed.

Lemma add_count_same sid tid n l t0 :
  List.find (fun t => bool_decide (Transaction.sender_ip_id t = sid)
                      && bool_decide (Transaction.target_ip_id t = tid)) l = Some t0 ->
  List.find (fun t => bool_decide (Transaction.sender_ip_id t = sid)
                      && bool_decide (Transaction.target_ip_id t = tid))
    (map (fun t => if bool_decide (Transaction.sender_ip_id t = sid)
                      && bool_decide (Transaction.target_ip_id t = tid)
                   then Transaction.mk sid tid (Transaction.count t + n) else t) l)
  = Some (Transaction.mk sid tid (Transaction.count t0 + n)).
Proof.
  induction l as [|t l IH]; simpl; [discriminate|].
  destruct (bool_decide (Transaction.sender_ip_id t = sid)
            && bool_decide (Transaction.target_ip_id t = tid)) eqn:Ht; simpl.
  - intros [= ->]. by rewrite !bool_decide_eq_true_2.
  - rewrite Ht. exact IH.
Qed.

Lemma add_count_other sid tid sid' tid' n l :
  (sid', tid') <> (sid, tid) ->
  List.find (fun t => bool_decide (Transaction.sender_ip_id t = sid')
                      && bool_decide (Transaction.target_ip_id t = tid'))
    (map (fun t => if bool_decide (Transaction.sender_ip_id t = sid)
                      && bool_decide (Transaction.target_ip_id t = tid)
                   then Transaction.mk sid tid (Transaction.count t + n) else t) l)
  = List.find (fun t => bool_decide (Transaction.sender_ip_id t = sid')
                        && bool_decide (Transaction.target_ip_id t = tid')) l.
Proof.
  intros Hne. induction l as [|t l IH]; simpl; [done|].
  destruct (bool_decide (Transaction.sender_ip_id t = sid)
            && bool_decide (Transaction.target_ip_id t = tid)) eqn:Ht; simpl.
  - apply andb_true_iff in Ht as [H1%bool_decide_eq_true H2%bool_decide_eq_true].
    assert (bool_decide (sid = sid') && bool_decide (tid = tid') = false) as Hf.
    { apply andb_false_iff.
      destruct (decide (sid = sid')) as [->|]; [right|left];
        apply bool_decide_eq_false; congruence. }
    rewrite H1, H2, Hf. exact IH.
  - destruct (bool_decide (Transaction.sender_ip_id t = sid')
              && bool_decide (Transaction.target_ip_id t = tid')); [done|exact IH].
Qed.

(** The transaction of the pair is created with [n], or has [n] added. *)
Lemma upsert_query_same sid tid n s :
  query_transaction sid tid (upsert_transaction sid tid n s) =
    Some (Transaction.mk sid tid
            (from_option Transaction.count 0%Z (query_transaction sid tid s) + n)).
Proof.
  unfold upsert_transaction.
  destruct (query_transaction sid tid s) as [t0|] eqn:Hq; unfold query_transaction in *; simpl.
  - by apply add_count_same.
  - rewrite find_app_None by done. simpl. by rewrite !bool_decide_eq_true_2.
Qed.

(** The transactions of the other pairs are left as they are. *)
Lemma upsert_query_other sid tid sid' tid' n s :
  (sid', tid') <> (sid, tid) ->
  query_transaction sid' tid' (upsert_transaction sid tid n s) =
    query_transaction sid' tid' s.
Proof.
  intros Hne. unfold upsert_transaction.
  destruct (query_transaction sid tid s) as [t0|] eqn:Hq; unfold query_transaction; simpl.
  - by apply add_count_other.
  - destruct (List.find _ (transactions s)) as [t1|] eqn:Hf.
    + by apply find_app_Some.
    + rewrite find_app_None by done. simpl.
      assert (bool_decide (sid = sid') && bool_decide (tid = tid') = false) as ->; [|done].
      apply andb_false_iff.
      destruct (decide (sid = sid')) as [->|]; [right|left];
        apply bool_decide_eq_false; congruence.
Qed.

Lemma upsert_wf sid tid n s :
  db_wf s -> sid ∈ map IP.id (ips s) -> tid ∈ map IP.id (ips s) ->
  db_wf (upsert_transaction sid tid n s).
Proof.
  intros [Hnd Hrefs] Hs Ht. split; [by rewrite upsert_ips|].
  rewrite upsert_ips. unfold upsert_transaction.
  destruct (query_transaction sid tid s) as [t0|]; simpl.
  - apply Forall_forall. intros tx Hin.
    apply list_elem_of_fmap in Hin as (t1 & -> & Hin).
    rewrite Forall_forall in Hrefs.
    destruct (_ && _); [done|by apply Hrefs].
  - apply Forall_app. split; [done|]. by repeat constructor.
Qed.

Lemma extends_query_None s s' ip :
  extends s s' -> query_ip ip s' = None -> query_ip ip s = None.
Proof.
  intros He Hn. destruct (query_ip ip s) as [r|] eqn:Hq; [|done].
  apply (extends_query_Some _ _ _ _ He) in Hq. congruence.
Qed.

(** Along an extension of a database, looking up the transaction of two
    addresses by their keys in the extension gives what the pair had in the
    database extended. *)
Lemma extends_transaction_of s s' c d rc rd :
  db_wf s -> extends s s' ->
  query_ip c s' = Some rc -> query_ip d s' = Some rd ->
  query_transaction (IP.id rc) (IP.id rd) s' = transaction_of c d s.
Proof.
  intros Hwf He Hc Hd.
  assert (query_transaction (IP.id rc) (IP.id rd) s' =
          query_transaction (IP.id rc) (IP.id rd) s) as ->.
  { unfold query_transaction. by rewrite (proj1 He). }
  unfold transaction_of.
  destruct (query_ip c s) as [rc0|] eqn:Hc0.
  - pose proof (extends_query_Some _ _ _ _ He Hc0) as Hc1.
    assert (rc0 = rc) as -> by congruence.
    destruct (query_ip d s) as [rd0|] eqn:Hd0.
    + pose proof (extends_query_Some _ _ _ _ He Hd0) as Hd1.
      by assert (rd0 = rd) as -> by congruence.
    + apply query_transaction_no_target; [done|].
      by apply (extends_query_new _ _ _ _ He Hd0).
  - apply query_transaction_no_sender; [done|].
    by apply (extends_query_new _ _ _ _ He Hc0).
Qed.

(** Recording [n] occurrences of the pair [(a, b)], once both addresses have
    their entities. *)
Lemma record_pair s s' a b ra rb n :
  db_wf s -> extends s s' ->
  query_ip a s' = Some ra -> query_ip b s' = Some rb ->
  db_wf (upsert_transaction (IP.id ra) (IP.id rb) n s') /\
  count_of a b (upsert_transaction (IP.id ra) (IP.id rb) n s') =
    Some (from_option id 0%Z (count_of a b s) + n)%Z /\
  (forall c d, (c, d) <> (a, b) ->
     transaction_of c d (upsert_transaction (IP.id ra) (IP.id rb) n s') =
     transaction_of c d s).
Proof.
  intros Hwf He Ha Hb.
  pose proof (extends_wf _ _ He Hwf) as Hwf'.
  destruct (query_ip_elem _ _ _ Ha) as [Hra Hva].
  destruct (query_ip_elem _ _ _ Hb) as [Hrb Hvb].
  split; [|split].
  - apply upsert_wf; [done| |]; apply list_elem_of_fmap; eauto.
  - unfold count_of, transaction_of. rewrite !upsert_query_ip, Ha, Hb.
    rewrite upsert_query_same. simpl.
    rewrite (extends_transaction_of s s' a b ra rb) by done.
    unfold transaction_of. by destruct (query_ip a s), (query_ip b s); try destruct (query_transaction _ _ s).
  - intros c d Hne. unfold transaction_of at 1. rewrite !upsert_query_ip.
    destruct (query_ip c s') as [rc|] eqn:Hc.
    + destruct (query_ip d s') as [rd|] eqn:Hd.
      * destruct (query_ip_elem _ _ _ Hc) as [Hrc Hvc].
        destruct (query_ip_elem _ _ _ Hd) as [Hrd Hvd].
        rewrite upsert_query_other.
        -- by apply extends_transaction_of.
        -- intros [= H1 H2]. apply Hne.
           apply (same_key_same_row s') in H1; [|apply Hwf'|done|done].
           apply (same_key_same_row s') in H2; [|apply Hwf'|done|done].
           congruence.
      * apply (extends_query_None _ _ _ He) in Hd. unfold transaction_of.
        rewrite Hd. by destruct (query_ip c s).
    + apply (extends_query_None _ _ _ He) in Hc. unfold transaction_of.
      by rewrite Hc.
Qed.

Lemma handle_packet_db resolve active interface w a b :
  exists ra rb s',
    extends (db w) s' /\ query_ip a s' = Some ra /\ query_ip b s' = Some rb /\
    db (handle_packet resolve active interface w (a, b)) =
      upsert_transaction (IP.id ra) (IP.id rb) 1 s'.
Proof.
  unfold handle_packet. simpl.
  destruct (get_or_create_ip a resolve None None false w) as [sender w1] eqn:H1.
  destruct (get_or_create_ip b resolve None interface active w1) as [target w2] eqn:H2.
  exists sender, target, (db w2).
  pose proof (get_or_create_ip_extends _ _ _ _ _ _ _ _ H1) as E1.
  pose proof (get_or_create_ip_extends _ _ _ _ _ _ _ _ H2) as E2.
  split; [by eapply extends_trans|]. split; [|split].
  - apply (extends_query_Some _ _ _ _ E2).
    by apply get_or_create_ip_query in H1 as [? _].
  - by apply get_or_create_ip_query in H2 as [? _].
  - unfold upsert_transaction. by destruct (query_transaction _ _ (db w2)).
Qed.

Lemma import_transaction_db isess w t ts tt :
  ip_by_id (Transaction.sender_ip_id t) isess = Some ts ->
  ip_by_id (Transaction.target_ip_id t) isess = Some tt ->
  exists w' ra rb s',
    import_transaction isess w t = Ok w' /\ net w' = net w /\
    extends (db w) s' /\
    query_ip (IP.value ts) s' = Some ra /\ query_ip (IP.value tt) s' = Some rb /\
    db w' = upsert_transaction (IP.id ra) (IP.id rb) (Transaction.count t) s'.
Proof.
  intros Hs Ht. unfold import_transaction. rewrite Hs, Ht. simpl.
  destruct (get_or_create_ip (IP.value ts) false _ None false w) as [sender w1] eqn:H1.
  destruct (get_or_create_ip (IP.value tt) false _ None false w1) as [target w2] eqn:H2.
  pose proof (get_or_create_ip_extends _ _ _ _ _ _ _ _ H1) as E1.
  pose proof (get_or_create_ip_extends _ _ _ _ _ _ _ _ H2) as E2.
  assert (net w2 = net w) as Hnet.
  { apply get_or_create_ip_cases in H1 as [[_ ->]|[_ (ps1 & cs1 & Hc1 & ->)]];
      apply get_or_create_ip_cases in H2 as [[_ ->]|[_ (ps2 & cs2 & Hc2 & ->)]];
      unfold created in *; simpl in *;
      repeat case_match; simplify_eq; simpl; by rewrite ?app_nil_r. }
  exists (mkWorld (upsert_transaction (IP.id sender) (IP.id target)
                     (Transaction.count t) (db w2)) (net w2)),
    sender, target, (db w2).
  split; [unfold upsert_transaction; by destruct (query_transaction _ _ (db w2))|].
  split; [done|].
  split; [by eapply extends_trans|]. split; [|split; [|done]].
  - apply (extends_query_Some _ _ _ _ E2).
    by apply get_or_create_ip_query in H1 as [? _].
  - by apply get_or_create_ip_query in H2 as [? _].
Qed.

Lemma query_transaction_keys sid tid s t :
  query_transaction sid tid s = Some t ->
  Transaction.sender_ip_id t = sid /\ Transaction.target_ip_id t = tid.
Proof.
  intros [_ H]%find_Some_elem.
  apply andb_true_iff in H as [H1 H2].
  split; by eapply bool_decide_eq_true.
Qed.

(** Two different pairs of addresses never share a transaction. *)
Lemma transaction_of_distinct s a b c d t1 t2 :
  db_wf s -> (c, d) <> (a, b) ->
  transaction_of c d s = Some t1 -> transaction_of a b s = Some t2 ->
  (Transaction.sender_ip_id t1, Transaction.target_ip_id t1) <>
  (Transaction.sender_ip_id t2, Transaction.target_ip_id t2).
Proof.
  intros [Hnd _] Hne. unfold transaction_of.
  destruct (query_ip c s) as [rc|] eqn:Hc; [|discriminate].
  destruct (query_ip d s) as [rd|] eqn:Hd; [|discriminate].
  destruct (query_ip a s) as [ra|] eqn:Ha; [|discriminate].
  destruct (query_ip b s) as [rb|] eqn:Hb; [|discriminate].
  intros [K1 K2]%query_transaction_keys [K3 K4]%query_transaction_keys [= H1 H2].
  rewrite K1, K3 in H1. rewrite K2, K4 in H2.
  apply query_ip_elem in Hc as [? ?], Hd as [? ?], Ha as [? ?], Hb as [? ?].
  apply (same_key_same_row s) in H1; [|done..].
  apply (same_key_same_row s) in H2; [|done..].
  apply Hne. congruence.
Qed.

Lemma handle_packets_replicate resolve active interface a b N :
  forall w, db_wf (db w) ->
    let w' := fold_left (handle_packet resolve active interface) (replicate N (a, b)) w in
    db_wf (db w') /\
    count_of a b (db w') =
      match N with
      | 0 => count_of a b (db w)
      | S _ => Some (from_option id 0%Z (count_of a b (db w)) + Z.of_nat N)%Z
      end /\
    (forall c d, (c, d) <> (a, b) ->
       transaction_of c d (db w') = transaction_of c d (db w)).
Proof.
  induction N as [|N IH]; intros w Hwf; [done|].
  cbn [replicate fold_left].
  destruct (handle_packet_db resolve active interface w a b)
    as (ra & rb & s' & He & Ha & Hb & Hdb).
  destruct (record_pair _ _ _ _ _ _ 1%Z Hwf He Ha Hb) as (Hwf1 & Hc1 & Hf1).
  rewrite <- Hdb in Hwf1, Hc1, Hf1.
  destruct (IH _ Hwf1) as (Hwf' & Hc' & Hf').
  split; [done|]. split.
  - rewrite Hc'. destruct N; rewrite Hc1; simpl; f_equal; lia.
  - intros c d Hne. rewrite Hf' by done. by apply Hf1.
Qed.

Lemma unpack_replicate arp N :
  mapM unpack_packet (replicate N (mkPacket (Some arp))) =
    Ok (replicate N (ARP.psrc arp, ARP.pdst arp)).
Proof. induction N as [|N IH]; simpl; [done|]. by rewrite IH. Qed.

(** C1: on a session whose database is intact, and unless an active probe is
    asked without an interface, [handle_packets] given [N] identical events
    [(A, B)] succeeds; the transaction of [(A, B)], absent before, then has
    count [N] (count 1 for one event), and one that had count [c] has
    [c + N] (one more for each event); the transactions of all other ordered
    pairs are what they were, and no other pair shares the row of
    [(A, B)]. *)
Theorem handle_packets_count resolve active interface arp N w :
  db_wf (db w) ->
  active && negb (truthy interface) = false ->
  exists w',
    handle_packets (replicate N (mkPacket (Some arp))) resolve active interface w = Ok w' /\
    db_wf (db w') /\
    (N = 0 -> w' = w) /\
    (0 < N -> count_of (ARP.psrc arp) (ARP.pdst arp) (db w) = None ->
       count_of (ARP.psrc arp) (ARP.pdst arp) (db w') = Some (Z.of_nat N)) /\
    (forall c, count_of (ARP.psrc arp) (ARP.pdst arp) (db w) = Some c ->
       count_of (ARP.psrc arp) (ARP.pdst arp) (db w') = Some (c + Z.of_nat N)%Z) /\
    (forall C D, (C, D) <> (ARP.psrc arp, ARP.pdst arp) ->
       transaction_of C D (db w') = transaction_of C D (db w)) /\
    (forall C D t1 t2, (C, D) <> (ARP.psrc arp, ARP.pdst arp) ->
       transaction_of C D (db w') = Some t1 ->
       transaction_of (ARP.psrc arp) (ARP.pdst arp) (db w') = Some t2 ->
       (Transaction.sender_ip_id t1, Transaction.target_ip_id t1) <>
       (Transaction.sender_ip_id t2, Transaction.target_ip_id t2)).
Proof.
  intros Hwf Hcfg. unfold handle_packets.
  rewrite unpack_replicate. simpl. rewrite Hcfg.
  eexists. split; [reflexivity|].
  destruct (handle_packets_replicate resolve active interface
              (ARP.psrc arp) (ARP.pdst arp) N w Hwf) as (Hwf' & Hc & Hf).
  split; [done|]. split; [by intros ->|]. split; [|split; [|split]].
  - intros HN Hnone. rewrite Hc, Hnone. destruct N; [lia|]. simpl. f_equal.
  - intros c Hsome. rewrite Hc, Hsome. destruct N; simpl; f_equal; lia.
  - done.
  - intros C D t1 t2 Hne. by apply transaction_of_distinct.
Qed.

(** ** Merge *)

(** C3 (amended): importing a source transaction adds its count to the
    destination transaction of the same pair of address values, and creates
    that transaction with the source count when the destination has none,
    leaving the other pairs alone; merging [{(A,B):2}] into [{(A,B):3}] gives
    count 5, and merging it a second time gives 7. *)
Theorem merge_adds_counts isess w t ts tt :
  db_wf (db w) ->
  ip_by_id (Transaction.sender_ip_id t) isess = Some ts ->
  ip_by_id (Transaction.target_ip_id t) isess = Some tt ->
  (exists w',
     import_transaction isess w t = Ok w' /\
     db_wf (db w') /\
     (count_of (IP.value ts) (IP.value tt) (db w) = None ->
        count_of (IP.value ts) (IP.value tt) (db w') = Some (Transaction.count t)) /\
     (forall c, count_of (IP.value ts) (IP.value tt) (db w) = Some c ->
        count_of (IP.value ts) (IP.value tt) (db w') = Some (c + Transaction.count t)%Z) /\
     (forall C D, (C, D) <> (IP.value ts, IP.value tt) ->
        transaction_of C D (db w') = transaction_of C D (db w))) /\
  (let once := fst (merge (Example.ledger_AB 2) (mkWorld (Example.ledger_AB 3) [])) in
   let twice := fst (merge (Example.ledger_AB 2) once) in
   count_of "A" "B" (db once) = Some 5%Z /\
   count_of "A" "B" (db twice) = Some 7%Z).
Proof.
  intros Hwf Hs Ht. split; [|by vm_compute].
  destruct (import_transaction_db isess w t ts tt Hs Ht)
    as (w' & ra & rb & s' & Hi & _ & He & Ha & Hb & Hdb).
  destruct (record_pair _ _ _ _ _ _ (Transaction.count t) Hwf He Ha Hb)
    as (Hwf' & Hc & Hf).
  rewrite <- Hdb in Hwf', Hc, Hf.
  exists w'. split; [done|]. split; [done|]. split; [|split; [|done]].
  - intros Hnone. rewrite Hc, Hnone. simpl. f_equal.
  - intros c Hsome. by rewrite Hc, Hsome.
Qed.

(** ** Report *)

Lemma foldM_snoc {A S} (f : S -> A -> result S) l a s :
  foldM f (l ++ [a]) s = do s' <- foldM f l s; f s' a.
Proof.
  revert s. induction l as [|b l IH]; intros s; simpl.
  - by destruct (f s a).
  - destruct (f s b); simpl; [apply IH|done].
Qed.

Lemma mapM_snoc {A B} (f : A -> result B) l a :
  mapM f (l ++ [a]) = do bs <- mapM f l; do b <- f a; Ok (bs ++ [b]).
Proof.
  induction l as [|b l IH]; simpl.
  - by destruct (f a).
  - destruct (f b); simpl; [|done]. rewrite IH.
    destruct (mapM f l); simpl; [|done]. by destruct (f a).
Qed.

Lemma report_transaction_by_row s sender_lists target_lists color_profile
    resolve active rowdict t :
  report_transaction s sender_lists target_lists color_profile resolve active rowdict t =
    do x <- load_transaction s t;
    Ok (if listed sender_lists target_lists x then
          if rowdict_mem (sender_of x) rowdict
          then rowdict_append (sender_of x)
                 (make_row s color_profile resolve active false x) rowdict
          else rowdict ++ [(sender_of x,
                            [make_row s color_profile resolve active true x])]
        else rowdict).
Proof.
  unfold report_transaction, load_transaction, listed, make_row, sender_of.
  destruct (ip_by_id (Transaction.sender_ip_id t) s) as [ts|]; simpl; [|done].
  destruct (ip_by_id (Transaction.target_ip_id t) s) as [tt|]; simpl; [|done].
  destruct (rejects sender_lists (IP.value ts)); simpl; [done|].
  destruct (rejects target_lists (IP.value tt)); simpl; [done|].
  by destruct (rowdict_mem (IP.value ts) rowdict), active, resolve.
Qed.

Lemma elem_of_first_appearances k l : k ∈ first_appearances l <-> k ∈ l.
Proof.
  induction l as [|x l IH]; simpl; [done|].
  rewrite !elem_of_cons, list_elem_of_In, filter_In, <- list_elem_of_In, IH.
  rewrite negb_true_iff, bool_decide_eq_false.
  destruct (decide (k = x)) as [->|Hne].
  - split; intros _; by left.
  - split.
    + intros [?|[? _]]; [done|by right].
    + intros [?|?]; [done|by right].
Qed.

Lemma first_appearances_snoc l k :
  first_appearances (l ++ [k]) =
    if bool_decide (k ∈ l) then first_appearances l else first_appearances l ++ [k].
Proof.
  induction l as [|x l IH]; cbn [app first_appearances].
  - case_bool_decide as H; [by apply elem_of_nil in H|done].
  - rewrite IH. destruct (decide (k ∈ l)) as [Hin|Hin].
    + rewrite !bool_decide_eq_true_2; [done| |done]. by right.
    + rewrite (bool_decide_eq_false_2 _ Hin), List.filter_app. simpl.
      destruct (decide (k = x)) as [->|Hne].
      * rewrite !bool_decide_eq_true_2 by (done || by left). simpl.
        by rewrite app_nil_r.
      * rewrite (bool_decide_eq_false_2 (k = x)) by done. simpl.
        rewrite bool_decide_eq_false_2; [done|].
        intros [?|?]%elem_of_cons; done.
Qed.

Lemma rowdict_mem_grouped s color_profile resolve active xs k :
  rowdict_mem k (grouped_report s color_profile resolve active xs) =
    bool_decide (k ∈ map sender_of xs).
Proof.
  unfold rowdict_mem, grouped_report.
  apply eq_true_iff_eq. rewrite existsb_exists, bool_decide_eq_true.
  rewrite <- elem_of_first_appearances. split.
  - intros (kv & Hin & Hk). apply in_map_iff in Hin as (k' & <- & Hin).
    apply bool_decide_eq_true in Hk. simpl in Hk. subst k'.
    by apply list_elem_of_In.
  - intros Hin. exists (group_of s color_profile resolve active xs k). split.
    + apply in_map. by apply list_elem_of_In.
    + by apply bool_decide_eq_true.
Qed.

Lemma filter_sender_snoc_ne xs x k :
  sender_of x <> k ->
  List.filter (fun y => bool_decide (sender_of y = k)) (xs ++ [x]) =
  List.filter (fun y => bool_decide (sender_of y = k)) xs.
Proof.
  intros Hne. rewrite List.filter_app. simpl.
  rewrite bool_decide_eq_false_2 by done. by rewrite app_nil_r.
Qed.

Lemma filter_sender_snoc_eq xs x :
  List.filter (fun y => bool_decide (sender_of y = sender_of x)) (xs ++ [x]) =
  List.filter (fun y => bool_decide (sender_of y = sender_of x)) xs ++ [x].
Proof.
  rewrite List.filter_app. simpl. by rewrite bool_decide_eq_true_2.
Qed.

Lemma filter_sender_nil xs k :
  k ∉ map sender_of xs ->
  List.filter (fun y => bool_decide (sender_of y = k)) xs = [].
Proof.
  intros Hk. induction xs as [|y xs IH]; simpl; [done|].
  rewrite bool_decide_eq_false_2.
  - apply IH. intros H. apply Hk. simpl. by right.
  - intros H. apply Hk. simpl. rewrite H. by left.
Qed.

Lemma filter_sender_cons xs k :
  k ∈ map sender_of xs ->
  exists y ys, List.filter (fun y => bool_decide (sender_of y = k)) xs = y :: ys.
Proof.
  intros Hk. apply list_elem_of_fmap in Hk as (y & -> & Hy).
  destruct (List.filter _ xs) as [|z zs] eqn:Hf; [|eauto].
  exfalso. assert (In y []) as []. rewrite <- Hf.
  apply filter_In. split; [by apply list_elem_of_In|by apply bool_decide_eq_true].
Qed.

(** The group of senders met before is extended, a new sender opens a group
    at the end. *)
Lemma grouped_report_snoc s color_profile resolve active xs x :
  grouped_report s color_profile resolve active (xs ++ [x]) =
    if bool_decide (sender_of x ∈ map sender_of xs)
    then rowdict_append (sender_of x)
           (make_row s color_profile resolve active false x)
           (grouped_report s color_profile resolve active xs)
    else grouped_report s color_profile resolve active xs
           ++ [(sender_of x, [make_row s color_profile resolve active true x])].
Proof.
  unfold grouped_report. rewrite map_app. simpl. rewrite first_appearances_snoc.
  case_bool_decide as Hin.
  - unfold rowdict_append. rewrite map_map. apply map_ext. intros k.
    unfold group_of at 1 3. simpl. case_bool_decide as Hk.
    + subst k. rewrite filter_sender_snoc_eq.
      destruct (filter_sender_cons xs _ Hin) as (y & ys & ->). simpl.
      by rewrite map_app.
    + unfold group_of. rewrite filter_sender_snoc_ne by done. done.
  - rewrite map_app. simpl. f_equal.
    + apply map_ext_in. intros k Hk%list_elem_of_In.
      rewrite elem_of_first_appearances in Hk.
      unfold group_of. rewrite filter_sender_snoc_ne; [done|].
      intros Heq. apply Hin. by rewrite Heq.
    + unfold group_of. rewrite filter_sender_snoc_eq, filter_sender_nil by done.
      done.
Qed.

Lemma report_loop_by_groups s sender_lists target_lists color_profile resolve active l :
  foldM (report_transaction s sender_lists target_lists color_profile resolve active) l [] =
    do xs <- mapM (load_transaction s) l;
    Ok (grouped_report s color_profile resolve active
          (List.filter (listed sender_lists target_lists) xs)).
Proof.
  induction l as [|t l IH] using rev_ind; [done|].
  rewrite foldM_snoc, mapM_snoc, IH.
  destruct (mapM (load_transaction s) l) as [xs|]; simpl; [|done].
  rewrite report_transaction_by_row.
  destruct (load_transaction s t) as [x|]; simpl; [|done].
  rewrite List.filter_app. simpl.
  destruct (listed sender_lists target_lists x).
  - by rewrite grouped_report_snoc, rowdict_mem_grouped.
  - by rewrite app_nil_r.
Qed.

Lemma get_output_by_groups s sender_lists target_lists color_profile resolve active :
  get_output s sender_lists target_lists color_profile resolve active =
  report_by_groups s sender_lists target_lists color_profile resolve active.
Proof.
  unfold get_output, report_by_groups.
  destruct (order_by_desc_count (transactions s)) as [|t l]; [done|].
  rewrite report_loop_by_groups.
  by destruct (mapM (load_transaction s) (t :: l)).
Qed.

#[local] Instance count_ge_transitive : Transitive count_ge.
Proof. intros x y z. unfold count_ge. lia. Qed.

#[local] Instance count_ge_total : Total count_ge.
Proof. intros x y. unfold count_ge. lia. Qed.

Lemma StronglySorted_filter {A} (R : relation A) (f : A -> bool) l :
  StronglySorted R l -> StronglySorted R (List.filter f l).
Proof.
  induction 1 as [|x l Hs IH Hx]; simpl; [constructor|].
  destruct (f x); [|done]. constructor; [done|].
  apply Forall_forall. intros y Hy%list_elem_of_In%filter_In.
  rewrite Forall_forall in Hx. apply Hx, list_elem_of_In, Hy.
Qed.

Lemma StronglySorted_map_inv {A B} (R : relation B) (f : A -> B) l :
  StronglySorted R (map f l) -> StronglySorted (fun x y => R (f x) (f y)) l.
Proof.
  induction l as [|x l IH]; simpl; [constructor|].
  intros [Hs Hx]%StronglySorted_inv. constructor; [by apply IH|].
  apply Forall_forall. intros y Hy. rewrite Forall_forall in Hx. apply Hx.
  apply list_elem_of_fmap. eauto.
Qed.

Lemma mapM_load_transactions s l xs :
  mapM (load_transaction s) l = Ok xs -> map the_transaction xs = l.
Proof.
  revert xs. induction l as [|t l IH]; simpl; intros xs.
  - by intros [= <-].
  - unfold load_transaction at 1.
    destruct (ip_by_id (Transaction.sender_ip_id t) s); simpl; [|done].
    destruct (ip_by_id (Transaction.target_ip_id t) s); simpl; [|done].
    destruct (mapM (load_transaction s) l) as [xs'|]; simpl; [|done].
    intros [= <-]. simpl. by rewrite IH.
Qed.


(** C4 (amended): the report is made of one group per sender, holding the
    rows of all transactions of that sender and not only of consecutive
    ones; the groups come in the order in which their senders first appear in
    the transactions taken by descending count, the rows of a group are in
    that descending order, and only the first row of a group carries the
    sender (and its PTR name), the others a blank; with no colour profile
    the rows of the table are these rows.  Ingesting [(A,B),(A,B),(A,C)]
    gives the single group of A with the rows of B, count 2, and of C,
    count 1. *)
Theorem report_grouped_by_sender s sender_lists target_lists color_profile resolve active :
  get_output s sender_lists target_lists color_profile resolve active =
    report_by_groups s sender_lists target_lists color_profile resolve active /\
  StronglySorted count_ge (order_by_desc_count (transactions s)) /\
  order_by_desc_count (transactions s) ≡ₚ transactions s /\
  (forall xs sender,
     mapM (load_transaction s) (order_by_desc_count (transactions s)) = Ok xs ->
     StronglySorted (fun x y => count_ge (the_transaction x) (the_transaction y))
       (List.filter (fun x => bool_decide (sender_of x = sender))
          (List.filter (listed sender_lists target_lists) xs))) /\
  (forall rowdict : Rowdict, restructure None 0 rowdict = concat (map snd rowdict)) /\
  (do w <- handle_packets [Example.who_has "A" "B"; Example.who_has "A" "B";
                           Example.who_has "A" "C"] false false None Example.fresh;
   get_output (db w) None None None false false) =
    Ok (Tabulate [["A"; "B"; "2"]; [""; "C"; "1"]] ["Sender"; "Target"; "ARP#"]).
Proof.
  split; [apply get_output_by_groups|].
  split; [apply StronglySorted_merge_sort; apply _|].
  split; [apply merge_sort_Permutation|].
  split; [|split].
  - intros xs sender Hxs. do 2 apply StronglySorted_filter.
    apply StronglySorted_map_inv.
    rewrite (mapM_load_transactions _ _ _ Hxs).
    apply StronglySorted_merge_sort; apply _.
  - generalize 0. intros n rowdict. revert n.
    induction rowdict as [|[k irows] rd IH]; intros n; simpl; [done|].
    by rewrite IH.
  - by vm_compute.
Qed.

Lemma restructure_styled color_profile counter rowdict :
  Forall2 (styled_as color_profile) (concat (map snd rowdict))
          (restructure color_profile counter rowdict).
Proof.
  revert counter. induction rowdict as [|[k irows] rd IH]; intros counter; simpl.
  - constructor.
  - apply Forall2_app; [|apply IH].
    destruct color_profile as [cp|]; simpl.
    + destruct (Nat.odd (S counter)); apply Forall2_fmap_r, Forall_Forall2_diag,
        Forall_forall; intros row _; eexists; reflexivity.
    + apply Forall_Forall2_diag, Forall_forall. by intros row _.
Qed.

(** Every row of a group is the row of one of the transactions given. *)
Lemma grouped_report_rows s color_profile resolve active xs row :
  row ∈ concat (map snd (grouped_report s color_profile resolve active xs)) ->
  exists x labelled,
    x ∈ xs /\ row = make_row s color_profile resolve active labelled x.
Proof.
  unfold grouped_report. rewrite map_map.
  intros Hrow. apply list_elem_of_In, in_concat in Hrow as (irows & Hirows & Hrow).
  apply list_elem_of_In in Hrow.
  apply in_map_iff in Hirows as (k & <- & _). simpl in Hrow.
  destruct (List.filter _ xs) as [|y ys] eqn:Hf; [inversion Hrow|].
  assert (forall z, z ∈ y :: ys -> z ∈ xs) as Hsub.
  { intros z Hz. rewrite <- Hf in Hz.
    apply list_elem_of_In, filter_In in Hz as [Hz _]. by apply list_elem_of_In. }
  apply elem_of_cons in Hrow as [->|Hrow].
  - exists y, true. split; [apply Hsub; by left|done].
  - apply list_elem_of_fmap in Hrow as (z & -> & Hz).
    exists z, false. split; [apply Hsub; by right|done].
Qed.





(** C10: the fixed message is returned exactly when the ledger has no
    transaction; when it has some, each with its two addresses in the table,
    and the lists given to the report exclude every one of them, what is
    returned is a table with its headers and no row. *)
Theorem no_records_iff_empty s sender_lists target_lists color_profile resolve active :
  (forall text,
     get_output s sender_lists target_lists color_profile resolve active =
       Ok (Message text) <->
     transactions s = [] /\ text = no_records) /\
  (transactions s <> [] ->
   (forall t, t ∈ transactions s ->
      exists t_sender t_target,
        ip_by_id (Transaction.sender_ip_id t) s = Some t_sender /\
        ip_by_id (Transaction.target_ip_id t) s = Some t_target /\
        (rejects sender_lists (IP.value t_sender) = true \/
         rejects target_lists (IP.value t_target) = true)) ->
   get_output s sender_lists target_lists color_profile resolve active =
     Ok (Tabulate [] (build_headers color_profile resolve active))).
Proof.
  assert (order_by_desc_count (transactions s) = [] <-> transactions s = []) as Hnil.
  { unfold order_by_desc_count. split; intros H.
    - apply Permutation_nil_r. by rewrite <- H, merge_sort_Permutation.
    - by rewrite H. }
  split.
  - intros text. unfold get_output.
    destruct (order_by_desc_count (transactions s)) as [|t0 l] eqn:Hord.
    + split; [intros [= <-]; by split; [apply Hnil|]|by intros [_ ->]].
    + split.
      * match goal with
        | |- context [foldM ?f ?l ?a] => by destruct (foldM f l a)
        end.
      * intros [H _]. destruct Hnil as [_ Hn]. by specialize (Hn H).
  - intros Hne Hall. unfold get_output.
    destruct (order_by_desc_count (transactions s)) as [|t0 l] eqn:Hord.
    { destruct Hnil as [Hn _]. by specialize (Hn eq_refl). }
    assert (forall t, t ∈ t0 :: l -> t ∈ transactions s) as Hin.
    { intros t Ht. rewrite <- Hord in Ht. unfold order_by_desc_count in Ht.
      by rewrite merge_sort_Permutation in Ht. }
    assert (foldM (report_transaction s sender_lists target_lists color_profile
                     resolve active) (t0 :: l) [] = Ok []) as ->; [|done].
    revert Hin. generalize (t0 :: l). intros l'.
    induction l' as [|t l' IH]; intros Hin; [done|].
    cbn [foldM]. unfold report_transaction at 1.
    destruct (Hall t) as (rs & rt & -> & -> & Hrej); [apply Hin; by left|].
    simpl. destruct (rejects sender_lists (IP.value rs)); simpl.
    + apply IH. intros t' Ht'. apply Hin. by right.
    + destruct Hrej as [?|Hrej]; [done|]. rewrite Hrej.
      apply IH. intros t' Ht'. apply Hin. by right.
Qed.

(** ** Filter *)

Lemma get_or_create_ip_unknown x ip resolve ptr interface active w :
  ip <> x -> ~ knows (db w) x ->
  ~ knows (db (snd (get_or_create_ip ip resolve ptr interface active w))) x.
Proof.
  intros Hne Hw.
  destruct (get_or_create_ip ip resolve ptr interface active w) as [r w'] eqn:Hg.
  apply get_or_create_ip_cases in Hg as [[_ ->]|[Hq (ps & cs & Hc & ->)]]; [done|].
  unfold knows in *. simpl. rewrite map_app. simpl.
  apply created_row in Hc as [_ Hv].
  intros [?|Hin%list_elem_of_singleton]%elem_of_app; [done|congruence].
Qed.

Lemma handle_packet_unknown x resolve active interface w packet :
  fst packet <> x -> snd packet <> x -> ~ knows (db w) x ->
  ~ knows (db (handle_packet resolve active interface w packet)) x.
Proof.
  intros H1 H2 Hw. unfold handle_packet.
  pose proof (get_or_create_ip_unknown x (fst packet) resolve None None false w H1 Hw) as K1.
  destruct (get_or_create_ip (fst packet) resolve None None false w) as [sender w1].
  pose proof (get_or_create_ip_unknown x (snd packet) resolve None interface active w1
                H2 K1) as K2.
  destruct (get_or_create_ip (snd packet) resolve None interface active w1) as [target w2].
  simpl in *. by destruct (query_transaction _ _ _).
Qed.

Lemma handle_packets_unknown x packets resolve active interface w w' :
  (forall p, p ∈ packets -> ~ names p x) ->
  handle_packets packets resolve active interface w = Ok w' ->
  ~ knows (db w) x -> ~ knows (db w') x.
Proof.
  unfold handle_packets. intros Hp.
  destruct (mapM unpack_packet packets) as [l|] eqn:Hl; simpl; [|done].
  destruct (active && negb (truthy interface)); [done|].
  intros [= <-].
  assert (forall q, q ∈ l -> fst q <> x /\ snd q <> x) as Hq.
  { revert l Hl. induction packets as [|p packets IH]; simpl; intros l.
    - intros [= <-] q Hq. inversion Hq.
    - unfold unpack_packet at 1.
      destruct (getlayer_ARP p) as [arp|] eqn:Harp; simpl; [|done].
      destruct (mapM unpack_packet packets) as [l'|]; simpl; [|done].
      intros [= <-] q [->|Hq]%elem_of_cons.
      + assert (~ names p x) as Hn by (apply Hp; by left).
        unfold names in Hn. rewrite Harp in Hn. simpl.
        split; intros Heq; apply Hn; [by left|by right].
      + eapply IH; [|done..]. intros p' Hp'. apply Hp. by right. }
  clear Hl. revert w. induction l as [|q l IH]; simpl; intros w Hw; [done|].
  apply IH.
  - intros q' Hq'. apply Hq. by right.
  - destruct (Hq q) as [? ?]; [by left|]. by apply handle_packet_unknown.
Qed.

(** What the filter lets through does not name an address whose events it
    all rejects. *)
Lemma filtered_not_named x sender_lists target_lists (pkts : list Packet) p :
  (forall q, q ∈ pkts -> names q x -> filter_packet q sender_lists target_lists = None) ->
  p ∈ List.filter
        (fun q => bool_decide (is_Some (filter_packet q sender_lists target_lists))) pkts ->
  ~ names p x.
Proof.
  intros Hrej [Hin Hok]%list_elem_of_In%filter_In Hn.
  apply bool_decide_eq_true in Hok as [v Hv].
  rewrite (Hrej p) in Hv; [done|by apply list_elem_of_In|done].
Qed.

Lemma unknown_unreferred s x :
  ~ knows s x -> forall t, t ∈ transactions s -> ~ refers_to s t x.
Proof.
  intros Hk t _ (r & Hr & Hv & _). apply Hk. unfold knows.
  rewrite <- Hv. apply list_elem_of_fmap. eauto.
Qed.

Lemma create_db_unknown x dbfile (fs : gmap string File) d :
  (forall d0, fs !! dbfile = Some (SqliteFile d0) -> ~ knows d0 x) ->
  create_db dbfile false fs !! dbfile = Some (SqliteFile d) -> ~ knows d x.
Proof.
  intros Hfs. unfold create_db. rewrite andb_false_r, orb_false_r.
  case_bool_decide as Hex; simpl.
  - apply Hfs.
  - rewrite lookup_insert_eq. intros [= <-]. unfold knows. simpl. by intros ?%elem_of_nil.
Qed.

Lemma load_lookup dbfile (fs : gmap string File) d :
  load dbfile fs = Ok d <-> fs !! dbfile = Some (SqliteFile d).
Proof.
  unfold load. destruct (fs !! dbfile) as [[d0|]|]; split; intros H; by simplify_eq.
Qed.

(** C8 (amended): in live capture, when the filter rejects every arriving
    event that names an address [x] the ledger has no entity for, the ledger
    after the capture has no entity for [x] and no transaction that refers
    to one; the import of a capture file calls the filter without the lists,
    and keeps out of the ledger, in the same way, the addresses named only by
    packets that are not ARP requests. *)
Theorem rejected_addresses_stay_out x sender_lists target_lists
    interface redraw_frequency dbfile resolve color_profile active
    pfile (arriving : list Packet) (fs : gmap string File) calls :
  (forall d, fs !! dbfile = Some (SqliteFile d) -> ~ knows d x) ->
  ((forall p, p ∈ arriving -> names p x ->
      filter_packet p sender_lists target_lists = None) ->
   forall d',
     (async_sniff interface redraw_frequency sender_lists target_lists dbfile
        resolve color_profile active arriving fs calls).1.1 !! dbfile
       = Some (SqliteFile d') ->
     ~ knows d' x /\ forall t, t ∈ transactions d' -> ~ refers_to d' t x) /\
  (fs !! pfile = Some (PcapFile arriving) ->
   (forall p, p ∈ arriving -> names p x -> filter_packet p None None = None) ->
   forall d',
     (import_pcap dbfile (fs, calls) pfile).1.1 !! dbfile = Some (SqliteFile d') ->
     ~ knows d' x /\ forall t, t ∈ transactions d' -> ~ refers_to d' t x).
Proof.
  intros Hfs. split.
  - intros Hrej d' Hd'.
    assert (~ knows d' x) as Hk; [|split; [done|by apply unknown_unreferred]].
    revert Hd'. unfold async_sniff.
    pose proof (create_db_unknown x dbfile fs) as Hc.
    destruct (load dbfile (create_db dbfile false fs)) as [sess|] eqn:Hl; simpl;
      [|by apply Hc].
    apply load_lookup in Hl.
    destruct (if bool_decide (is_Some (fs !! dbfile)) then _ else _); simpl;
      [|by apply Hc].
    destruct (handle_packets _ resolve active interface _) as [w|] eqn:Hh; simpl;
      [|by apply Hc].
    unfold store. rewrite lookup_insert_eq. intros [= <-].
    eapply handle_packets_unknown; [|exact Hh|by apply Hc].
    intros p Hp. apply (filtered_not_named x sender_lists target_lists arriving); [done|].
    unfold do_sniff, sniff in Hp. destruct redraw_frequency; [done|].
    by apply subseteq_take in Hp.
  - intros Hpf Hrej d' Hd'.
    assert (~ knows d' x) as Hk; [|split; [done|by apply unknown_unreferred]].
    revert Hd'. unfold import_pcap, rdpcap. rewrite Hpf.
    destruct (load dbfile fs) as [outdb|] eqn:Hl; simpl; [|by apply Hfs].
    apply load_lookup in Hl.
    destruct (handle_packets _ false false None _) as [w|] eqn:Hh; simpl;
      [|by apply Hfs].
    unfold store. rewrite lookup_insert_eq. intros [= <-].
    eapply handle_packets_unknown; [|exact Hh|by apply Hfs].
    intros p Hp. by apply (filtered_not_named x None None arriving).
Qed.

(** ** What sessions keep of their database *)

Lemma handle_packet_wf resolve active interface w packet :
  db_wf (db w) -> db_wf (db (handle_packet resolve active interface w packet)).
Proof.
  intros Hwf. destruct packet as [a b].
  destruct (handle_packet_db resolve active interface w a b)
    as (ra & rb & s' & He & Ha & Hb & ->).
  by destruct (record_pair _ _ a b ra rb 1%Z Hwf He Ha Hb) as [? _].
Qed.

Lemma import_transaction_wf isess w t w' :
  import_transaction isess w t = Ok w' -> db_wf (db w) -> db_wf (db w').
Proof.
  intros Hi Hwf.
  destruct (ip_by_id (Transaction.sender_ip_id t) isess) as [rs|] eqn:Hs;
    [|unfold import_transaction in Hi; by rewrite Hs in Hi].
  destruct (ip_by_id (Transaction.target_ip_id t) isess) as [rt|] eqn:Ht;
    [|unfold import_transaction in Hi; by rewrite Hs, Ht in Hi].
  destruct (import_transaction_db isess w t rs rt Hs Ht)
    as (w1 & ra & rb & s' & Hi' & _ & He & Ha & Hb & Hdb).
  assert (w1 = w') as <- by congruence. rewrite Hdb.
  by destruct (record_pair _ _ (IP.value rs) (IP.value rt) ra rb
                 (Transaction.count t) Hwf He Ha Hb) as [? _].
Qed.

(** The integrity asked of the database by the statements on counts is kept
    by every call on a session. *)
Lemma run_ops_wf ops w : db_wf (db w) -> db_wf (db (run_ops ops w)).
Proof.
  unfold run_ops. revert w. induction ops as [|o ops IH]; simpl; intros w Hwf; [done|].
  apply IH. destruct o as [ip rs p i a|pk rs a i|isess]; simpl.
  - destruct (get_or_create_ip ip rs p i a w) as [r w'] eqn:Hg. simpl.
    eapply extends_wf; [|done]. by eapply get_or_create_ip_extends.
  - unfold handle_packets.
    destruct (mapM unpack_packet pk) as [l|]; simpl; [|done].
    destruct (a && negb (truthy i)); [done|].
    clear IH. revert w Hwf. induction l as [|q l IHl]; simpl; intros w Hwf; [done|].
    apply IHl. by apply handle_packet_wf.
  - unfold merge. clear IH. revert w Hwf.
    induction (transactions isess) as [|t l IHl]; simpl; intros w Hwf; [done|].
    unfold or_keep at 1.
    destruct (import_transaction isess w t) as [w1|e] eqn:Hi; simpl; [|done].
    apply IHl. by eapply import_transaction_wf.
Qed.

Lemma mac_address_kept :
  kept_by_get_or_create_ip
    (fun w => forall r, r ∈ ips (db w) -> IP.mac_address r <> Some "").
Proof.
  intros ip resolve ptr interface active w Hw.
  destruct (get_or_create_ip ip resolve ptr interface active w) as [r w'] eqn:Hg.
  apply get_or_create_ip_cases in Hg as [[_ ->]|[Hq (ps & cs & Hc & ->)]]; [done|].
  cbn [snd db ips].
  intros r0 [Hr0|Hr0%list_elem_of_singleton]%elem_of_app; [by apply Hw|subst r0].
  destruct (created_probe _ _ _ _ _ _ _ _ _ Hc) as (_ & Hoff & Hon).
  destruct active.
  - destruct Hon as (answer & _ & ->); [done|].
    destruct (truthy answer) eqn:Ht; [|done].
    apply truthy_Some in Ht as (m & -> & Hne). congruence.
  - by rewrite Hoff.
Qed.

(** The MAC addresses stored by a session are never the empty string. *)
Lemma run_ops_mac_address ops w :
  (forall r, r ∈ ips (db w) -> IP.mac_address r <> Some "") ->
  forall r, r ∈ ips (db (run_ops ops w)) -> IP.mac_address r <> Some "".
Proof.
  apply (run_ops_kept
           (fun w => forall r, r ∈ ips (db w) -> IP.mac_address r <> Some "")).
  - apply mac_address_kept.
  - intros w0 txs H. exact H.
Qed.

(** * Further properties *)

(** ** Batches of events *)

Lemma count_of_frame s s' a b :
  transaction_of a b s' = transaction_of a b s -> count_of a b s' = count_of a b s.
Proof. unfold count_of. by intros ->. Qed.

(** A loop whose every step records the weight of an event on the pair of
    the event leaves every pair with what it had plus the weights of its
    events. *)
Lemma fold_record_counts {E} (step : World -> E -> World) (good : E -> Prop)
    (key : E -> string * string) (weight : E -> Z) :
  (forall w e, good e -> db_wf (db w) ->
     exists ra rb s',
       extends (db w) s' /\
       query_ip (key e).1 s' = Some ra /\ query_ip (key e).2 s' = Some rb /\
       db (step w e) = upsert_transaction (IP.id ra) (IP.id rb) (weight e) s') ->
  forall l w, Forall good l -> db_wf (db w) ->
    db_wf (db (fold_left step l w)) /\
    forall a b,
      count_of a b (db (fold_left step l w)) =
        count_after (count_of a b (db w))
          (map weight (List.filter (fun e => bool_decide (key e = (a, b))) l)).
Proof.
  intros Hstep l. induction l as [|e l IH]; intros w Hgood Hwf; [done|].
  apply Forall_cons in Hgood as [He Hgood].
  destruct (Hstep w e He Hwf) as (ra & rb & s' & Hext & Ha & Hb & Hdb).
  destruct (record_pair _ _ _ _ _ _ (weight e) Hwf Hext Ha Hb) as (Hwf1 & Hc1 & Hf1).
  rewrite <- Hdb in Hwf1, Hc1, Hf1.
  cbn [fold_left]. destruct (IH (step w e) Hgood Hwf1) as [Hwf' Hc'].
  split; [done|]. intros a b. rewrite Hc'. cbn [List.filter].
  destruct (key e) as [k1 k2]. cbn [fst snd] in *.
  case_bool_decide as Hk.
  - injection Hk as <- <-. rewrite Hc1. cbn [map].
    destruct (map weight _) as [|z zs]; unfold count_after, Z_sum; simpl;
      f_equal; lia.
  - f_equal. apply count_of_frame, Hf1. congruence.
Qed.

Lemma handle_packet_records resolve active interface w (e : string * string) :
  True -> db_wf (db w) ->
  exists ra rb s',
    extends (db w) s' /\
    query_ip e.1 s' = Some ra /\ query_ip e.2 s' = Some rb /\
    db (handle_packet resolve active interface w e) =
      upsert_transaction (IP.id ra) (IP.id rb) 1 s'.
Proof. intros _ _. destruct e as [a b]. apply handle_packet_db. Qed.

Lemma Z_sum_ones {A} (l : list A) : Z_sum (map (fun _ => 1%Z) l) = Z.of_nat (length l).
Proof. induction l as [|x l IH]; unfold Z_sum in *; simpl; [done|]. rewrite IH. lia. Qed.

(** The counts after a batch, on the events the decorator unpacked. *)
Lemma handle_events_counts resolve active interface events w :
  db_wf (db w) ->
  db_wf (db (fold_left (handle_packet resolve active interface) events w)) /\
  forall a b,
    count_of a b (db (fold_left (handle_packet resolve active interface) events w)) =
      match occurrences a b events with
      | 0 => count_of a b (db w)
      | S _ as n => Some (from_option id 0%Z (count_of a b (db w)) + Z.of_nat n)%Z
      end.
Proof.
  intros Hwf.
  destruct (fold_record_counts (handle_packet resolve active interface)
              (fun _ => True) (fun e => e) (fun _ => 1%Z)
              (handle_packet_records resolve active interface)
              events w) as [Hwf' Hc]; [by apply Forall_true|done|].
  split; [done|]. intros a b. rewrite Hc. unfold occurrences.
  destruct (List.filter _ events) as [|e l]; [done|].
  unfold count_after. rewrite Z_sum_ones. done.
Qed.

(** X1: on an intact database and with a sound configuration,
    [handle_packets] given any batch succeeds and leaves every ordered pair
    of addresses with the count it had plus the number of events of that
    pair in the batch; a pair with no event keeps exactly what it had. *)
Theorem handle_packets_counts_events packets events resolve active interface w :
  db_wf (db w) ->
  mapM unpack_packet packets = Ok events ->
  active && negb (truthy interface) = false ->
  exists w',
    handle_packets packets resolve active interface w = Ok w' /\
    db_wf (db w') /\
    forall a b,
      count_of a b (db w') =
        match occurrences a b events with
        | 0 => count_of a b (db w)
        | S _ as n => Some (from_option id 0%Z (count_of a b (db w)) + Z.of_nat n)%Z
        end.
Proof.
  intros Hwf Hev Hcfg. unfold handle_packets. rewrite Hev. simpl. rewrite Hcfg.
  eexists. split; [reflexivity|]. by apply handle_events_counts.
Qed.

Lemma mapM_unpack_events packets events :
  mapM unpack_packet packets = Ok events ->
  events = map (fun p => from_option unpack_arp ("", "") (getlayer_ARP p)) packets.
Proof.
  revert events. induction packets as [|p packets IH]; simpl; intros events.
  - by intros [= <-].
  - unfold unpack_packet at 1. destruct (getlayer_ARP p) as [arp|]; simpl; [|done].
    destruct (mapM unpack_packet packets) as [l|]; simpl; [|done].
    intros [= <-]. simpl. by rewrite (IH l).
Qed.

Lemma mapM_unpack_Ok packets :
  Forall (fun p => is_Some (getlayer_ARP p)) packets <->
  exists events, mapM unpack_packet packets = Ok events.
Proof.
  induction packets as [|p packets IH]; simpl.
  - split; [by eexists|constructor].
  - unfold unpack_packet at 1. rewrite Forall_cons, IH.
    destruct (getlayer_ARP p) as [arp|]; simpl.
    + destruct (mapM unpack_packet packets) as [l|]; simpl.
      * split; [by eexists|]. intros _. split; [by eexists|by eexists].
      * split; [by intros [_ [? ?]]|by intros [? ?]].
    + split; [by intros [[? ?] _]|by intros [? ?]].
Qed.

Lemma occurrences_Permutation a b (l l' : list (string * string)) :
  l ≡ₚ l' -> occurrences a b l = occurrences a b l'.
Proof.
  unfold occurrences. induction 1 as [|x l l' _ IH|x y l|l l' l'' _ IH1 _ IH2]; simpl.
  - done.
  - destruct (bool_decide (x = (a, b))); simpl; by rewrite IH.
  - by destruct (bool_decide (x = (a, b))), (bool_decide (y = (a, b))).
  - by rewrite IH1.
Qed.

(** X2: the counts a batch leaves do not depend on the order of its events:
    a batch and any reordering of it succeed together and leave every pair
    with the same count. *)
Theorem handle_packets_order_free packets packets' resolve active interface w w1 :
  db_wf (db w) ->
  packets ≡ₚ packets' ->
  handle_packets packets resolve active interface w = Ok w1 ->
  exists w2,
    handle_packets packets' resolve active interface w = Ok w2 /\
    forall a b, count_of a b (db w2) = count_of a b (db w1).
Proof.
  intros Hwf Hperm. unfold handle_packets.
  destruct (mapM unpack_packet packets) as [events|] eqn:Hev; simpl; [|done].
  destruct (active && negb (truthy interface)) eqn:Hcfg; [done|].
  intros [= <-].
  assert (exists events', mapM unpack_packet packets' = Ok events') as [events' Hev'].
  { apply mapM_unpack_Ok. rewrite <- Hperm. apply mapM_unpack_Ok. eauto. }
  rewrite Hev'. simpl. eexists. split; [reflexivity|]. intros a b.
  destruct (handle_events_counts resolve active interface events w Hwf) as [_ ->].
  destruct (handle_events_counts resolve active interface events' w Hwf) as [_ ->].
  rewrite (occurrences_Permutation a b events' events); [done|].
  rewrite (mapM_unpack_events _ _ Hev), (mapM_unpack_events _ _ Hev').
  by apply fmap_Permutation.
Qed.

Lemma mapM_app {A B} (f : A -> result B) l1 l2 :
  mapM f (l1 ++ l2) = do b1 <- mapM f l1; do b2 <- mapM f l2; Ok (b1 ++ b2).
Proof.
  induction l1 as [|a l1 IH]; simpl.
  - by destruct (mapM f l2).
  - destruct (f a); simpl; [|done]. rewrite IH.
    destruct (mapM f l1); simpl; [|done]. by destruct (mapM f l2).
Qed.

Lemma handle_packets_parts packets1 packets2 resolve active interface w :
  active && negb (truthy interface) = false ->
  handle_packets (packets1 ++ packets2) resolve active interface w =
    do w1 <- handle_packets packets1 resolve active interface w;
    handle_packets packets2 resolve active interface w1.
Proof.
  intros Hcfg. unfold handle_packets. rewrite mapM_app, !Hcfg.
  destruct (mapM unpack_packet packets1) as [e1|]; simpl; [|done].
  destruct (mapM unpack_packet packets2) as [e2|]; simpl; [|done].
  by rewrite fold_left_app.
Qed.

(** X3: with a sound configuration, a batch is accepted as a whole exactly
    when its two parts are accepted one after the other, and the session is
    then the same; when the first part is accepted and the second is not,
    the whole batch raises the same exception and writes nothing, whereas
    handled in two parts the first part stays committed. *)
Theorem handle_packets_app packets1 packets2 resolve active interface w :
  active && negb (truthy interface) = false ->
  (forall w',
     handle_packets (packets1 ++ packets2) resolve active interface w = Ok w' <->
     exists w1,
       handle_packets packets1 resolve active interface w = Ok w1 /\
       handle_packets packets2 resolve active interface w1 = Ok w') /\
  (Forall (fun p => is_Some (getlayer_ARP p)) (packets1 ++ packets2) ->
   run_ops [CallHandlePackets packets1 resolve active interface;
            CallHandlePackets packets2 resolve active interface] w =
   run_ops [CallHandlePackets (packets1 ++ packets2) resolve active interface] w) /\
  (forall w1 e,
     handle_packets packets1 resolve active interface w = Ok w1 ->
     handle_packets packets2 resolve active interface w1 = Raise e ->
     handle_packets (packets1 ++ packets2) resolve active interface w = Raise e /\
     run_ops [CallHandlePackets (packets1 ++ packets2) resolve active interface] w = w /\
     run_ops [CallHandlePackets packets1 resolve active interface;
              CallHandlePackets packets2 resolve active interface] w = w1).
Proof.
  intros Hcfg.
  pose proof (handle_packets_parts packets1 packets2 resolve active interface w Hcfg)
    as Hparts.
  split; [|split].
  - intros w'. rewrite Hparts.
    destruct (handle_packets packets1 resolve active interface w) as [w1|e]; simpl.
    + split; [intros H; by exists w1|]. by intros (w1' & [= <-] & H).
    + split; [done|]. by intros (w1' & ? & _).
  - intros [Hall1 Hall2]%Forall_app.
    apply mapM_unpack_Ok in Hall1 as [ev1 Hev1].
    apply mapM_unpack_Ok in Hall2 as [ev2 Hev2].
    unfold run_ops. cbn [fold_left run_op]. rewrite Hparts.
    destruct (handle_packets packets1 resolve active interface w) as [w1|e] eqn:H1.
    + simpl. unfold handle_packets. by rewrite Hev2, Hcfg.
    + unfold handle_packets in H1. rewrite Hev1, Hcfg in H1. discriminate H1.
  - intros w1 e H1 H2. unfold run_ops. cbn [fold_left run_op].
    rewrite Hparts, H1. simpl. by rewrite H2.
Qed.

(** X4: the two checks [handle_packets] makes before its loop: a batch with
    a packet that has no ARP layer raises [AttributeError], whatever the
    configuration; a batch whose packets all have one, the empty batch
    included, raises the configuration error when [active] is set and no
    interface is given; hence a call that returns was given packets that all
    have an ARP layer and a sound configuration. *)
Theorem handle_packets_errors packets resolve active interface w :
  (Exists (fun p => getlayer_ARP p = None) packets ->
   handle_packets packets resolve active interface w = Raise AttributeError) /\
  (Forall (fun p => is_Some (getlayer_ARP p)) packets ->
   active = true -> truthy interface = false ->
   handle_packets packets resolve active interface w =
     Raise (Exception "Active ARP resolution requires an interface ip")) /\
  (forall w',
     handle_packets packets resolve active interface w = Ok w' ->
     Forall (fun p => is_Some (getlayer_ARP p)) packets /\
     (active = false \/ truthy interface = true)).
Proof.
  assert (Exists (fun p => getlayer_ARP p = None) packets ->
          mapM unpack_packet packets = Raise AttributeError) as Hraise.
  { induction packets as [|p packets IH]; simpl; [by intros ?%Exists_nil|].
    unfold unpack_packet at 1. rewrite Exists_cons.
    destruct (getlayer_ARP p) as [arp|]; simpl; [|done].
    intros [?|H]; [done|]. by rewrite (IH H). }
  pose proof (mapM_unpack_Ok packets) as Hok.
  split; [|split].
  - intros Hex. unfold handle_packets. by rewrite (Hraise Hex).
  - intros [events Hev]%Hok -> Hi. unfold handle_packets. rewrite Hev, Hi. done.
  - intros w'. unfold handle_packets.
    destruct (mapM unpack_packet packets) as [events|e] eqn:Hev; simpl; [|done].
    destruct active, (truthy interface); simpl; try done;
      intros _; (split; [apply Hok; by eexists|]); auto.
Qed.

(** ** The transaction table along a session *)

Lemma handle_packet_steps resolve active interface w packet :
  handle_packet resolve active interface w packet =
    let '(sender, w1) := get_or_create_ip (fst packet) resolve None None false w in
    let '(target, w2) := get_or_create_ip (snd packet) resolve None interface active w1 in
    mkWorld (upsert_transaction (IP.id sender) (IP.id target) 1 (db w2)) (net w2).
Proof.
  unfold handle_packet, upsert_transaction.
  destruct (get_or_create_ip (fst packet) resolve None None false w) as [sender w1].
  destruct (get_or_create_ip (snd packet) resolve None interface active w1) as [target w2].
  by destruct (query_transaction _ _ (db w2)).
Qed.

Lemma import_transaction_steps isess w t w' :
  import_transaction isess w t = Ok w' ->
  exists ts tt,
    ip_by_id (Transaction.sender_ip_id t) isess = Some ts /\
    ip_by_id (Transaction.target_ip_id t) isess = Some tt /\
    w' = let '(sender, w1) := get_or_create_ip (IP.value ts) false
                                (carried_ptr ts isess) None false w in
         let '(target, w2) := get_or_create_ip (IP.value tt) false
                                (carried_ptr tt isess) None false w1 in
         mkWorld (upsert_transaction (IP.id sender) (IP.id target)
                    (Transaction.count t) (db w2)) (net w2).
Proof.
  unfold import_transaction, upsert_transaction.
  destruct (ip_by_id (Transaction.sender_ip_id t) isess) as [ts|]; simpl; [|done].
  destruct (ip_by_id (Transaction.target_ip_id t) isess) as [tt|]; simpl; [|done].
  intros H. exists ts, tt. split; [done|]. split; [done|].
  destruct (get_or_create_ip (IP.value ts) false _ None false w) as [sender w1].
  destruct (get_or_create_ip (IP.value tt) false _ None false w1) as [target w2].
  destruct (query_transaction _ _ (db w2)); by simplify_eq.
Qed.

Lemma get_or_create_ip_transactions ip resolve ptr interface active w :
  transactions (db (snd (get_or_create_ip ip resolve ptr interface active w))) =
  transactions (db w).
Proof.
  destruct (get_or_create_ip ip resolve ptr interface active w) as [r w'] eqn:Hg.
  by apply get_or_create_ip_extends in Hg as [? _].
Qed.

(** What every read-modify-write of a count keeps, [handle_packets] keeps. *)
Lemma handle_events_kept (Q : list Transaction.t -> Prop) resolve active interface :
  (forall sid tid s, Q (transactions s) ->
     Q (transactions (upsert_transaction sid tid 1 s))) ->
  forall events w,
    Q (transactions (db w)) ->
    Q (transactions (db (fold_left (handle_packet resolve active interface) events w))).
Proof.
  intros Hup events. induction events as [|e events IH]; intros w Hw; [done|].
  cbn [fold_left]. apply IH. rewrite handle_packet_steps.
  pose proof (get_or_create_ip_transactions (fst e) resolve None None false w) as H1.
  destruct (get_or_create_ip (fst e) resolve None None false w) as [sender w1].
  pose proof (get_or_create_ip_transactions (snd e) resolve None interface active w1) as H2.
  destruct (get_or_create_ip (snd e) resolve None interface active w1) as [target w2].
  simpl in *. apply Hup. by rewrite H2, H1.
Qed.

(** And so does every call on a session, when it is kept whatever is added. *)
Lemma run_ops_transactions_kept (Q : list Transaction.t -> Prop) :
  (forall sid tid n s, Q (transactions s) ->
     Q (transactions (upsert_transaction sid tid n s))) ->
  forall ops w,
    Q (transactions (db w)) -> Q (transactions (db (run_ops ops w))).
Proof.
  intros Hup ops. unfold run_ops.
  induction ops as [|o ops IH]; simpl; intros w Hw; [done|].
  apply IH. destruct o as [ip rs p i a|pk rs a i|isess]; simpl.
  - by rewrite get_or_create_ip_transactions.
  - unfold handle_packets.
    destruct (mapM unpack_packet pk) as [l|]; simpl; [|done].
    destruct (a && negb (truthy i)); [done|].
    apply handle_events_kept; [|done]. intros sid tid s. apply Hup.
  - unfold merge. clear IH. revert w Hw.
    induction (transactions isess) as [|t l IHl]; simpl; intros w Hw; [done|].
    unfold or_keep at 1.
    destruct (import_transaction isess w t) as [w1|e] eqn:Hi; simpl; [|done].
    apply IHl. apply import_transaction_steps in Hi as (ts & tt & _ & _ & ->).
    pose proof (get_or_create_ip_transactions (IP.value ts) false
                  (carried_ptr ts isess) None false w) as H1.
    destruct (get_or_create_ip (IP.value ts) false _ None false w) as [sender w1'].
    pose proof (get_or_create_ip_transactions (IP.value tt) false
                  (carried_ptr tt isess) None false w1') as H2.
    destruct (get_or_create_ip (IP.value tt) false _ None false w1') as [target w2].
    simpl in *. apply Hup. by rewrite H2, H1.
Qed.

Lemma query_transaction_None_key sid tid s :
  query_transaction sid tid s = None <-> (sid, tid) ∉ map tx_key (transactions s).
Proof.
  unfold query_transaction. rewrite find_None_iff. split.
  - intros H Hin. apply list_elem_of_fmap in Hin as (t & Hk & Ht).
    specialize (H t Ht). injection Hk as -> ->.
    by rewrite !bool_decide_eq_true_2 in H.
  - intros H t Ht. apply andb_false_iff.
    destruct (decide (Transaction.sender_ip_id t = sid)) as [<-|];
      [right|left; by apply bool_decide_eq_false].
    apply bool_decide_eq_false. intros <-. apply H.
    apply list_elem_of_fmap. by exists t.
Qed.

Lemma add_count_keys sid tid n s :
  map tx_key (transactions (add_count sid tid n s)) = map tx_key (transactions s).
Proof.
  unfold add_count. simpl. rewrite map_map. apply map_ext_in. intros t _.
  destruct (bool_decide (Transaction.sender_ip_id t = sid)
            && bool_decide (Transaction.target_ip_id t = tid)) eqn:H; [|done].
  apply andb_true_iff in H as [H1%bool_decide_eq_true H2%bool_decide_eq_true].
  unfold tx_key. simpl. congruence.
Qed.

(** The keys of the table after a read-modify-write: the same, or one more
    at the end. *)
Lemma upsert_keys sid tid n s :
  map tx_key (transactions (upsert_transaction sid tid n s)) =
    map tx_key (transactions s) ++
    (if decide ((sid, tid) ∈ map tx_key (transactions s)) then [] else [(sid, tid)]).
Proof.
  unfold upsert_transaction.
  destruct (query_transaction sid tid s) as [t0|] eqn:Hq.
  - rewrite add_count_keys. rewrite decide_True; [by rewrite app_nil_r|].
    destruct (decide ((sid, tid) ∈ map tx_key (transactions s))) as [|Hn]; [done|].
    apply query_transaction_None_key in Hn. congruence.
  - rewrite decide_False by (by apply query_transaction_None_key).
    simpl. by rewrite map_app.
Qed.

Lemma upsert_keys_unique sid tid n s :
  NoDup (map tx_key (transactions s)) ->
  NoDup (map tx_key (transactions (upsert_transaction sid tid n s))).
Proof.
  intros Hnd. rewrite upsert_keys. case_decide as Hin; [by rewrite app_nil_r|].
  apply NoDup_app. split; [done|]. split; [|apply NoDup_singleton].
  intros k Hk ->%list_elem_of_singleton. done.
Qed.

(** X5: a session never records one ordered pair of address keys twice:
    the keys of the transaction table, distinct when the session starts,
    are distinct after any sequence of calls. *)
Theorem transaction_keys_unique ops w :
  NoDup (map tx_key (transactions (db w))) ->
  NoDup (map tx_key (transactions (db (run_ops ops w)))).
Proof.
  apply (run_ops_transactions_kept (fun l => NoDup (map tx_key l))).
  intros sid tid n s. apply upsert_keys_unique.
Qed.

Lemma add_count_untouched sid tid n (l : list Transaction.t) :
  (sid, tid) ∉ map tx_key l ->
  map (fun t => if bool_decide (Transaction.sender_ip_id t = sid)
                   && bool_decide (Transaction.target_ip_id t = tid)
                then Transaction.mk sid tid (Transaction.count t + n) else t) l = l.
Proof.
  induction l as [|t l IH]; simpl; intros Hn; [done|].
  apply not_elem_of_cons in Hn as [Hne Hn]. rewrite IH by done. f_equal.
  destruct (bool_decide (Transaction.sender_ip_id t = sid)
            && bool_decide (Transaction.target_ip_id t = tid)) eqn:H; [|done].
  apply andb_true_iff in H as [H1%bool_decide_eq_true H2%bool_decide_eq_true].
  exfalso. apply Hne. unfold tx_key. congruence.
Qed.

Lemma add_count_total sid tid n (l : list Transaction.t) :
  NoDup (map tx_key l) -> (sid, tid) ∈ map tx_key l ->
  Z_sum (map Transaction.count
           (map (fun t => if bool_decide (Transaction.sender_ip_id t = sid)
                             && bool_decide (Transaction.target_ip_id t = tid)
                          then Transaction.mk sid tid (Transaction.count t + n) else t) l))
  = (Z_sum (map Transaction.count l) + n)%Z.
Proof.
  induction l as [|t l IH]; simpl; intros Hnd Hin; [by apply elem_of_nil in Hin|].
  apply NoDup_cons in Hnd as [Hnt Hnd].
  destruct (bool_decide (Transaction.sender_ip_id t = sid)
            && bool_decide (Transaction.target_ip_id t = tid)) eqn:H.
  - apply andb_true_iff in H as [H1%bool_decide_eq_true H2%bool_decide_eq_true].
    rewrite add_count_untouched.
    + unfold Z_sum. simpl. lia.
    + unfold tx_key in Hnt. by rewrite H1, H2 in Hnt.
  - apply elem_of_cons in Hin as [Hin|Hin].
    + exfalso. injection Hin as -> ->. by rewrite !bool_decide_eq_true_2 in H.
    + unfold Z_sum in *. simpl. rewrite IH by done. lia.
Qed.

Lemma upsert_total sid tid n s :
  NoDup (map tx_key (transactions s)) ->
  total_count (upsert_transaction sid tid n s) = (total_count s + n)%Z.
Proof.
  intros Hnd. unfold upsert_transaction, total_count.
  destruct (query_transaction sid tid s) as [t0|] eqn:Hq; simpl.
  - apply add_count_total; [done|].
    destruct (decide ((sid, tid) ∈ map tx_key (transactions s))) as [|Hn]; [done|].
    apply query_transaction_None_key in Hn. congruence.
  - rewrite map_app. unfold Z_sum. rewrite foldr_app. simpl.
    generalize (map Transaction.count (transactions s)). intros l.
    induction l as [|z l IH]; simpl; lia.
Qed.

(** X6: every event is counted once: on a table with distinct keys, a batch
    that [handle_packets] accepts raises the sum of all counts by the number
    of its packets. *)
Theorem handle_packets_total packets resolve active interface w w' :
  NoDup (map tx_key (transactions (db w))) ->
  handle_packets packets resolve active interface w = Ok w' ->
  total_count (db w') = (total_count (db w) + Z.of_nat (length packets))%Z.
Proof.
  intros Hnd. unfold handle_packets.
  destruct (mapM unpack_packet packets) as [events|] eqn:Hev; simpl; [|done].
  destruct (active && negb (truthy interface)); [done|].
  intros [= <-].
  assert (length packets = length events) as ->.
  { rewrite (mapM_unpack_events _ _ Hev). by rewrite length_map. }
  clear Hev. revert w Hnd.
  induction events as [|e events IH]; intros w Hnd; cbn [fold_left length]; [lia|].
  assert (NoDup (map tx_key (transactions
            (db (handle_packet resolve active interface w e)))) /\
          total_count (db (handle_packet resolve active interface w e)) =
            (total_count (db w) + 1)%Z) as [Hnd1 Ht1].
  { rewrite handle_packet_steps.
    pose proof (get_or_create_ip_transactions (fst e) resolve None None false w) as H1.
    destruct (get_or_create_ip (fst e) resolve None None false w) as [sender w1].
    pose proof (get_or_create_ip_transactions (snd e) resolve None interface active w1)
      as H2.
    destruct (get_or_create_ip (snd e) resolve None interface active w1) as [target w2].
    simpl in *.
    assert (NoDup (map tx_key (transactions (db w2)))) as Hnd2 by (by rewrite H2, H1).
    split; [by apply upsert_keys_unique|].
    rewrite upsert_total by done. unfold total_count. by rewrite H2, H1. }
  rewrite (IH _ Hnd1), Ht1. lia.
Qed.

Lemma upsert_elem sid tid n s t :
  t ∈ transactions s ->
  exists t', t' ∈ transactions (upsert_transaction sid tid n s) /\
             tx_key t' = tx_key t /\
             (t' = t \/ Transaction.count t' = (Transaction.count t + n)%Z).
Proof.
  intros Ht. unfold upsert_transaction.
  destruct (query_transaction sid tid s) as [t0|]; simpl.
  - destruct (bool_decide (Transaction.sender_ip_id t = sid)
              && bool_decide (Transaction.target_ip_id t = tid)) eqn:H.
    + exists (Transaction.mk sid tid (Transaction.count t + n)). split; [|split].
      * apply list_elem_of_fmap. exists t. by rewrite H.
      * apply andb_true_iff in H as [H1%bool_decide_eq_true H2%bool_decide_eq_true].
        unfold tx_key. simpl. congruence.
      * by right.
    + exists t. split; [|split; [done|by left]].
      apply list_elem_of_fmap. exists t. by rewrite H.
  - exists t. split; [|split; [done|by left]]. apply elem_of_app. by left.
Qed.

Lemma upsert_elem_inv sid tid n s t' :
  t' ∈ transactions (upsert_transaction sid tid n s) ->
  t' ∈ transactions s \/
  Transaction.count t' = n \/
  exists t, t ∈ transactions s /\ Transaction.count t' = (Transaction.count t + n)%Z.
Proof.
  unfold upsert_transaction.
  destruct (query_transaction sid tid s) as [t0|]; simpl.
  - intros (t & -> & Ht)%list_elem_of_fmap.
    destruct (_ && _); [|by left]. right; right. by exists t.
  - intros [?|Heq%list_elem_of_singleton]%elem_of_app; [by left|].
    subst t'. right; by left.
Qed.

(** X7: counts only grow: after a batch that [handle_packets] accepts, every
    transaction that was in the table is still there under its key with a
    count that is not smaller, and if all counts were at least 1 they all
    are, the new ones included. *)
Theorem handle_packets_counts_grow packets resolve active interface w w' :
  handle_packets packets resolve active interface w = Ok w' ->
  (forall t, t ∈ transactions (db w) ->
     exists t', t' ∈ transactions (db w') /\ tx_key t' = tx_key t /\
                (Transaction.count t <= Transaction.count t')%Z) /\
  ((forall t, t ∈ transactions (db w) -> (1 <= Transaction.count t)%Z) ->
   forall t', t' ∈ transactions (db w') -> (1 <= Transaction.count t')%Z).
Proof.
  unfold handle_packets.
  destruct (mapM unpack_packet packets) as [events|]; simpl; [|done].
  destruct (active && negb (truthy interface)); [done|].
  intros [= <-]. split.
  - apply (handle_events_kept
             (fun l => forall t, t ∈ transactions (db w) ->
                exists t', t' ∈ l /\ tx_key t' = tx_key t /\
                           (Transaction.count t <= Transaction.count t')%Z)).
    + intros sid tid s Hs t Ht. destruct (Hs t Ht) as (t1 & Ht1 & Hk1 & Hc1).
      destruct (upsert_elem sid tid 1 s t1 Ht1) as (t2 & Ht2 & Hk2 & Hc2).
      exists t2. split; [done|]. split; [congruence|].
      destruct Hc2 as [-> | ->]; lia.
    + intros t Ht. exists t. split; [done|]. split; [done|lia].
  - apply (handle_events_kept
             (fun l => forall t, t ∈ l -> (1 <= Transaction.count t)%Z)).
    intros sid tid s Hs t' Ht'.
    apply upsert_elem_inv in Ht' as [Ht'|[-> | (t & Ht & ->)]]; [by apply Hs|lia|].
    specialize (Hs t Ht). lia.
Qed.

Lemma tables_prefix_kept i0 p0 n0 :
  kept_by_get_or_create_ip
    (fun w => i0 `prefix_of` ips (db w) /\ p0 `prefix_of` ptrs (db w) /\
              n0 `prefix_of` net w).
Proof.
  intros ip resolve ptr interface active w (Hi & Hp & Hn).
  destruct (get_or_create_ip ip resolve ptr interface active w) as [r w'] eqn:Hg.
  apply get_or_create_ip_cases in Hg as [[_ ->]|[Hq (ps & cs & Hc & ->)]]; [done|].
  cbn [snd db net ips ptrs].
  split; [|split]; (etrans; [done|by apply prefix_app_r]).
Qed.

(** X8: the tables of a session only grow at their end: after any sequence
    of calls the addresses and the PTR records the session started with are
    the first rows of their tables, unchanged, the transactions it started
    with are the first of theirs under the same keys, and the network calls
    made before are the first of the log. *)
Theorem session_tables_only_grow ops w :
  ips (db w) `prefix_of` ips (db (run_ops ops w)) /\
  ptrs (db w) `prefix_of` ptrs (db (run_ops ops w)) /\
  net w `prefix_of` net (run_ops ops w) /\
  map tx_key (transactions (db w))
    `prefix_of` map tx_key (transactions (db (run_ops ops w))).
Proof.
  assert (ips (db w) `prefix_of` ips (db (run_ops ops w)) /\
          ptrs (db w) `prefix_of` ptrs (db (run_ops ops w)) /\
          net w `prefix_of` net (run_ops ops w)) as (Hi & Hp & Hn).
  { apply (run_ops_kept
             (fun w' => ips (db w) `prefix_of` ips (db w') /\
                        ptrs (db w) `prefix_of` ptrs (db w') /\
                        net w `prefix_of` net w')).
    - apply tables_prefix_kept.
    - intros w0 txs H. exact H.
    - done. }
  split; [done|]. split; [done|]. split; [done|].
  apply (run_ops_transactions_kept
           (fun l => map tx_key (transactions (db w)) `prefix_of` map tx_key l));
    [|done].
  intros sid tid n s Hs. rewrite upsert_keys. etrans; [done|]. by apply prefix_app_r.
Qed.

(** ** Whole imports *)

Lemma for_each_app {A S} (body : S -> A -> S * option exn) l1 l2 s :
  for_each body (l1 ++ l2) s =
    match for_each body l1 s with
    | (s1, None) => for_each body l2 s1
    | (s1, Some e) => (s1, Some e)
    end.
Proof.
  revert s. induction l1 as [|a l1 IH]; intros s; simpl; [done|].
  destruct (body s a) as [s1 [e|]]; [done|]. apply IH.
Qed.

Lemma import_transaction_loads isess w t :
  loads isess t <-> exists w', import_transaction isess w t = Ok w'.
Proof.
  unfold loads, import_transaction. split.
  - intros [[ts Hs] [tt Ht]]. rewrite Hs, Ht. simpl.
    destruct (get_or_create_ip (IP.value ts) false _ None false w) as [sender w1].
    destruct (get_or_create_ip (IP.value tt) false _ None false w1) as [target w2].
    destruct (query_transaction _ _ (db w2)); by eexists.
  - intros [w' H].
    destruct (ip_by_id (Transaction.sender_ip_id t) isess); simpl in H; [|done].
    destruct (ip_by_id (Transaction.target_ip_id t) isess); simpl in H; [|done].
    split; by eexists.
Qed.

Lemma import_transaction_fails isess w t e :
  import_transaction isess w t = Raise e -> e = AttributeError /\ ~ loads isess t.
Proof.
  intros H. split.
  - unfold import_transaction in H.
    destruct (ip_by_id (Transaction.sender_ip_id t) isess); simpl in H;
      [|by injection H].
    destruct (ip_by_id (Transaction.target_ip_id t) isess); simpl in H;
      [|by injection H].
    destruct (get_or_create_ip _ _ _ _ _ _) as [sender w1].
    destruct (get_or_create_ip _ _ _ _ _ _) as [target w2].
    by destruct (query_transaction _ _ _).
  - intros [w' Hw']%(import_transaction_loads isess w t). congruence.
Qed.

(** The loop of an import over transactions that all load is a plain fold. *)
Lemma import_loop_loads isess l w :
  Forall (loads isess) l ->
  for_each (or_keep (import_transaction isess)) l w =
    (fold_left (fun w t => (or_keep (import_transaction isess) w t).1) l w, None).
Proof.
  revert w. induction l as [|t l IH]; intros w Hl; [done|].
  apply Forall_cons in Hl as [Ht Hl]. cbn [for_each fold_left].
  apply (import_transaction_loads isess w t) in Ht as [w' Hw'].
  assert (or_keep (import_transaction isess) w t = (w', None)) as ->
    by (unfold or_keep; by rewrite Hw').
  by apply IH.
Qed.

Lemma import_step_records isess w t :
  loads isess t -> db_wf (db w) ->
  exists ra rb s',
    extends (db w) s' /\
    query_ip (source_pair isess t).1 s' = Some ra /\
    query_ip (source_pair isess t).2 s' = Some rb /\
    db (or_keep (import_transaction isess) w t).1 =
      upsert_transaction (IP.id ra) (IP.id rb) (Transaction.count t) s'.
Proof.
  intros [[ts Hs] [tt Ht]] _.
  destruct (import_transaction_db isess w t ts tt Hs Ht)
    as (w' & ra & rb & s' & Hi & _ & He & Ha & Hb & Hdb).
  exists ra, rb, s'. unfold source_pair, or_keep. rewrite Hs, Ht, Hi. done.
Qed.

Lemma import_step_net isess w t :
  net (or_keep (import_transaction isess) w t).1 = net w.
Proof.
  unfold or_keep.
  destruct (import_transaction isess w t) as [w'|e] eqn:Hi; [|done]. simpl.
  assert (loads isess t) as [[ts Hs] [tt Ht]]
    by (apply (import_transaction_loads isess w t); eauto).
  destruct (import_transaction_db isess w t ts tt Hs Ht)
    as (w1 & _ & _ & _ & Hi' & Hnet & _). congruence.
Qed.

Lemma merge_net isess w : net (merge isess w).1 = net w.
Proof.
  unfold merge. generalize (transactions isess). intros l. revert w.
  induction l as [|t l IH]; intros w; [done|]. cbn [for_each].
  pose proof (import_step_net isess w t) as Hn.
  destruct (or_keep (import_transaction isess) w t) as [w1 [e|]]; [done|].
  simpl in Hn. by rewrite IH.
Qed.

Lemma import_loop_counts isess w :
  db_wf (db w) ->
  Forall (loads isess) (transactions isess) ->
  exists w',
    merge isess w = (w', None) /\
    net w' = net w /\
    db_wf (db w') /\
    forall a b,
      count_of a b (db w') =
        count_after (count_of a b (db w)) (source_counts a b isess).
Proof.
  intros Hwf Hl. unfold merge. rewrite import_loop_loads by done.
  eexists. split; [reflexivity|]. split.
  { pose proof (merge_net isess w) as Hn. unfold merge in Hn.
    by rewrite import_loop_loads in Hn. }
  apply (fold_record_counts
           (fun w t => (or_keep (import_transaction isess) w t).1)
           (loads isess) (source_pair isess) Transaction.count
           (import_step_records isess)); done.
Qed.

(** X9: a source database whose transactions all load is imported without
    exception and without any network call; every ordered pair of address
    values is left with the count it had in the destination plus the counts
    the source holds for it, and a pair the source does not hold keeps what
    it had. *)
Theorem merge_counts isess w :
  db_wf (db w) ->
  Forall (loads isess) (transactions isess) ->
  exists w',
    merge isess w = (w', None) /\
    net w' = net w /\
    db_wf (db w') /\
    forall a b,
      count_of a b (db w') =
        count_after (count_of a b (db w)) (source_counts a b isess).
Proof. apply import_loop_counts. Qed.

(** X10: an import stops at the first transaction of the source whose sender
    or target is missing from the source, with [AttributeError]; the
    transactions before it are imported and stay so, that one and those
    after it are not: the session is what the import of the source cut
    before that transaction leaves. *)
Theorem merge_stops_at_dangling isess w l1 t l2 :
  transactions isess = l1 ++ t :: l2 ->
  Forall (loads isess) l1 ->
  ~ loads isess t ->
  merge isess w =
    ((merge (mkSession (ips isess) (ptrs isess) l1) w).1, Some AttributeError) /\
  (merge (mkSession (ips isess) (ptrs isess) l1) w).2 = None.
Proof.
  intros Htx Hl1 Ht. unfold merge. rewrite Htx, for_each_app.
  change (for_each (or_keep (import_transaction (mkSession (ips isess) (ptrs isess) l1)))
            (transactions (mkSession (ips isess) (ptrs isess) l1)) w)
    with (for_each (or_keep (import_transaction isess)) l1 w).
  rewrite import_loop_loads by done. split; [|done].
  cbn [for_each]. unfold or_keep at 1.
  destruct (import_transaction isess _ t) as [w'|e] eqn:Hi.
  - exfalso. apply Ht. eapply import_transaction_loads. eauto.
  - by apply import_transaction_fails in Hi as [-> _].
Qed.

(** X11: on a destination whose transaction keys are distinct, the import of
    a source whose transactions all load raises the sum of all counts by the
    sum of the counts of the source. *)
Theorem merge_total isess w :
  NoDup (map tx_key (transactions (db w))) ->
  Forall (loads isess) (transactions isess) ->
  total_count (db (merge isess w).1) = (total_count (db w) + total_count isess)%Z.
Proof.
  unfold merge. unfold total_count at 3.
  generalize (transactions isess). intros l. revert w.
  induction l as [|t l IH]; intros w Hnd Hl; cbn [for_each map].
  { unfold Z_sum. simpl. lia. }
  apply Forall_cons in Hl as [Ht Hl].
  apply (import_transaction_loads isess w t) in Ht as [w' Hw'].
  unfold or_keep at 1. rewrite Hw'.
  assert (NoDup (map tx_key (transactions (db w'))) /\
          total_count (db w') = (total_count (db w) + Transaction.count t)%Z)
    as [Hnd' Ht'].
  { apply import_transaction_steps in Hw' as (ts & tt & _ & _ & ->).
    pose proof (get_or_create_ip_transactions (IP.value ts) false
                  (carried_ptr ts isess) None false w) as H1.
    destruct (get_or_create_ip (IP.value ts) false _ None false w) as [sender w1].
    pose proof (get_or_create_ip_transactions (IP.value tt) false
                  (carried_ptr tt isess) None false w1) as H2.
    destruct (get_or_create_ip (IP.value tt) false _ None false w1) as [target w2].
    simpl in *.
    assert (NoDup (map tx_key (transactions (db w2)))) as Hnd2 by (by rewrite H2, H1).
    split; [by apply upsert_keys_unique|].
    rewrite upsert_total by done. unfold total_count. by rewrite H2, H1. }
  rewrite (IH _ Hnd' Hl), Ht'. unfold Z_sum. simpl. lia.
Qed.

Lemma NoDup_map_inj {A B} (f : A -> B) (l : list A) x y :
  NoDup (map f l) -> x ∈ l -> y ∈ l -> f x = f y -> x = y.
Proof.
  induction l as [|z l IH]; simpl; [by intros _ ?%elem_of_nil|].
  intros [Hz Hnd]%NoDup_cons [->|Hx]%elem_of_cons [->|Hy]%elem_of_cons Heq; auto.
  - exfalso. apply Hz. rewrite Heq. apply list_elem_of_fmap. eauto.
  - exfalso. apply Hz. rewrite <- Heq. apply list_elem_of_fmap. eauto.
Qed.

Lemma filter_unique_key {A B} `{EqDecision B} (f : A -> B) (k : B) (l : list A) :
  NoDup (map f l) ->
  List.filter (fun x => bool_decide (f x = k)) l =
    match List.find (fun x => bool_decide (f x = k)) l with
    | Some x => [x]
    | None => []
    end.
Proof.
  induction l as [|x l IH]; simpl; [done|].
  intros [Hx Hnd]%NoDup_cons. case_bool_decide as Hk.
  - f_equal. subst k. rewrite IH by done.
    destruct (List.find _ l) as [y|] eqn:Hf; [|done].
    apply find_Some_elem in Hf as [Hy Hfy%bool_decide_eq_true].
    exfalso. apply Hx. rewrite <- Hfy. apply list_elem_of_fmap. eauto.
  - by apply IH.
Qed.

Lemma filter_none {A} (l : list A) : List.filter (fun _ => false) l = [].
Proof. induction l as [|x l IH]; simpl; done. Qed.

Lemma find_ext_all {A} (f g : A -> bool) (l : list A) :
  (forall x, f x = g x) -> List.find f l = List.find g l.
Proof. intros H. induction l as [|x l IH]; simpl; [done|]. by rewrite H, IH. Qed.

Lemma ip_by_id_elem i s r :
  ip_by_id i s = Some r -> r ∈ ips s /\ IP.id r = i.
Proof.
  intros [H1 H2]%find_Some_elem. split; [done|]. by apply bool_decide_eq_true in H2.
Qed.

Lemma ip_by_id_known i s :
  i ∈ map IP.id (ips s) -> is_Some (ip_by_id i s).
Proof.
  intros (r & -> & Hr)%list_elem_of_fmap.
  destruct (ip_by_id (IP.id r) s) as [r'|] eqn:Hq; [by eexists|].
  unfold ip_by_id in Hq. rewrite find_None_iff in Hq.
  specialize (Hq r Hr). by rewrite bool_decide_eq_true_2 in Hq.
Qed.

Lemma db_wf_loads s : db_wf s -> Forall (loads s) (transactions s).
Proof.
  intros [_ Hrefs]. eapply Forall_impl; [exact Hrefs|]. simpl.
  intros t [H1 H2]. split; by apply ip_by_id_known.
Qed.

(** In a database whose address keys and address values are both distinct
    and whose transaction keys are distinct, what the table holds for a pair
    of values is the count of its one transaction, if it has one. *)
Lemma source_counts_unique s a b :
  db_wf s ->
  NoDup (map IP.value (ips s)) ->
  NoDup (map tx_key (transactions s)) ->
  source_counts a b s = from_option (fun c => [c]) [] (count_of a b s).
Proof.
  intros Hwf Hval Hkeys. pose proof (db_wf_loads s Hwf) as Hloads.
  destruct Hwf as [Hids _]. unfold source_counts, count_of, transaction_of.
  destruct (query_ip a s) as [ra|] eqn:Ha.
  - destruct (query_ip b s) as [rb|] eqn:Hb.
    + apply query_ip_elem in Ha as [Hra Hva], Hb as [Hrb Hvb].
      rewrite (filter_ext_in _ (fun t => bool_decide (tx_key t = (IP.id ra, IP.id rb)))).
      * rewrite (filter_unique_key tx_key) by done.
        unfold query_transaction.
        rewrite (find_ext_all (fun t => bool_decide (tx_key t = (IP.id ra, IP.id rb)))
                   (fun t => bool_decide (Transaction.sender_ip_id t = IP.id ra)
                             && bool_decide (Transaction.target_ip_id t = IP.id rb))).
        -- by destruct (List.find _ (transactions s)).
        -- intros t. unfold tx_key. apply eq_true_iff_eq.
           rewrite andb_true_iff, !bool_decide_eq_true. split; [by intros [= -> ->]|].
           by intros [-> ->].
      * intros t Ht%list_elem_of_In. rewrite Forall_forall in Hloads.
        destruct (Hloads t Ht) as [[rs Hs] [rt Hr]].
        unfold source_pair, tx_key. rewrite Hs, Hr. simpl.
        apply ip_by_id_elem in Hs as [Hrs <-], Hr as [Hrt <-].
        apply eq_true_iff_eq. rewrite !bool_decide_eq_true. split.
        -- intros [= H1 H2]. rewrite <- Hva in H1. rewrite <- Hvb in H2.
           apply (NoDup_map_inj IP.value (ips s)) in H1; [|done..].
           apply (NoDup_map_inj IP.value (ips s)) in H2; [|done..].
           by subst.
        -- intros [= H1 H2].
           apply (NoDup_map_inj IP.id (ips s)) in H1; [|done..].
           apply (NoDup_map_inj IP.id (ips s)) in H2; [|done..].
           by subst.
    + simpl. rewrite (filter_ext_in _ (fun _ => false)).
      * by rewrite filter_none.
      * intros t Ht%list_elem_of_In. rewrite Forall_forall in Hloads.
        destruct (Hloads t Ht) as [_ [rt Hr]].
        unfold source_pair. rewrite Hr. simpl. apply bool_decide_eq_false.
        intros [= _ H2]. apply ip_by_id_elem in Hr as [Hrt _].
        unfold query_ip in Hb. rewrite find_None_iff in Hb.
        specialize (Hb rt Hrt). by rewrite bool_decide_eq_true_2 in Hb.
  - simpl. rewrite (filter_ext_in _ (fun _ => false)).
    + by rewrite filter_none.
    + intros t Ht%list_elem_of_In. rewrite Forall_forall in Hloads.
      destruct (Hloads t Ht) as [[rs Hs] _].
      unfold source_pair. rewrite Hs. simpl. apply bool_decide_eq_false.
      intros [= H1 _]. apply ip_by_id_elem in Hs as [Hrs _].
      unfold query_ip in Ha. rewrite find_None_iff in Ha.
      specialize (Ha rs Hrs). by rewrite bool_decide_eq_true_2 in Ha.
Qed.

(** X12: a ledger survives the import into a new database: for a source
    whose address keys, address values and transaction keys are distinct
    and whose transactions refer to its addresses, the import into an empty
    database raises nothing and gives every ordered pair of address values
    the count it has in the source, and no count to the pairs the source
    does not hold. *)
Theorem merge_into_empty isess calls :
  db_wf isess ->
  NoDup (map IP.value (ips isess)) ->
  NoDup (map tx_key (transactions isess)) ->
  (merge isess (mkWorld empty_db calls)).2 = None /\
  forall a b,
    count_of a b (db (merge isess (mkWorld empty_db calls)).1) = count_of a b isess.
Proof.
  intros Hwf Hval Hkeys.
  assert (db_wf (db (mkWorld empty_db calls))) as Hwf0 by (split; constructor).
  destruct (import_loop_counts isess (mkWorld empty_db calls) Hwf0 (db_wf_loads _ Hwf))
    as (w' & -> & _ & _ & Hc).
  split; [done|]. intros a b. simpl. rewrite Hc.
  rewrite source_counts_unique by done.
  destruct (count_of a b isess) as [c|]; simpl; [|done].
  unfold count_after, Z_sum, count_of. simpl. f_equal. lia.
Qed.

(** ** Offline import and the files *)

Lemma get_or_create_ip_quiet ip ptr interface w :
  net (get_or_create_ip ip false ptr interface false w).2 = net w.
Proof.
  destruct (get_or_create_ip ip false ptr interface false w) as [r w'] eqn:Hg.
  apply get_or_create_ip_cases in Hg as [[_ ->]|[_ (ps & cs & Hc & ->)]]; [done|].
  unfold created in Hc. simpl in *.
  destruct (truthy ptr); simplify_eq; simpl; by rewrite app_nil_r.
Qed.

Lemma handle_packets_quiet packets interface w w' :
  handle_packets packets false false interface w = Ok w' -> net w' = net w.
Proof.
  unfold handle_packets.
  destruct (mapM unpack_packet packets) as [events|]; simpl; [|done].
  intros [= <-]. revert w.
  induction events as [|e events IH]; intros w; cbn [fold_left]; [done|].
  rewrite IH, handle_packet_steps.
  pose proof (get_or_create_ip_quiet (fst e) None None w) as H1.
  destruct (get_or_create_ip (fst e) false None None false w) as [sender w1].
  pose proof (get_or_create_ip_quiet (snd e) None interface w1) as H2.
  destruct (get_or_create_ip (snd e) false None interface false w1) as [target w2].
  simpl in *. congruence.
Qed.

Lemma import_sqlite_calls out st sfile :
  (import_sqlite out st sfile).1.2 = st.2.
Proof.
  unfold import_sqlite. destruct st as [fs calls].
  destruct (load sfile _) as [isess|]; [|done].
  destruct (load out _) as [outdb|]; [|done].
  pose proof (merge_net isess (mkWorld outdb calls)) as Hn.
  by destruct (merge isess (mkWorld outdb calls)) as [w e].
Qed.

Lemma import_pcap_calls out st pfile :
  (import_pcap out st pfile).1.2 = st.2.
Proof.
  unfold import_pcap. destruct st as [fs calls].
  destruct (rdpcap pfile fs) as [read|]; [|done].
  destruct (load out fs) as [outdb|]; [|done].
  destruct (handle_packets _ false false None _) as [w|] eqn:Hh; [|done].
  by apply handle_packets_quiet in Hh.
Qed.

(** What every turn of a loop keeps of the state, the loop keeps, whether it
    ends or is stopped by an exception. *)
Lemma for_each_kept {A S} (P : S -> Prop) (body : S -> A -> S * option exn) l s :
  (forall s a, P s -> P (body s a).1) -> P s -> P (for_each body l s).1.
Proof.
  intros Hbody. revert s. induction l as [|a l IH]; intros s Hs; [done|].
  cbn [for_each]. specialize (Hbody s a Hs).
  destruct (body s a) as [s' [e|]]; [done|]. by apply IH.
Qed.

(** X13: an offline import never goes to the network: whatever the files and
    the options, [analyze] makes no reverse lookup and sends no ARP probe,
    the log of network calls after it is the log before it. *)
Theorem analyze_offline database_output_file sender_lists target_lists
    pcap_files sqlite_files color_profile resolve (fs : gmap string File) calls :
  (analyze database_output_file sender_lists target_lists pcap_files sqlite_files
     color_profile resolve fs calls).1.2 = calls.
Proof.
  unfold analyze.
  pose proof (for_each_kept (fun st => st.2 = calls)
                (import_sqlite database_output_file) sqlite_files
                (create_db database_output_file true fs, calls)) as H1.
  destruct (for_each (import_sqlite database_output_file) sqlite_files _)
    as [st1 [e|]]; simpl in H1.
  - simpl. apply H1; [|done]. intros s a Hs. by rewrite import_sqlite_calls.
  - pose proof (for_each_kept (fun st => st.2 = calls)
                  (import_pcap database_output_file) pcap_files st1) as H2.
    destruct (for_each (import_pcap database_output_file) pcap_files st1)
      as [st2 [e|]]; simpl in *; apply H2;
      try (intros s a Hs; by rewrite import_pcap_calls);
      (apply H1; [|done]; intros s a Hs; by rewrite import_sqlite_calls).
Qed.

Lemma create_db_other dbfile overwrite (fs : gmap string File) path :
  path <> dbfile -> create_db dbfile overwrite fs !! path = fs !! path.
Proof.
  intros Hne. unfold create_db.
  destruct (bool_decide (is_Some (fs !! dbfile)) && overwrite);
    destruct (negb _ || overwrite);
    rewrite ?lookup_insert_ne, ?lookup_delete_ne by done; done.
Qed.

Lemma create_db_present dbfile (fs : gmap string File) :
  is_Some (fs !! dbfile) -> create_db dbfile false fs = fs.
Proof.
  intros H. unfold create_db. rewrite andb_false_r, orb_false_r.
  by rewrite bool_decide_eq_true_2.
Qed.

Lemma create_db_keeps dbfile (fs : gmap string File) path f :
  fs !! path = Some f -> create_db dbfile false fs !! path = Some f.
Proof.
  intros H. destruct (decide (path = dbfile)) as [->|Hne].
  - rewrite create_db_present; [done|by eexists].
  - by rewrite create_db_other.
Qed.

Lemma import_sqlite_files out st sfile path f :
  path <> out -> st.1 !! path = Some f ->
  (import_sqlite out st sfile).1.1 !! path = Some f.
Proof.
  intros Hne H. unfold import_sqlite. destruct st as [fs calls]. simpl in H.
  pose proof (create_db_keeps sfile fs path f H) as Hc.
  destruct (load sfile _) as [isess|]; [|done].
  destruct (load out _) as [outdb|]; [|done].
  destruct (merge isess (mkWorld outdb calls)) as [w e]. simpl.
  unfold store. by rewrite lookup_insert_ne.
Qed.

Lemma import_pcap_files out st pfile path f :
  path <> out -> st.1 !! path = Some f ->
  (import_pcap out st pfile).1.1 !! path = Some f.
Proof.
  intros Hne H. unfold import_pcap. destruct st as [fs calls]. simpl in H.
  destruct (rdpcap pfile fs) as [read|]; [|done].
  destruct (load out fs) as [outdb|]; [|done].
  destruct (handle_packets _ false false None _) as [w|]; [|done]. simpl.
  unfold store. by rewrite lookup_insert_ne.
Qed.

Lemma import_sqlite_output out st sfile :
  (exists d, st.1 !! out = Some (SqliteFile d)) ->
  exists d, (import_sqlite out st sfile).1.1 !! out = Some (SqliteFile d).
Proof.
  intros [d H]. unfold import_sqlite. destruct st as [fs calls]. simpl in H.
  pose proof (create_db_keeps sfile fs out _ H) as Hc.
  destruct (load sfile _) as [isess|]; [|by eexists].
  destruct (load out _) as [outdb|]; [|by eexists].
  destruct (merge isess (mkWorld outdb calls)) as [w e]. simpl.
  unfold store. rewrite lookup_insert_eq. by eexists.
Qed.

Lemma import_pcap_output out st pfile :
  (exists d, st.1 !! out = Some (SqliteFile d)) ->
  exists d, (import_pcap out st pfile).1.1 !! out = Some (SqliteFile d).
Proof.
  intros [d H]. unfold import_pcap. destruct st as [fs calls]. simpl in H.
  destruct (rdpcap pfile fs) as [read|]; [|by eexists].
  destruct (load out fs) as [outdb|]; [|by eexists].
  destruct (handle_packets _ false false None _) as [w|]; [|by eexists]. simpl.
  unfold store. rewrite lookup_insert_eq. by eexists.
Qed.

Lemma for_each_kept_in {A S} (P : S -> Prop) (body : S -> A -> S * option exn) l s :
  (forall s a, a ∈ l -> P s -> P (body s a).1) -> P s -> P (for_each body l s).1.
Proof.
  revert s. induction l as [|a l IH]; intros s Hbody Hs; [done|].
  cbn [for_each]. pose proof (Hbody s a (list_elem_of_here a l) Hs) as Ha.
  destruct (body s a) as [s' [e|]]; [done|].
  apply IH; [|done]. intros s0 b Hb. apply Hbody. by right.
Qed.

(** What a turn of a loop sets for its element and no turn undoes holds for
    every element when the loop ends. *)
Lemma for_each_done {A S} (Q : A -> S -> Prop) (body : S -> A -> S * option exn) l s s' :
  (forall s a, Q a (body s a).1) ->
  (forall s a b, Q b s -> Q b (body s a).1) ->
  for_each body l s = (s', None) -> forall a, a ∈ l -> Q a s'.
Proof.
  intros Hset Hkeep. revert s. induction l as [|b l IH]; intros s Hl a Ha.
  - by apply elem_of_nil in Ha.
  - cbn [for_each] in Hl. pose proof (Hset s b) as Hb.
    destruct (body s b) as [s1 [e|]] eqn:Hbody; [done|]. simpl in Hb.
    apply elem_of_cons in Ha as [->|Ha]; [|by eapply IH].
    pose proof (for_each_kept (Q b) body l s1 (fun s0 a0 => Hkeep s0 a0 b) Hb) as Hk.
    by rewrite Hl in Hk.
Qed.

Lemma import_sqlite_other out st sfile path :
  path <> out ->
  (import_sqlite out st sfile).1.1 !! path = create_db sfile false st.1 !! path.
Proof.
  intros Hne. unfold import_sqlite. destruct st as [fs calls]. simpl.
  destruct (load sfile _) as [isess|]; [|done].
  destruct (load out _) as [outdb|]; [|done].
  destruct (merge isess (mkWorld outdb calls)) as [w e]. simpl.
  unfold store. by rewrite lookup_insert_ne.
Qed.

(** A turn of the loop over the source databases creates at most its own
    source, empty, when it is missing. *)
Lemma import_sqlite_new out st sfile path :
  path <> out ->
  (import_sqlite out st sfile).1.1 !! path = st.1 !! path \/
  (st.1 !! path = None /\ path = sfile /\
   (import_sqlite out st sfile).1.1 !! path = Some (SqliteFile empty_db)).
Proof.
  intros Hne. rewrite import_sqlite_other by done.
  destruct (decide (path = sfile)) as [->|Hns]; [|left; by apply create_db_other].
  destruct (st.1 !! sfile) as [f|] eqn:Hf.
  - left. rewrite create_db_present; [done|by eexists].
  - right. split; [done|]. split; [done|].
    unfold create_db. rewrite andb_false_r, orb_false_r.
    rewrite bool_decide_eq_false_2 by (rewrite Hf; by intros [? ?]).
    apply lookup_insert_eq.
Qed.

Lemma import_pcap_other out st pfile path :
  path <> out -> (import_pcap out st pfile).1.1 !! path = st.1 !! path.
Proof.
  intros Hne. unfold import_pcap. destruct st as [fs calls]. simpl.
  destruct (rdpcap pfile fs) as [read|]; [|done].
  destruct (load out fs) as [outdb|]; [|done].
  destruct (handle_packets _ false false None _) as [w|]; [|done]. simpl.
  unfold store. by rewrite lookup_insert_ne.
Qed.

Lemma create_db_opened dbfile (fs : gmap string File) :
  is_Some (create_db dbfile false fs !! dbfile).
Proof.
  destruct (fs !! dbfile) as [f|] eqn:Hf.
  - rewrite create_db_present by (by eexists). by eexists.
  - unfold create_db. rewrite andb_false_r, orb_false_r.
    rewrite bool_decide_eq_false_2 by (rewrite Hf; by intros [? ?]).
    simpl. rewrite lookup_insert_eq. by eexists.
Qed.

Lemma import_sqlite_stays out st sfile path :
  is_Some (create_db sfile false st.1 !! path) ->
  is_Some ((import_sqlite out st sfile).1.1 !! path).
Proof.
  intros H. destruct (decide (path = out)) as [->|Hne];
    [|by rewrite import_sqlite_other].
  unfold import_sqlite. destruct st as [fs calls]. simpl in *.
  destruct (load sfile _) as [isess|]; [|done].
  destruct (load out _) as [outdb|]; [|done].
  destruct (merge isess (mkWorld outdb calls)) as [w e]. simpl.
  unfold store. rewrite lookup_insert_eq. by eexists.
Qed.

Lemma import_pcap_stays out st pfile path :
  is_Some (st.1 !! path) -> is_Some ((import_pcap out st pfile).1.1 !! path).
Proof.
  intros H. destruct (decide (path = out)) as [->|Hne];
    [|by rewrite import_pcap_other].
  unfold import_pcap. destruct st as [fs calls]. simpl in *.
  destruct (rdpcap pfile fs) as [read|]; [|done].
  destruct (load out fs) as [outdb|]; [|done].
  destruct (handle_packets _ false false None _) as [w|]; [|done]. simpl.
  unfold store. rewrite lookup_insert_eq. by eexists.
Qed.

(** X14: the files after [analyze]: every file other than the output that
    existed is what it was, the sources included, whether the import ends or
    is stopped by an exception; a file other than the output that did not
    exist and exists after the call is a source database of the list, created
    empty; the output file is a database in either case; and when the call
    returns, every source database of the list exists. *)
Theorem analyze_keeps_other_files database_output_file sender_lists target_lists
    pcap_files sqlite_files color_profile resolve (fs : gmap string File) calls :
  (forall path f,
     path <> database_output_file -> fs !! path = Some f ->
     (analyze database_output_file sender_lists target_lists pcap_files sqlite_files
        color_profile resolve fs calls).1.1 !! path = Some f) /\
  (forall path f,
     path <> database_output_file -> fs !! path = None ->
     (analyze database_output_file sender_lists target_lists pcap_files sqlite_files
        color_profile resolve fs calls).1.1 !! path = Some f ->
     path ∈ sqlite_files /\ f = SqliteFile empty_db) /\
  (exists d,
     (analyze database_output_file sender_lists target_lists pcap_files sqlite_files
        color_profile resolve fs calls).1.1 !! database_output_file
       = Some (SqliteFile d)) /\
  (forall output,
     (analyze database_output_file sender_lists target_lists pcap_files sqlite_files
        color_profile resolve fs calls).2 = Ok output ->
     forall sfile, sfile ∈ sqlite_files ->
       is_Some ((analyze database_output_file sender_lists target_lists pcap_files
                   sqlite_files color_profile resolve fs calls).1.1 !! sfile)).
Proof.
  assert (forall (P : gmap string File -> Prop),
            P (create_db database_output_file true fs) ->
            (forall st a, a ∈ sqlite_files -> P st.1 ->
                          P (import_sqlite database_output_file st a).1.1) ->
            (forall st a, P st.1 -> P (import_pcap database_output_file st a).1.1) ->
            P (analyze database_output_file sender_lists target_lists pcap_files
                 sqlite_files color_profile resolve fs calls).1.1) as Hkept.
  { intros P H0 Hs Hp. unfold analyze.
    pose proof (for_each_kept_in (fun st => P st.1)
                  (import_sqlite database_output_file) sqlite_files
                  (create_db database_output_file true fs, calls) Hs H0) as H1.
    destruct (for_each (import_sqlite database_output_file) sqlite_files _)
      as [st1 [e|]]; simpl in H1; [done|].
    pose proof (for_each_kept (fun st => P st.1)
                  (import_pcap database_output_file) pcap_files st1 Hp H1) as H2.
    by destruct (for_each (import_pcap database_output_file) pcap_files st1)
      as [st2 [e|]]. }
  split; [|split; [|split]].
  - intros path f Hne Hf. apply (Hkept (fun fs' => fs' !! path = Some f)).
    + by rewrite create_db_other.
    + intros st a _. by apply import_sqlite_files.
    + intros st a. by apply import_pcap_files.
  - intros path f Hne Hf.
    assert ((analyze database_output_file sender_lists target_lists pcap_files
               sqlite_files color_profile resolve fs calls).1.1 !! path = None \/
            (path ∈ sqlite_files /\
             (analyze database_output_file sender_lists target_lists pcap_files
                sqlite_files color_profile resolve fs calls).1.1 !! path
               = Some (SqliteFile empty_db))) as [->|[Hin ->]];
      [|done|by intros [= <-]].
    apply (Hkept (fun fs' => fs' !! path = None \/
                             (path ∈ sqlite_files /\
                              fs' !! path = Some (SqliteFile empty_db)))).
    + left. by rewrite create_db_other.
    + intros st a Ha [Hn|[Hin Hs]].
      * destruct (import_sqlite_new database_output_file st a path Hne)
          as [->|(_ & -> & ->)]; [by left|right; done].
      * right. split; [done|]. by apply import_sqlite_files.
    + intros st a. by rewrite import_pcap_other.
  - apply (Hkept (fun fs' => exists d, fs' !! database_output_file = Some (SqliteFile d))).
    + exists empty_db. unfold create_db. rewrite orb_true_r. apply lookup_insert_eq.
    + intros st a _. apply import_sqlite_output.
    + intros st a. apply import_pcap_output.
  - intros output. unfold analyze.
    destruct (for_each (import_sqlite database_output_file) sqlite_files _)
      as [st1 [e|]] eqn:H1; [done|].
    pose proof (for_each_done (fun a st => is_Some (st.1 !! a))
                  (import_sqlite database_output_file) sqlite_files
                  (create_db database_output_file true fs, calls) st1) as Hdone.
    specialize (Hdone
      (fun st a => import_sqlite_stays database_output_file st a a
                     (create_db_opened a st.1))).
    assert (forall st a b, is_Some (st.1 !! b) ->
              is_Some ((import_sqlite database_output_file st a).1.1 !! b)) as Hstay.
    { intros st a b [f Hf]. apply import_sqlite_stays.
      rewrite (create_db_keeps a st.1 b f Hf). by eexists. }
    specialize (Hdone Hstay H1).
    destruct (for_each (import_pcap database_output_file) pcap_files st1)
      as [st2 [e|]] eqn:H2; [done|].
    intros _ sfile Hin. simpl.
    pose proof (for_each_kept (fun st => is_Some (st.1 !! sfile))
                  (import_pcap database_output_file) pcap_files st1) as Hk.
    rewrite H2 in Hk. apply Hk; [|by apply Hdone].
    intros st a. apply import_pcap_stays.
Qed.

(** X15: [create_db] does not clobber: without [overwrite] a file that
    exists is left as it is, whatever it holds, and a missing one becomes an
    empty database, so that opening twice is opening once; with [overwrite]
    the file becomes an empty database whatever was there; no other file is
    touched in either case. *)
Theorem create_db_no_clobber dbfile overwrite (fs : gmap string File) :
  (is_Some (fs !! dbfile) -> create_db dbfile false fs = fs) /\
  (fs !! dbfile = None ->
   create_db dbfile false fs !! dbfile = Some (SqliteFile empty_db)) /\
  create_db dbfile false (create_db dbfile false fs) = create_db dbfile false fs /\
  create_db dbfile true fs !! dbfile = Some (SqliteFile empty_db) /\
  (forall path, path <> dbfile -> create_db dbfile overwrite fs !! path = fs !! path).
Proof.
  assert (fs !! dbfile = None ->
          create_db dbfile false fs !! dbfile = Some (SqliteFile empty_db)) as Hnew.
  { intros Hn. unfold create_db. rewrite andb_false_r, orb_false_r.
    rewrite bool_decide_eq_false_2 by (rewrite Hn; by intros [? ?]).
    apply lookup_insert_eq. }
  split; [apply create_db_present|]. split; [done|]. split; [|split].
  - apply create_db_present. destruct (fs !! dbfile) as [f|] eqn:Hf.
    + rewrite create_db_present by (by eexists). rewrite Hf. by eexists.
    + rewrite Hnew by done. by eexists.
  - unfold create_db. rewrite orb_true_r. apply lookup_insert_eq.
  - intros path Hne. by apply create_db_other.
Qed.

(** ** The table *)

Lemma load_transaction_loads s t :
  (loads s t <-> exists x, load_transaction s t = Ok x) /\
  (forall e, load_transaction s t = Raise e -> e = AttributeError).
Proof.
  unfold loads, load_transaction.
  destruct (ip_by_id (Transaction.sender_ip_id t) s) as [rs|]; simpl.
  - destruct (ip_by_id (Transaction.target_ip_id t) s) as [rt|]; simpl.
    + split; [|done]. split; [by eexists|]. intros _. split; by eexists.
    + split; [|by intros e [= <-]]. split; [by intros [_ [? ?]]|by intros [? ?]].
  - split; [|by intros e [= <-]]. split; [by intros [[? ?] _]|by intros [? ?]].
Qed.

Lemma mapM_load_raises s l e :
  mapM (load_transaction s) l = Raise e <->
  e = AttributeError /\ Exists (fun t => ~ loads s t) l.
Proof.
  revert e. induction l as [|t l IH]; intros e; simpl.
  - split; [done|]. by intros [_ ?%Exists_nil].
  - destruct (load_transaction_loads s t) as [Hok Hraise].
    rewrite Exists_cons.
    destruct (load_transaction s t) as [x|e'] eqn:Hx; simpl.
    + assert (loads s t) as Ht by (apply Hok; eauto).
      destruct (mapM (load_transaction s) l) as [xs|e'']; simpl.
      * split; [done|]. intros [He [?|H]]; [done|].
        destruct (IH e) as [_ IH2]. by specialize (IH2 (conj He H)).
      * rewrite (IH e). split; [intros [? ?]; auto|].
        intros [He [?|H]]; [done|auto].
    + rewrite (Hraise e' eq_refl). split.
      * intros [= <-]. split; [done|]. left. intros Ht. apply Hok in Ht as [? ?]. done.
      * by intros [-> _].
Qed.

Lemma get_output_raises s sender_lists target_lists color_profile resolve active e :
  get_output s sender_lists target_lists color_profile resolve active = Raise e <->
  e = AttributeError /\ Exists (fun t => ~ loads s t) (transactions s).
Proof.
  rewrite get_output_by_groups. unfold report_by_groups.
  assert (Exists (fun t => ~ loads s t) (transactions s) <->
          Exists (fun t => ~ loads s t) (order_by_desc_count (transactions s))) as ->.
  { rewrite !Exists_exists. unfold order_by_desc_count.
    split; intros (t & Ht & Hn); exists t; split; try done.
    - by rewrite merge_sort_Permutation.
    - by rewrite merge_sort_Permutation in Ht. }
  rewrite <- mapM_load_raises.
  destruct (order_by_desc_count (transactions s)) as [|t l];
    [split; intros H; discriminate H|].
  destruct (mapM (load_transaction s) (t :: l)); simpl;
    [split; intros H; discriminate H|split; intros [= ->]; reflexivity].
Qed.

Lemma get_output_returns s sender_lists target_lists color_profile resolve active :
  Forall (loads s) (transactions s) ->
  exists out,
    get_output s sender_lists target_lists color_profile resolve active = Ok out.
Proof.
  intros Hall.
  destruct (get_output s sender_lists target_lists color_profile resolve active)
    as [out|e] eqn:Hout; [by eexists|].
  apply get_output_raises in Hout as [_ Hex]. exfalso.
  apply Exists_exists in Hex as (t & Ht & Hn). rewrite Forall_forall in Hall. auto.
Qed.

(** X16: the report raises only when the ledger is broken: [get_output]
    fails exactly when some transaction of the ledger has no sender or no
    target in the address table, and then with [AttributeError]; on a ledger
    whose transactions refer to its addresses it always returns. *)
Theorem get_output_errors s sender_lists target_lists color_profile resolve active :
  (forall e,
     get_output s sender_lists target_lists color_profile resolve active = Raise e <->
     e = AttributeError /\ Exists (fun t => ~ loads s t) (transactions s)) /\
  (Forall (loads s) (transactions s) ->
   exists out,
     get_output s sender_lists target_lists color_profile resolve active = Ok out).
Proof.
  split; [intros e; apply get_output_raises|apply get_output_returns].
Qed.

Lemma styled_as_length color_profile plain row :
  styled_as color_profile plain row -> length row = length plain.
Proof.
  destruct color_profile as [cp|]; simpl; [|by intros ->].
  intros [style ->]. by rewrite length_map.
Qed.

Lemma make_row_length s color_profile resolve active labelled x :
  length (make_row s color_profile resolve active labelled x) =
    3 + (if active then 1 else 0) + (if resolve then 2 else 0).
Proof. unfold make_row. by destruct active, resolve. Qed.

Lemma build_headers_length color_profile resolve active :
  length (build_headers color_profile resolve active) =
    3 + (if active then 1 else 0) + (if resolve then 2 else 0).
Proof.
  unfold build_headers, style_header, style_list.
  destruct color_profile; rewrite ?length_map; by destruct active, resolve.
Qed.

(** X17: the table is rectangular: every row [get_output] hands to
    [tabulate] has as many cells as there are headers, three and one more
    in liveness mode and two more with name resolution, with or without a
    colour profile. *)
Theorem get_output_rectangular s sender_lists target_lists color_profile
    resolve active rows headers :
  get_output s sender_lists target_lists color_profile resolve active =
    Ok (Tabulate rows headers) ->
  length headers = 3 + (if active then 1 else 0) + (if resolve then 2 else 0) /\
  Forall (fun row => length row = length headers) rows.
Proof.
  rewrite get_output_by_groups. unfold report_by_groups.
  destruct (order_by_desc_count (transactions s)) as [|t0 l]; [done|].
  destruct (mapM (load_transaction s) (t0 :: l)) as [xs|]; simpl; [|done].
  intros [= <- <-]. rewrite build_headers_length. split; [done|].
  pose proof (restructure_styled color_profile 0
                (grouped_report s color_profile resolve active
                   (List.filter (listed sender_lists target_lists) xs))) as Hst.
  apply Forall_forall. intros row Hrow.
  apply list_elem_of_lookup in Hrow as [i Hi].
  destruct (Forall2_lookup_r _ _ _ _ _ Hst Hi) as (plain & Hplain & Hsty).
  rewrite (styled_as_length _ _ _ Hsty).
  apply list_elem_of_lookup_2, grouped_report_rows in Hplain
    as (x & labelled & _ & ->).
  apply make_row_length.
Qed.

Lemma NoDup_first_appearances l : NoDup (first_appearances l).
Proof.
  induction l as [|k l IH]; simpl; [constructor|].
  apply NoDup_cons.
  split; [|by apply NoDup_ListNoDup, List.NoDup_filter, NoDup_ListNoDup].
  intros [_ H]%list_elem_of_In%filter_In.
  by rewrite bool_decide_eq_true_2 in H.
Qed.

Lemma grouped_report_keys s color_profile resolve active xs :
  map fst (grouped_report s color_profile resolve active xs) =
  first_appearances (map sender_of xs).
Proof. unfold grouped_report. rewrite map_map. simpl. apply map_id. Qed.

Lemma rowdict_append_cons k row k' irows (rd : Rowdict) :
  rowdict_append k row ((k', irows) :: rd) =
    (if bool_decide (k' = k) then (k', irows ++ [row]) else (k', irows))
    :: rowdict_append k row rd.
Proof. done. Qed.

Lemma rowdict_append_absent k row (rd : Rowdict) :
  k ∉ map fst rd -> rowdict_append k row rd = rd.
Proof.
  induction rd as [|[k' irows] rd IH]; [done|].
  rewrite rowdict_append_cons. cbn [map fst].
  intros [Hne Hn]%not_elem_of_cons. rewrite IH by done.
  by rewrite bool_decide_eq_false_2.
Qed.

Lemma rowdict_append_insert k row (rd : Rowdict) :
  NoDup (map fst rd) -> k ∈ map fst rd ->
  exists l1 l2,
    concat (map snd rd) = l1 ++ l2 /\
    concat (map snd (rowdict_append k row rd)) = l1 ++ row :: l2.
Proof.
  induction rd as [|[k' irows] rd IH]; [by intros _ ?%elem_of_nil|].
  rewrite rowdict_append_cons. cbn [map fst].
  intros [Hk' Hnd]%NoDup_cons Hin.
  case_bool_decide as Hk.
  - subst k'. rewrite rowdict_append_absent by done.
    exists irows, (concat (map snd rd)). cbn [map snd concat].
    split; [done|]. by rewrite <- app_assoc.
  - apply elem_of_cons in Hin as [->|Hin]; [done|].
    destruct (IH Hnd Hin) as (l1 & l2 & Heq & Heq').
    exists (irows ++ l1), l2. cbn [map snd concat].
    rewrite Heq, Heq'. by rewrite !app_assoc.
Qed.

(** The rows of the groups are the rows of the transactions given, one for
    each, in another order. *)
Lemma grouped_report_one_each s color_profile resolve active xs :
  exists ys,
    ys ≡ₚ xs /\
    Forall2 (fun y row =>
               exists labelled, row = make_row s color_profile resolve active labelled y)
            ys (concat (map snd (grouped_report s color_profile resolve active xs))).
Proof.
  induction xs as [|x xs IH] using rev_ind.
  - exists []. split; constructor.
  - destruct IH as (ys & Hperm & Hrows). rewrite grouped_report_snoc.
    case_bool_decide as Hin.
    + destruct (rowdict_append_insert (sender_of x)
                  (make_row s color_profile resolve active false x)
                  (grouped_report s color_profile resolve active xs))
        as (l1 & l2 & Heq & ->).
      * rewrite grouped_report_keys. apply NoDup_first_appearances.
      * rewrite grouped_report_keys. by apply elem_of_first_appearances.
      * rewrite Heq in Hrows.
        apply Forall2_app_inv_r in Hrows as (ys1 & ys2 & H1 & H2 & ->).
        exists (ys1 ++ x :: ys2). split.
        -- rewrite <- Hperm, <- Permutation_middle. apply Permutation_cons_append.
        -- apply Forall2_app; [done|]. constructor; [by eexists|done].
    + exists (ys ++ [x]). split; [by rewrite Hperm|].
      rewrite map_app, concat_app. apply Forall2_app; [done|].
      simpl. constructor; [by eexists|constructor].
Qed.

Lemma Forall2_chain {A B C} (P : A -> B -> Prop) (Q : B -> C -> Prop) l1 l2 l3 :
  Forall2 P l1 l2 -> Forall2 Q l2 l3 ->
  Forall2 (fun a c => exists b, P a b /\ Q b c) l1 l3.
Proof.
  intros H. revert l3. induction H as [|a b l1 l2 Hab _ IH]; intros l3 H3.
  - inversion H3. constructor.
  - inversion H3 as [|b' c l2' l3' Hbc H3']; subst. constructor; [by exists b|by apply IH].
Qed.

(** X18: the report loses no transaction and shows none twice: the rows of
    the table are, one for one, the rows of the transactions of the ledger
    that the sender and target lists keep, taken in some order, each row
    styled when a profile is given; hence they are the rows of all the
    transactions of the ledger, and as many, when no list is given. *)
Theorem get_output_row_count s sender_lists target_lists color_profile
    resolve active rows headers :
  get_output s sender_lists target_lists color_profile resolve active =
    Ok (Tabulate rows headers) ->
  exists xs ys,
    mapM (load_transaction s) (order_by_desc_count (transactions s)) = Ok xs /\
    map the_transaction xs ≡ₚ transactions s /\
    ys ≡ₚ List.filter (listed sender_lists target_lists) xs /\
    Forall2 (fun y row =>
               exists labelled,
                 styled_as color_profile
                   (make_row s color_profile resolve active labelled y) row)
            ys rows /\
    (sender_lists = None -> target_lists = None ->
     map the_transaction ys ≡ₚ transactions s /\
     length rows = length (transactions s)).
Proof.
  rewrite get_output_by_groups. unfold report_by_groups.
  destruct (order_by_desc_count (transactions s)) as [|t0 l] eqn:Hord; [done|].
  destruct (mapM (load_transaction s) (t0 :: l)) as [xs|] eqn:Hxs; simpl; [|done].
  intros [= <- _].
  destruct (grouped_report_one_each s color_profile resolve active
              (List.filter (listed sender_lists target_lists) xs))
    as (ys & Hys & Hrows).
  exists xs, ys. split; [done|].
  assert (map the_transaction xs ≡ₚ transactions s) as Hperm.
  { rewrite (mapM_load_transactions _ _ _ Hxs), <- Hord.
    apply merge_sort_Permutation. }
  split; [done|]. split; [done|].
  assert (Forall2 (fun y row =>
                     exists labelled,
                       styled_as color_profile
                         (make_row s color_profile resolve active labelled y) row)
                  ys (restructure color_profile 0
                        (grouped_report s color_profile resolve active
                           (List.filter (listed sender_lists target_lists) xs))))
    as Hone.
  { eapply Forall2_impl;
      [exact (Forall2_chain _ _ _ _ _ Hrows (restructure_styled color_profile 0 _))|].
    simpl. intros y row (plain & [labelled ->] & Hstyled). by exists labelled. }
  split; [done|]. intros -> ->.
  assert (ys ≡ₚ xs) as Hall.
  { rewrite Hys. rewrite (filter_ext_in _ (fun _ => true)) by done.
    clear. induction xs as [|x xs IH]; simpl; [done|]. by rewrite IH. }
  split; [by rewrite Hall|].
  rewrite <- (Forall2_length _ _ _ Hone), <- (Permutation_length Hperm), length_map.
  by rewrite Hall.
Qed.

Lemma restructure_from color_profile counter (rowdict : Rowdict) :
  restructure (Some color_profile) counter rowdict =
    concat (imap (fun i kv =>
                    map (fun row =>
                           style_list row
                             (if Nat.odd (S (counter + i))
                              then odd_style color_profile
                              else even_style color_profile))
                        kv.2)
                 rowdict).
Proof.
  revert counter. induction rowdict as [|[k irows] rd IH]; intros counter; [done|].
  cbn [restructure]. rewrite imap_cons. cbn [concat]. f_equal.
  - rewrite Nat.add_0_r. by destruct (Nat.odd (S counter)).
  - rewrite IH. f_equal. apply imap_ext. intros i kv _. simpl.
    by replace (S (counter + S i)) with (S (S counter + i)) by lia.
Qed.

(** X19: with a colour profile the groups of senders alternate between the
    two styles: every cell of the rows of the first, third, fifth group is
    styled with the odd style, every cell of the rows of the second, fourth
    group with the even style, and every header with the header style. *)
Theorem get_output_styles s sender_lists target_lists color_profile
    resolve active rows headers :
  get_output s sender_lists target_lists (Some color_profile) resolve active =
    Ok (Tabulate rows headers) ->
  exists xs,
    mapM (load_transaction s) (order_by_desc_count (transactions s)) = Ok xs /\
    rows =
      concat (imap (fun i kv =>
                      map (fun row =>
                             style_list row
                               (if Nat.even i
                                then odd_style color_profile
                                else even_style color_profile))
                          kv.2)
                   (grouped_report s (Some color_profile) resolve active
                      (List.filter (listed sender_lists target_lists) xs))) /\
    headers = style_list (build_headers None resolve active)
                         (header_style color_profile).
Proof.
  rewrite get_output_by_groups. unfold report_by_groups.
  destruct (order_by_desc_count (transactions s)) as [|t0 l]; [done|].
  destruct (mapM (load_transaction s) (t0 :: l)) as [xs|]; simpl; [|done].
  intros [= <- <-]. exists xs. split; [done|]. split; [|done].
  rewrite restructure_from. f_equal. apply imap_ext. intros i kv _. simpl.
  by rewrite Nat.odd_succ.
Qed.

(** ** The filter and the capture *)

(** X20: [filter_packet] accepts a packet exactly when it has an ARP layer
    of operation 1 (who-has) whose sender and target no list rejects, and
    then returns the pair of its sender and target addresses; what it
    accepts with lists it accepts without, and [unpack_packet] gives
    [handle_packets] the same pair; without lists it rejects exactly what
    [validate_packet] rejects. *)
Theorem filter_packet_accepts packet sender_lists target_lists :
  (forall e,
     filter_packet packet sender_lists target_lists = Some e <->
     exists arp,
       getlayer_ARP packet = Some arp /\ ARP.op arp = 1%Z /\
       e = (ARP.psrc arp, ARP.pdst arp) /\
       rejects sender_lists (ARP.psrc arp) = false /\
       rejects target_lists (ARP.pdst arp) = false) /\
  (forall e,
     filter_packet packet sender_lists target_lists = Some e ->
     filter_packet packet None None = Some e /\ unpack_packet packet = Ok e) /\
  (filter_packet packet None None = None <-> validate_packet packet = None).
Proof.
  unfold filter_packet, validate_packet, unpack_packet, unpack_arp.
  destruct (getlayer_ARP packet) as [arp|]; simpl.
  - case_bool_decide as Hop; simpl.
    + split; [|split].
      * intros e. split.
        -- destruct (rejects sender_lists (ARP.psrc arp)) eqn:Hs; [done|].
           destruct (rejects target_lists (ARP.pdst arp)) eqn:Ht; [done|].
           intros [= <-]. by exists arp.
        -- intros (arp' & [= <-] & _ & -> & -> & ->). done.
      * intros e.
        destruct (rejects sender_lists (ARP.psrc arp)); [done|].
        destruct (rejects target_lists (ARP.pdst arp)); [done|].
        by intros [= <-].
      * done.
    + split; [|split]; [|done|done].
      intros e. split; [done|]. intros (arp' & [= <-] & Hop' & _). done.
  - split; [|split]; [|done|done].
    intros e. split; [done|]. by intros (arp' & ? & _).
Qed.

Lemma sniffed_accepted arriving redraw_frequency sender_lists target_lists :
  Forall (fun p => is_Some (filter_packet p sender_lists target_lists))
         (do_sniff arriving redraw_frequency sender_lists target_lists).
Proof.
  apply Forall_forall. intros p Hp. unfold do_sniff, sniff in Hp.
  assert (p ∈ List.filter
            (fun pkt => bool_decide (is_Some (filter_packet pkt sender_lists target_lists)))
            arriving) as Hin.
  { destruct redraw_frequency; [done|]. by apply subseteq_take in Hp. }
  apply list_elem_of_In, filter_In in Hin as [_ H].
  by apply bool_decide_eq_true in H.
Qed.

Lemma sniffed_unpack arriving redraw_frequency sender_lists target_lists :
  exists events,
    mapM unpack_packet (do_sniff arriving redraw_frequency sender_lists target_lists)
      = Ok events.
Proof.
  apply mapM_unpack_Ok.
  eapply Forall_impl; [apply sniffed_accepted|]. simpl.
  intros p [e He]. unfold filter_packet, validate_packet in He.
  destruct (getlayer_ARP p); [by eexists|done].
Qed.

Lemma create_db_load dbfile (fs : gmap string File) :
  (forall f, fs !! dbfile = Some f -> exists d, f = SqliteFile d /\ db_wf d) ->
  exists d,
    load dbfile (create_db dbfile false fs) = Ok d /\ db_wf d /\
    (fs !! dbfile = None -> d = empty_db).
Proof.
  intros Hfs. unfold create_db, load. rewrite andb_false_r, orb_false_r.
  destruct (fs !! dbfile) as [f|] eqn:Hf.
  - destruct (Hfs f eq_refl) as (d & -> & Hwf).
    rewrite bool_decide_eq_true_2 by (by eexists). simpl. rewrite Hf.
    exists d. done.
  - rewrite bool_decide_eq_false_2 by (by intros [? ?]). simpl.
    rewrite lookup_insert_eq. exists empty_db. split; [done|]. split; [|done].
    split; simpl; constructor.
Qed.

(** X21: live capture on a database file that is missing or holds an intact
    database: the file is opened, created empty when it was missing; when
    [active] is set and no interface is given the call ends with the
    configuration error, after the file was created and before anything
    went to the network; otherwise it raises nothing: the packets the
    sniffer kept are all ingested, the database stored in the file is
    intact, and the report on it is returned with the packets. *)
Theorem async_sniff_outcome interface redraw_frequency sender_lists target_lists
    dbfile resolve color_profile active (arriving : list Packet)
    (fs : gmap string File) calls :
  (forall f, fs !! dbfile = Some f -> exists d, f = SqliteFile d /\ db_wf d) ->
  exists d,
    load dbfile (create_db dbfile false fs) = Ok d /\
    (fs !! dbfile = None -> d = empty_db) /\
    if active && negb (truthy interface)
    then
      async_sniff interface redraw_frequency sender_lists target_lists dbfile
        resolve color_profile active arriving fs calls =
        (create_db dbfile false fs, calls,
         Raise (Exception "Active ARP resolution requires an interface ip"))
    else
      exists w out,
        handle_packets (do_sniff arriving redraw_frequency sender_lists target_lists)
          resolve active interface (mkWorld d calls) = Ok w /\
        db_wf (db w) /\
        get_output (db w) sender_lists target_lists color_profile resolve active
          = Ok out /\
        async_sniff interface redraw_frequency sender_lists target_lists dbfile
          resolve color_profile active arriving fs calls =
          (store dbfile (db w) (create_db dbfile false fs), net w,
           Ok (out, do_sniff arriving redraw_frequency sender_lists target_lists)).
Proof.
  intros Hfs. destruct (create_db_load dbfile fs Hfs) as (d & Hload & Hwf & Hnew).
  exists d. split; [done|]. split; [done|].
  unfold async_sniff. rewrite Hload.
  destruct (get_output_returns d sender_lists target_lists color_profile resolve active
              (db_wf_loads d Hwf)) as [out0 Hout0].
  assert ((if bool_decide (is_Some (fs !! dbfile))
           then get_output d sender_lists target_lists color_profile resolve active
           else Ok (Message "")) = Ok (if bool_decide (is_Some (fs !! dbfile))
                                       then out0 else Message "")) as ->.
  { by destruct (bool_decide (is_Some (fs !! dbfile))). }
  destruct (sniffed_unpack arriving redraw_frequency sender_lists target_lists)
    as [events Hev].
  unfold handle_packets. rewrite Hev. simpl.
  destruct (active && negb (truthy interface)); [done|].
  destruct (handle_events_counts resolve active interface events (mkWorld d calls) Hwf)
    as [Hwf' _].
  destruct (get_output_returns _ sender_lists target_lists color_profile resolve active
              (db_wf_loads _ Hwf')) as [out Hout].
  eexists _, out. split; [done|]. split; [done|]. split; [done|].
  by rewrite Hout.
Qed.

(** ** Reverse names *)

Lemma created_ptrs ip resolve ptr interface active w r ps cs :
  created ip resolve ptr interface active w = (r, ps, cs) ->
  ps = [] \/ exists v, ps = [PTR.mk (next_ip_id (db w)) v].
Proof.
  unfold created.
  destruct (truthy ptr), resolve, (truthy (resolver_query (net w) ip)), active;
    intros [= _ <- _]; eauto.
Qed.

Lemma ids_below_next (s : Session) (i : nat) :
  i ∈ map IP.id (ips s) -> i < next_ip_id s.
Proof.
  intros (r & -> & Hr)%list_elem_of_fmap. by apply next_ip_id_fresh.
Qed.

Lemma ptr_tables_kept :
  kept_by_get_or_create_ip
    (fun w => ptrs_owned (db w) /\ NoDup (map PTR.ip_id (ptrs (db w)))).
Proof.
  intros ip resolve ptr interface active w [Hown Hnd].
  destruct (get_or_create_ip ip resolve ptr interface active w) as [r w'] eqn:Hg.
  apply get_or_create_ip_cases in Hg as [[_ ->]|[Hq (ps & cs & Hc & ->)]]; [done|].
  simpl. unfold ptrs_owned in *. simpl.
  assert (Forall (fun p => PTR.ip_id p ∈ map IP.id (ips (db w) ++ [r])) (ptrs (db w)))
    as Hold.
  { eapply Forall_impl; [exact Hown|]. simpl. intros p Hp.
    rewrite map_app. apply elem_of_app. by left. }
  pose proof (created_row _ _ _ _ _ _ _ _ _ Hc) as [Hid _].
  apply created_ptrs in Hc as [->|[v ->]]; [by rewrite !app_nil_r|].
  split.
  - apply Forall_app. split; [done|]. constructor; [|constructor]. simpl.
    rewrite map_app. apply elem_of_app. right. simpl. rewrite Hid. by left.
  - rewrite map_app. simpl. apply NoDup_app. split; [done|].
    split; [|apply NoDup_singleton].
    intros i Hi ->%list_elem_of_singleton.
    apply list_elem_of_fmap in Hi as (p & Hp & Hin).
    rewrite Forall_forall in Hown. apply Hown, ids_below_next in Hin. lia.
Qed.

Lemma filter_nothing {A} (f : A -> bool) (l : list A) :
  (forall x, x ∈ l -> f x = false) -> List.filter f l = [].
Proof.
  induction l as [|x l IH]; simpl; intros H; [done|].
  rewrite (H x) by left. apply IH. intros y Hy. apply H. by right.
Qed.

Lemma one_record_per_key (l : list PTR.t) (i : nat) :
  NoDup (map PTR.ip_id l) ->
  length (List.filter (fun p => bool_decide (PTR.ip_id p = i)) l) <= 1.
Proof.
  intros Hnd. rewrite filter_unique_key by done.
  destruct (List.find _ l); simpl; lia.
Qed.

(** X22: an address never gets a second reverse name: on a database where
    every PTR record belongs to an address and no address has two, after any
    sequence of calls every PTR record belongs to an address and every
    address has at most one. *)
Theorem ptr_records_unique ops w :
  ptrs_owned (db w) ->
  NoDup (map PTR.ip_id (ptrs (db w))) ->
  ptrs_owned (db (run_ops ops w)) /\
  NoDup (map PTR.ip_id (ptrs (db (run_ops ops w)))) /\
  forall r, length (ip_ptr r (db (run_ops ops w))) <= 1.
Proof.
  intros Hown Hnd.
  assert (ptrs_owned (db (run_ops ops w)) /\
          NoDup (map PTR.ip_id (ptrs (db (run_ops ops w))))) as [H1 H2].
  { apply (run_ops_kept
             (fun w => ptrs_owned (db w) /\ NoDup (map PTR.ip_id (ptrs (db w))))).
    - apply ptr_tables_kept.
    - intros w0 txs H. exact H.
    - done. }
  split; [done|]. split; [done|].
  intros r. unfold ip_ptr. by apply one_record_per_key.
Qed.

Lemma ip_ptr_new (s : Session) (r : IP.t) (ps : list PTR.t) txs :
  ptrs_owned s ->
  IP.id r = next_ip_id s ->
  Forall (fun p => PTR.ip_id p = next_ip_id s) ps ->
  ip_ptr r (mkSession (ips s ++ [r]) (ptrs s ++ ps) txs) = ps /\
  forall r', r' ∈ ips s ->
    ip_ptr r' (mkSession (ips s ++ [r]) (ptrs s ++ ps) txs) = ip_ptr r' s.
Proof.
  unfold ptrs_owned. rewrite !Forall_forall.
  intros Hown Hid Hps. unfold ip_ptr. simpl. rewrite !List.filter_app.
  split.
  - rewrite filter_nothing.
    + simpl. apply forallb_filter_id, forallb_forall. intros p Hp.
      apply bool_decide_eq_true.
      rewrite Hid. apply Hps. by apply list_elem_of_In.
    + intros p Hp. apply bool_decide_eq_false. rewrite Hid.
      apply Hown, ids_below_next in Hp. lia.
  - intros r' Hr'. rewrite List.filter_app, (filter_nothing _ ps); [by rewrite app_nil_r|].
    intros p Hp. apply bool_decide_eq_false.
    rewrite (Hps p Hp).
    apply next_ip_id_fresh in Hr'. lia.
Qed.

Lemma carry_step isess d0 r w :
  r ∈ ips isess ->
  (ptrs_owned (db w) /\
   (forall x, x ∈ ips d0 -> x ∈ ips (db w)) /\
   forall r', r' ∈ ips (db w) -> names_carried isess d0 (db w) r') ->
  let w' := snd (get_or_create_ip (IP.value r) false (carried_ptr r isess) None false w) in
  ptrs_owned (db w') /\
  (forall x, x ∈ ips d0 -> x ∈ ips (db w')) /\
  forall r', r' ∈ ips (db w') -> names_carried isess d0 (db w') r'.
Proof.
  intros Hr (Hown & Hsub & Hall). simpl.
  destruct (get_or_create_ip (IP.value r) false (carried_ptr r isess) None false w)
    as [r0 w'] eqn:Hg.
  apply get_or_create_ip_cases in Hg as [[_ ->]|[Hq (ps & cs & Hc & ->)]]; [done|].
  pose proof (created_row _ _ _ _ _ _ _ _ _ Hc) as [Hid Hv].
  assert (ps = carried_records isess r (IP.id r0)) as Hps.
  { revert Hc. unfold created, carried_records. rewrite Hid.
    destruct (truthy (carried_ptr r isess)); by intros [= _ <- _]. }
  assert (Forall (fun p => PTR.ip_id p = next_ip_id (db w)) ps) as Hnew.
  { rewrite Hps. unfold carried_records.
    destruct (truthy (carried_ptr r isess)); repeat constructor. done. }
  destruct (ip_ptr_new (db w) r0 ps (transactions (db w)) Hown Hid Hnew) as [Hp0 Hpold].
  simpl. split; [|split].
  - unfold ptrs_owned in *. simpl. apply Forall_app. split.
    + eapply Forall_impl; [exact Hown|]. simpl. intros p Hp.
      rewrite map_app. apply elem_of_app. by left.
    + eapply Forall_impl; [exact Hnew|]. simpl. intros p ->.
      rewrite map_app. apply elem_of_app. right. simpl. rewrite Hid. by left.
  - intros x Hx. apply elem_of_app. left. by apply Hsub.
  - intros r' [Hr'|Hr']%elem_of_app.
    + destruct (Hall r' Hr') as [[Hin Heq]|(Hk & r1 & Hr1 & Hv1 & Heq)].
      * left. split; [done|]. by rewrite Hpold.
      * right. split; [done|]. exists r1. by rewrite Hpold.
    + apply list_elem_of_singleton in Hr' as ->. right. split.
      * intros Hk. apply query_ip_None_values in Hq. apply Hq.
        unfold knows in Hk. apply list_elem_of_fmap in Hk as (x & Hxv & Hx).
        apply list_elem_of_fmap. exists x. split; [congruence|by apply Hsub].
      * exists r. split; [done|]. split; [done|]. by rewrite Hp0.
Qed.

Lemma names_carried_ext isess d0 d d' r' :
  ptrs d' = ptrs d -> names_carried isess d0 d r' -> names_carried isess d0 d' r'.
Proof.
  intros Hp. unfold names_carried, ip_ptr. by rewrite Hp.
Qed.

Lemma upsert_ptrs sid tid n s : ptrs (upsert_transaction sid tid n s) = ptrs s.
Proof. unfold upsert_transaction. by destruct (query_transaction sid tid s). Qed.

Lemma import_carries isess d0 w :
  ptrs_owned (db w) ->
  (forall x, x ∈ ips d0 -> x ∈ ips (db w)) ->
  (forall r', r' ∈ ips (db w) -> names_carried isess d0 (db w) r') ->
  forall r', r' ∈ ips (db (merge isess w).1) ->
    names_carried isess d0 (db (merge isess w).1) r'.
Proof.
  intros Hown Hsub Hall.
  apply (for_each_kept
           (fun w => ptrs_owned (db w) /\
                     (forall x, x ∈ ips d0 -> x ∈ ips (db w)) /\
                     forall r', r' ∈ ips (db w) -> names_carried isess d0 (db w) r'));
    [|done].
  clear w Hown Hsub Hall. intros w t Hw. unfold or_keep.
  destruct (import_transaction isess w t) as [w'|e] eqn:Hi; [|done]. simpl.
  apply import_transaction_steps in Hi as (ts & tt & Hts & Htt & ->).
  apply find_Some_elem in Hts as [Hts _]. apply find_Some_elem in Htt as [Htt _].
  pose proof (carry_step isess d0 ts w Hts Hw) as H1. simpl in H1.
  destruct (get_or_create_ip (IP.value ts) false (carried_ptr ts isess) None false w)
    as [sender w1].
  pose proof (carry_step isess d0 tt w1 Htt H1) as H2. simpl in H2.
  destruct (get_or_create_ip (IP.value tt) false (carried_ptr tt isess) None false w1)
    as [target w2].
  simpl in *. destruct H2 as (Ho & Hs & Ha).
  unfold ptrs_owned. rewrite upsert_ips, upsert_ptrs.
  split; [done|]. split; [done|].
  intros r' Hr'. eapply names_carried_ext; [apply upsert_ptrs|]. by apply Ha.
Qed.

(** X23: an import carries the reverse names over and changes none: after
    the import of a source into a database whose PTR records all belong to
    an address, ended or stopped by an exception, every address the database
    had has the PTR records it had, and every address the import created has
    the first reverse name of a row of the source for that address, if that
    row has one that is not empty, and no PTR record otherwise. *)
Theorem merge_carries_names isess w r' :
  ptrs_owned (db w) ->
  r' ∈ ips (db (merge isess w).1) ->
  names_carried isess (db w) (db (merge isess w).1) r'.
Proof.
  intros Hown. apply import_carries; [done|done|].
  intros r Hr. by left.
Qed.

(** ** Sessions on an intact database *)

(** X24: a session on an intact database can always be reported: after any
    sequence of calls the keys of the addresses are distinct, every
    transaction refers to addresses of the table, and [get_output] returns,
    whatever the lists, the profile and the modes. *)
Theorem session_report_returns ops w sender_lists target_lists color_profile
    resolve active :
  db_wf (db w) ->
  db_wf (db (run_ops ops w)) /\
  exists out,
    get_output (db (run_ops ops w)) sender_lists target_lists color_profile
      resolve active = Ok out.
Proof.
  intros Hwf. apply (run_ops_wf ops) in Hwf. split; [done|].
  by apply get_output_returns, db_wf_loads.
Qed.

Lemma probed_mac_kept :
  kept_by_get_or_create_ip
    (fun w => forall r, r ∈ ips (db w) ->
                IP.mac_address r <> Some "" /\
                (is_Some (IP.mac_address r) -> IP.arp_resolve_attempted r = true)).
Proof.
  intros ip resolve ptr interface active w Hw.
  destruct (get_or_create_ip ip resolve ptr interface active w) as [r w'] eqn:Hg.
  apply get_or_create_ip_cases in Hg as [[_ ->]|[Hq (ps & cs & Hc & ->)]]; [done|].
  cbn [snd db ips].
  intros r0 [Hr0|Hr0%list_elem_of_singleton]%elem_of_app; [by apply Hw|subst r0].
  destruct (created_probe _ _ _ _ _ _ _ _ _ Hc) as (Hflag & Hoff & Hon).
  destruct active.
  - split; [|done]. destruct Hon as (answer & _ & ->); [done|].
    destruct (truthy answer) eqn:Ht; [|done].
    apply truthy_Some in Ht as (m & -> & Hne). congruence.
  - rewrite Hoff by done. split; [done|]. by intros [? ?].
Qed.

(** X25: a MAC address is only ever stored by a probe: on a database where
    no stored MAC address is the empty string and every address that has
    one is marked as probed, the same holds after any sequence of calls. *)
Theorem mac_address_from_probe ops w :
  (forall r, r ∈ ips (db w) ->
     IP.mac_address r <> Some "" /\
     (is_Some (IP.mac_address r) -> IP.arp_resolve_attempted r = true)) ->
  forall r, r ∈ ips (db (run_ops ops w)) ->
    IP.mac_address r <> Some "" /\
    (is_Some (IP.mac_address r) -> IP.arp_resolve_attempted r = true).
Proof.
  apply (run_ops_kept
           (fun w => forall r, r ∈ ips (db w) ->
                       IP.mac_address r <> Some "" /\
                       (is_Some (IP.mac_address r) ->
                        IP.arp_resolve_attempted r = true))).
  - apply probed_mac_kept.
  - intros w0 txs H. exact H.
Qed.

End Eavesarp.

(** * The statements on the sample data *)

(** Three identical events on a fresh session, with enrichment on. *)
Lemma handle_packets_count_witness :
  db_wf (db Example.fresh) /\
  true && negb (truthy (Some "eth0")) = false /\
  exists w',
    handle_packets Example.resolver_query Example.sr
      (replicate 3 (Example.who_has "10.0.0.1" "10.0.0.2"))
      true true (Some "eth0") Example.fresh = Ok w' /\
    count_of "10.0.0.1" "10.0.0.2" (db w') = Some 3%Z.
Proof.
  assert (db_wf (db Example.fresh)) as Hwf by (split; constructor).
  split; [exact Hwf|]. split; [reflexivity|].
  destruct (handle_packets_count Example.resolver_query Example.sr true true
              (Some "eth0") (ARP.mk 1 "52:54:00:00:00:01" "10.0.0.1" "10.0.0.2")
              3 Example.fresh Hwf eq_refl)
    as (w' & Hh & _ & _ & Hc & _).
  exists w'. split; [exact Hh|]. apply Hc; [lia|reflexivity].
Defined.

Lemma get_or_create_ip_idempotent_witness :
  let ops := [CallHandlePackets [Example.who_has "A" "B"; Example.who_has "B" "A"]
                true true (Some "eth0");
              CallGetOrCreateIp "A" true None None false;
              CallMerge (Example.ledger_AB 2)] in
  NoDup (map IP.value (ips (db Example.fresh))) /\
  NoDup (map IP.value
           (ips (db (run_ops Example.resolver_query Example.sr ops Example.fresh)))).
Proof.
  intros ops. split; [constructor|].
  apply (proj2 (get_or_create_ip_idempotent Example.resolver_query Example.sr
                  "A" true None None false true None None false ops Example.fresh)).
  constructor.
Defined.

Lemma merge_adds_counts_witness :
  let isess := Example.ledger_AB 2 in
  let w := mkWorld (Example.ledger_AB 3) [] in
  let t := Transaction.mk 1 2 2 in
  db_wf (db w) /\
  ip_by_id (Transaction.sender_ip_id t) isess = Some (IP.mk 1 "A" None false) /\
  ip_by_id (Transaction.target_ip_id t) isess = Some (IP.mk 2 "B" None false) /\
  exists w',
    import_transaction Example.resolver_query Example.sr isess w t = Ok w' /\
    count_of "A" "B" (db w') = Some 5%Z.
Proof.
  intros isess w t.
  assert (db_wf (db w)) as Hwf by (apply (bool_decide_unpack _); vm_compute; exact I).
  split; [exact Hwf|]. split; [reflexivity|]. split; [reflexivity|].
  destruct (merge_adds_counts Example.resolver_query Example.sr isess w t
              (IP.mk 1 "A" None false) (IP.mk 2 "B" None false)
              Hwf eq_refl eq_refl)
    as [(w' & Hi & _ & _ & Hc & _) _].
  exists w'. split; [exact Hi|]. apply (Hc 3%Z). reflexivity.
Defined.

(** C3, as stated: the second merge of [{(A,B):2}] into [{(A,B):3}] does not
    give 8. *)
Lemma merge_twice_is_not_8 :
  let once := fst (merge Example.resolver_query Example.sr (Example.ledger_AB 2)
                     (mkWorld (Example.ledger_AB 3) [])) in
  let twice := fst (merge Example.resolver_query Example.sr (Example.ledger_AB 2) once) in
  count_of "A" "B" (db once) = Some 5%Z /\
  count_of "A" "B" (db twice) = Some 7%Z /\
  count_of "A" "B" (db twice) <> Some 8%Z.
Proof. vm_compute. split; [reflexivity|]. split; [reflexivity|discriminate]. Qed.

Lemma report_grouped_by_sender_witness :
  let s := Example.ledger_interleaved in
  let xs := [mkLoaded (Transaction.mk 1 2 3) (IP.mk 1 "A" None false) (IP.mk 2 "B" None false);
             mkLoaded (Transaction.mk 3 4 2) (IP.mk 3 "C" None false) (IP.mk 4 "D" None false);
             mkLoaded (Transaction.mk 1 5 1) (IP.mk 1 "A" None false) (IP.mk 5 "E" None false)] in
  mapM (load_transaction s) (order_by_desc_count (transactions s)) = Ok xs /\
  StronglySorted (fun x y => count_ge (the_transaction x) (the_transaction y))
    (List.filter (fun x => bool_decide (sender_of x = "A"))
       (List.filter (listed Example.Lists Example.Lists_bool Example.check None None) xs)).
Proof.
  intros s xs.
  assert (mapM (load_transaction s) (order_by_desc_count (transactions s)) = Ok xs)
    as Hxs by (vm_compute; reflexivity).
  split; [exact Hxs|].
  destruct (report_grouped_by_sender Example.resolver_query Example.sr Example.stylize
              Example.Lists Example.Lists_bool Example.check s None None None false false)
    as (_ & _ & _ & Hsorted & _).
  exact (Hsorted xs "A" Hxs).
Defined.

(** C4, as stated: on the ledger [{(A,B):3, (C,D):2, (A,E):1}] the rows of
    the report are not in the order of the counts; the row of [(A,E)], count
    1, joins the group of A before the row of [(C,D)], count 2. *)
Lemma report_rows_not_in_query_order :
  let s := Example.ledger_interleaved in
  let xs := [mkLoaded (Transaction.mk 1 2 3) (IP.mk 1 "A" None false) (IP.mk 2 "B" None false);
             mkLoaded (Transaction.mk 3 4 2) (IP.mk 3 "C" None false) (IP.mk 4 "D" None false);
             mkLoaded (Transaction.mk 1 5 1) (IP.mk 1 "A" None false) (IP.mk 5 "E" None false)] in
  mapM (load_transaction s) (order_by_desc_count (transactions s)) = Ok xs /\
  rows_in_query_order s None false false None xs =
    [["A"; "B"; "3"]; ["C"; "D"; "2"]; ["A"; "E"; "1"]] /\
  get_output Example.stylize Example.Lists Example.Lists_bool Example.check
    s None None None false false =
    Ok (Tabulate [["A"; "B"; "3"]; [""; "E"; "1"]; ["C"; "D"; "2"]]
                 ["Sender"; "Target"; "ARP#"]) /\
  get_output Example.stylize Example.Lists Example.Lists_bool Example.check
    s None None None false false <>
    Ok (Tabulate (rows_in_query_order s None false false None xs)
                 ["Sender"; "Target"; "ARP#"]).
Proof.
  vm_compute. split; [reflexivity|]. split; [reflexivity|].
  split; [reflexivity|discriminate].
Qed.

Lemma arp_probe_at_most_once_witness :
  let w := run_ops Example.resolver_query Example.sr Example.capture
             (mkWorld empty_db []) in
  0 < probes "10.0.0.4" (net w) /\
  query_ip "10.0.0.4" (db w) = Some (IP.mk 4 "10.0.0.4" None true) /\
  exists r, query_ip "10.0.0.4" (db w) = Some r /\
            IP.arp_resolve_attempted r = true /\
            forall ops',
              query_ip "10.0.0.4"
                (db (run_ops Example.resolver_query Example.sr ops' w)) = Some r.
Proof.
  intros w.
  assert (0 < probes "10.0.0.4" (net w)) as Hp by (vm_compute; lia).
  split; [exact Hp|]. split; [vm_compute; reflexivity|].
  destruct (arp_probe_at_most_once Example.resolver_query Example.sr
              empty_db Example.capture) as (_ & H2 & _).
  exact (H2 "10.0.0.4" Hp).
Defined.

Lemma reverse_lookup_at_most_once_witness :
  let w := run_ops Example.resolver_query Example.sr Example.capture
             (mkWorld empty_db []) in
  0 < reverse_lookups "10.0.0.1" (net w) /\
  reverse_lookups "10.0.0.1" (net w) <= 1 /\
  is_Some (query_ip "10.0.0.1" (db w)) /\
  ptrs (db w) = [PTR.mk 1 "gw.lan."].
Proof.
  intros w.
  assert (0 < reverse_lookups "10.0.0.1" (net w)) as Hp by (vm_compute; lia).
  split; [exact Hp|].
  destruct (reverse_lookup_at_most_once Example.resolver_query Example.sr
              empty_db Example.capture) as (H1 & H2 & _).
  split; [exact (H1 "10.0.0.1")|]. split; [exact (H2 "10.0.0.1" Hp)|].
  vm_compute. reflexivity.
Defined.



Lemma rejected_addresses_stay_out_witness :
  let sender_lists : option Example.Lists := Some ["X"] in
  let arriving := [Example.who_has "X" "B"; Example.who_has "A" "B"] in
  (forall d, (∅ : gmap string File) !! "capture.db" = Some (SqliteFile d) ->
             ~ knows d "X") /\
  (forall p, p ∈ arriving -> names p "X" ->
     filter_packet Example.Lists Example.Lists_bool Example.check p sender_lists None
       = None) /\
  forall d',
    (async_sniff Example.resolver_query Example.sr Example.stylize
       Example.Lists Example.Lists_bool Example.check
       (Some "eth0") 0 sender_lists None "capture.db" true None true
       arriving ∅ []).1.1 !! "capture.db" = Some (SqliteFile d') ->
    ~ knows d' "X" /\ forall t, t ∈ transactions d' -> ~ refers_to d' t "X".
Proof.
  intros sender_lists arriving.
  assert (forall d, (∅ : gmap string File) !! "capture.db" = Some (SqliteFile d) ->
                    ~ knows d "X") as Hfs.
  { intros d Hd. rewrite lookup_empty in Hd. discriminate. }
  assert (forall p, p ∈ arriving -> names p "X" ->
            filter_packet Example.Lists Example.Lists_bool Example.check
              p sender_lists None = None) as Hrej.
  { intros p Hp Hn. unfold arriving in Hp.
    apply elem_of_cons in Hp as [->|Hp]; [reflexivity|].
    apply elem_of_cons in Hp as [->|Hp]; [|inversion Hp].
    destruct Hn as [Hn|Hn]; discriminate Hn. }
  split; [exact Hfs|]. split; [exact Hrej|].
  exact (proj1 (rejected_addresses_stay_out Example.resolver_query Example.sr
                  Example.stylize Example.Lists Example.Lists_bool Example.check
                  "X" sender_lists None (Some "eth0") 0 "capture.db" true None true
                  "capture.pcap" arriving ∅ [] Hfs) Hrej).
Defined.

(** C8, as stated: with X on the deny-list of senders the filter rejects the
    event [(X, B)]; the import of a capture file that holds it creates the
    entity of X and the transaction [(X, B)] all the same; and in live
    capture the entity of X is created as soon as an accepted event names X
    as target. *)
Lemma pcap_import_ignores_lists :
  let sender_lists : option Example.Lists := Some ["X"] in
  let imported :=
    mkSession [IP.mk 1 "X" None false; IP.mk 2 "B" None false] []
              [Transaction.mk 1 2 1] in
  let captured :=
    mkSession [IP.mk 1 "A" None false; IP.mk 2 "X" None false] []
              [Transaction.mk 1 2 1] in
  filter_packet Example.Lists Example.Lists_bool Example.check
    (Example.who_has "X" "B") sender_lists None = None /\
  (analyze Example.resolver_query Example.sr Example.stylize
     Example.Lists Example.Lists_bool Example.check
     "out.db" sender_lists None ["capture.pcap"] [] None true
     Example.capture_file []).1.1 !! "out.db" = Some (SqliteFile imported) /\
  knows imported "X" /\
  refers_to imported (Transaction.mk 1 2 1) "X" /\
  (async_sniff Example.resolver_query Example.sr Example.stylize
     Example.Lists Example.Lists_bool Example.check
     (Some "eth0") 0 sender_lists None "capture.db" false None false
     [Example.who_has "X" "B"; Example.who_has "A" "X"] ∅ []).1.1 !! "capture.db"
    = Some (SqliteFile captured) /\
  knows captured "X".
Proof.
  intros sender_lists imported captured.
  split; [reflexivity|]. split; [vm_compute; reflexivity|].
  split; [unfold knows; apply (bool_decide_unpack _); vm_compute; exact I|].
  split; [exists (IP.mk 1 "X" None false); split; [by left|]; split; [reflexivity|by left]|].
  split; [vm_compute; reflexivity|].
  unfold knows. apply (bool_decide_unpack _); vm_compute; exact I.
Qed.

(** C9 at the failing input: a source database that does not exist is
    created empty and imported as such, no exception is raised; a capture
    file that does not exist stops the import with the error of [rdpcap]. *)
Lemma analyze_missing_sqlite_file :
  let run := analyze Example.resolver_query Example.sr Example.stylize
               Example.Lists Example.Lists_bool Example.check "out.db" None None in
  (run [] ["missing.db"] None true ∅ []).2 = Ok (Message no_records) /\
  (run [] ["missing.db"] None true ∅ []).1.1 !! "missing.db" = Some (SqliteFile empty_db) /\
  (run ["missing.pcap"] [] None true ∅ []).2 = Raise (FileNotFoundError "missing.pcap").
Proof. vm_compute. split; [reflexivity|]. split; reflexivity. Qed.

Lemma no_records_iff_empty_witness :
  let s := Example.ledger_AB 3 in
  let sender_lists : option Example.Lists := Some ["A"] in
  transactions s <> [] /\
  (forall t, t ∈ transactions s ->
     exists t_sender t_target,
       ip_by_id (Transaction.sender_ip_id t) s = Some t_sender /\
       ip_by_id (Transaction.target_ip_id t) s = Some t_target /\
       (rejects Example.Lists Example.Lists_bool Example.check sender_lists
          (IP.value t_sender) = true \/
        rejects Example.Lists Example.Lists_bool Example.check None
          (IP.value t_target) = true)) /\
  get_output Example.stylize Example.Lists Example.Lists_bool Example.check
    s sender_lists None None true false =
    Ok (Tabulate [] ["Sender"; "Target"; "ARP#"; "Sender PTR"; "Target PTR"]).
Proof.
  intros s sender_lists.
  assert (transactions s <> []) as Hne by discriminate.
  assert (forall t, t ∈ transactions s ->
            exists t_sender t_target,
              ip_by_id (Transaction.sender_ip_id t) s = Some t_sender /\
              ip_by_id (Transaction.target_ip_id t) s = Some t_target /\
              (rejects Example.Lists Example.Lists_bool Example.check sender_lists
                 (IP.value t_sender) = true \/
               rejects Example.Lists Example.Lists_bool Example.check None
                 (IP.value t_target) = true)) as Hall.
  { intros t Ht. apply elem_of_cons in Ht as [->|Ht]; [|inversion Ht].
    exists (IP.mk 1 "A" None false), (IP.mk 2 "B" None false).
    split; [reflexivity|]. split; [reflexivity|]. left. reflexivity. }
  split; [exact Hne|]. split; [exact Hall|].
  exact (proj2 (no_records_iff_empty Example.stylize Example.Lists Example.Lists_bool
                  Example.check s sender_lists None None true false) Hne Hall).
Defined.

(** * Further statements on the sample data *)

(** ** Batches *)

(** Two events of [(A,B)] and one of [(C,B)] on the ledger [{(A,B):3}]. *)
Lemma handle_packets_counts_events_witness :
  let packets := [Example.who_has "A" "B"; Example.who_has "C" "B";
                  Example.who_has "A" "B"] in
  let events := [("A", "B"); ("C", "B"); ("A", "B")] in
  let w := mkWorld (Example.ledger_AB 3) [] in
  db_wf (db w) /\
  mapM unpack_packet packets = Ok events /\
  true && negb (truthy (Some "eth0")) = false /\
  exists w',
    handle_packets Example.resolver_query Example.sr packets false true (Some "eth0") w
      = Ok w' /\
    count_of "A" "B" (db w') = Some 5%Z /\
    count_of "C" "B" (db w') = Some 1%Z /\
    count_of "B" "A" (db w') = None.
Proof.
  intros packets events w.
  assert (db_wf (db w)) as Hwf by (apply (bool_decide_unpack _); vm_compute; exact I).
  assert (mapM unpack_packet packets = Ok events) as Hev by reflexivity.
  split; [exact Hwf|]. split; [exact Hev|]. split; [reflexivity|].
  destruct (handle_packets_counts_events Example.resolver_query Example.sr
              packets events false true (Some "eth0") w Hwf Hev eq_refl)
    as (w' & Hh & _ & Hc).
  exists w'. split; [exact Hh|].
  split; [rewrite Hc; reflexivity|]. split; [rewrite Hc; reflexivity|].
  rewrite Hc. reflexivity.
Defined.

Lemma handle_packets_order_free_witness :
  let packets := Example.two_senders in
  let packets' := [Example.who_has "C" "B"; Example.who_has "A" "B"] in
  db_wf (db Example.fresh) /\
  packets ≡ₚ packets' /\
  handle_packets Example.resolver_query Example.sr packets false false None
    Example.fresh = Ok Example.after_two_senders /\
  exists w2,
    handle_packets Example.resolver_query Example.sr packets' false false None
      Example.fresh = Ok w2 /\
    forall a b, count_of a b (db w2) = count_of a b (db Example.after_two_senders).
Proof.
  intros packets packets'.
  assert (db_wf (db Example.fresh)) as Hwf by (split; constructor).
  assert (packets ≡ₚ packets') as Hperm by apply perm_swap.
  assert (handle_packets Example.resolver_query Example.sr packets false false None
            Example.fresh = Ok Example.after_two_senders) as Hh
    by (vm_compute; reflexivity).
  split; [exact Hwf|]. split; [exact Hperm|]. split; [exact Hh|].
  exact (handle_packets_order_free Example.resolver_query Example.sr
           packets packets' false false None Example.fresh
           Example.after_two_senders Hwf Hperm Hh).
Defined.

(** A batch whose second part holds a frame without ARP layer: the whole
    batch writes nothing, the first part alone is committed. *)
Lemma handle_packets_app_witness :
  let part1 := [Example.who_has "A" "B"] in
  let part2 := [mkPacket None; Example.who_has "C" "B"] in
  let w1 := mkWorld (Example.ledger_AB 1) [] in
  true && negb (truthy (Some "eth0")) = false /\
  handle_packets Example.resolver_query Example.sr part1 false false (Some "eth0")
    Example.fresh = Ok w1 /\
  handle_packets Example.resolver_query Example.sr part2 false false (Some "eth0") w1
    = Raise AttributeError /\
  handle_packets Example.resolver_query Example.sr (part1 ++ part2)
    false false (Some "eth0") Example.fresh = Raise AttributeError /\
  run_ops Example.resolver_query Example.sr
    [CallHandlePackets (part1 ++ part2) false false (Some "eth0")] Example.fresh
    = Example.fresh /\
  run_ops Example.resolver_query Example.sr
    [CallHandlePackets part1 false false (Some "eth0");
     CallHandlePackets part2 false false (Some "eth0")] Example.fresh = w1.
Proof.
  intros part1 part2 w1.
  assert (handle_packets Example.resolver_query Example.sr part1 false false
            (Some "eth0") Example.fresh = Ok w1) as H1 by (vm_compute; reflexivity).
  assert (handle_packets Example.resolver_query Example.sr part2 false false
            (Some "eth0") w1 = Raise AttributeError) as H2 by reflexivity.
  split; [reflexivity|]. split; [exact H1|]. split; [exact H2|].
  exact (proj2 (proj2 (handle_packets_app Example.resolver_query Example.sr
                         part1 part2 false false (Some "eth0") Example.fresh eq_refl))
           w1 AttributeError H1 H2).
Defined.

(** A batch with a packet that has no ARP layer, with a configuration that
    is not sound either. *)
Lemma handle_packets_errors_witness :
  let packets := [Example.who_has "A" "B"; mkPacket None] in
  Exists (fun p => getlayer_ARP p = None) packets /\
  handle_packets Example.resolver_query Example.sr packets true true None
    Example.fresh = Raise AttributeError.
Proof.
  intros packets.
  assert (Exists (fun p => getlayer_ARP p = None) packets) as Hex
    by (right; left; reflexivity).
  split; [exact Hex|].
  exact (proj1 (handle_packets_errors Example.resolver_query Example.sr
                  packets true true None Example.fresh) Hex).
Defined.

Lemma transaction_keys_unique_witness :
  let ops := Example.capture ++ [CallMerge (Example.ledger_AB 2)] in
  NoDup (map tx_key (transactions (db Example.fresh))) /\
  NoDup (map tx_key
           (transactions
              (db (run_ops Example.resolver_query Example.sr ops Example.fresh)))).
Proof.
  intros ops.
  assert (NoDup (map tx_key (transactions (db Example.fresh)))) as Hnd by constructor.
  split; [exact Hnd|].
  exact (transaction_keys_unique Example.resolver_query Example.sr ops
           Example.fresh Hnd).
Defined.

Lemma handle_packets_total_witness :
  NoDup (map tx_key (transactions (db Example.fresh))) /\
  handle_packets Example.resolver_query Example.sr Example.two_senders
    false false None Example.fresh = Ok Example.after_two_senders /\
  total_count (db Example.after_two_senders) =
    (total_count (db Example.fresh) + Z.of_nat (length Example.two_senders))%Z.
Proof.
  assert (NoDup (map tx_key (transactions (db Example.fresh)))) as Hnd by constructor.
  assert (handle_packets Example.resolver_query Example.sr Example.two_senders
            false false None Example.fresh = Ok Example.after_two_senders) as Hh
    by (vm_compute; reflexivity).
  split; [exact Hnd|]. split; [exact Hh|].
  exact (handle_packets_total Example.resolver_query Example.sr Example.two_senders
           false false None Example.fresh Example.after_two_senders Hnd Hh).
Defined.

Lemma handle_packets_counts_grow_witness :
  let w := mkWorld (Example.ledger_AB 3) [] in
  let w' := mkWorld (Example.ledger_AB 4) [] in
  handle_packets Example.resolver_query Example.sr [Example.who_has "A" "B"]
    false false None w = Ok w' /\
  (forall t, t ∈ transactions (db w) -> (1 <= Transaction.count t)%Z) /\
  (forall t', t' ∈ transactions (db w') -> (1 <= Transaction.count t')%Z).
Proof.
  intros w w'.
  assert (handle_packets Example.resolver_query Example.sr [Example.who_has "A" "B"]
            false false None w = Ok w') as Hh by (vm_compute; reflexivity).
  assert (forall t, t ∈ transactions (db w) -> (1 <= Transaction.count t)%Z) as Hpos.
  { apply Forall_forall. apply (bool_decide_unpack _). vm_compute. exact I. }
  split; [exact Hh|]. split; [exact Hpos|].
  exact (proj2 (handle_packets_counts_grow Example.resolver_query Example.sr
                  [Example.who_has "A" "B"] false false None w w' Hh) Hpos).
Defined.

(** ** Imports *)

Lemma merge_counts_witness :
  let isess := Example.ledger_AB 2 in
  let w := mkWorld (Example.ledger_AB 3) [] in
  db_wf (db w) /\
  Forall (loads isess) (transactions isess) /\
  exists w',
    merge Example.resolver_query Example.sr isess w = (w', None) /\
    net w' = net w /\
    count_of "A" "B" (db w') = Some 5%Z /\
    count_of "B" "A" (db w') = None.
Proof.
  intros isess w.
  assert (db_wf (db w)) as Hwf by (apply (bool_decide_unpack _); vm_compute; exact I).
  assert (Forall (loads isess) (transactions isess)) as Hall
    by (apply (bool_decide_unpack _); vm_compute; exact I).
  split; [exact Hwf|]. split; [exact Hall|].
  destruct (merge_counts Example.resolver_query Example.sr isess w Hwf Hall)
    as (w' & Hm & Hnet & _ & Hc).
  exists w'. split; [exact Hm|]. split; [exact Hnet|].
  split; [rewrite Hc; reflexivity|]. rewrite Hc. reflexivity.
Defined.

(** The second transaction of the source has lost its sender: the first is
    imported, the third is not. *)
Lemma merge_stops_at_dangling_witness :
  let isess := Example.ledger_dangling in
  let l1 := [Transaction.mk 1 2 2] in
  let t := Transaction.mk 7 2 1 in
  let l2 := [Transaction.mk 2 1 4] in
  transactions isess = l1 ++ t :: l2 /\
  Forall (loads isess) l1 /\
  ~ loads isess t /\
  merge Example.resolver_query Example.sr isess Example.fresh =
    ((merge Example.resolver_query Example.sr
        (mkSession (ips isess) (ptrs isess) l1) Example.fresh).1,
     Some AttributeError).
Proof.
  intros isess l1 t l2.
  assert (Forall (loads isess) l1) as Hall
    by (apply (bool_decide_unpack _); vm_compute; exact I).
  assert (~ loads isess t) as Hn
    by (apply (bool_decide_unpack _); vm_compute; exact I).
  split; [reflexivity|]. split; [exact Hall|]. split; [exact Hn|].
  exact (proj1 (merge_stops_at_dangling Example.resolver_query Example.sr
                  isess Example.fresh l1 t l2 eq_refl Hall Hn)).
Defined.

Lemma merge_total_witness :
  let isess := Example.ledger_interleaved in
  let w := mkWorld (Example.ledger_AB 3) [] in
  NoDup (map tx_key (transactions (db w))) /\
  Forall (loads isess) (transactions isess) /\
  total_count (db (merge Example.resolver_query Example.sr isess w).1) =
    (total_count (db w) + total_count isess)%Z.
Proof.
  intros isess w.
  assert (NoDup (map tx_key (transactions (db w)))) as Hnd
    by (apply (bool_decide_unpack _); vm_compute; exact I).
  assert (Forall (loads isess) (transactions isess)) as Hall
    by (apply (bool_decide_unpack _); vm_compute; exact I).
  split; [exact Hnd|]. split; [exact Hall|].
  exact (merge_total Example.resolver_query Example.sr isess w Hnd Hall).
Defined.

Lemma merge_into_empty_witness :
  let isess := Example.ledger_interleaved in
  db_wf isess /\
  NoDup (map IP.value (ips isess)) /\
  NoDup (map tx_key (transactions isess)) /\
  (merge Example.resolver_query Example.sr isess (mkWorld empty_db [])).2 = None /\
  forall a b,
    count_of a b (db (merge Example.resolver_query Example.sr isess
                        (mkWorld empty_db [])).1) = count_of a b isess.
Proof.
  intros isess.
  assert (db_wf isess) as Hwf by (apply (bool_decide_unpack _); vm_compute; exact I).
  assert (NoDup (map IP.value (ips isess))) as Hv
    by (apply (bool_decide_unpack _); vm_compute; exact I).
  assert (NoDup (map tx_key (transactions isess))) as Hk
    by (apply (bool_decide_unpack _); vm_compute; exact I).
  split; [exact Hwf|]. split; [exact Hv|]. split; [exact Hk|].
  exact (merge_into_empty Example.resolver_query Example.sr isess [] Hwf Hv Hk).
Defined.

(** ** Files *)

(** The capture file that [analyze] reads is left as it is; the source
    database that does not exist is created, empty. *)
Lemma analyze_keeps_other_files_witness :
  let after :=
    (analyze Example.resolver_query Example.sr Example.stylize
       Example.Lists Example.Lists_bool Example.check
       "out.db" None None ["capture.pcap"] ["missing.db"] None true
       Example.capture_file []).1.1 in
  "capture.pcap" <> "out.db" /\
  Example.capture_file !! "capture.pcap" = Some (PcapFile [Example.who_has "X" "B"]) /\
  after !! "capture.pcap" = Some (PcapFile [Example.who_has "X" "B"]) /\
  "missing.db" <> "out.db" /\
  Example.capture_file !! "missing.db" = None /\
  after !! "missing.db" = Some (SqliteFile empty_db) /\
  "missing.db" ∈ ["missing.db"] /\
  SqliteFile empty_db = SqliteFile empty_db.
Proof.
  intros after.
  assert ("capture.pcap" <> "out.db") as Hne by discriminate.
  assert (Example.capture_file !! "capture.pcap"
          = Some (PcapFile [Example.who_has "X" "B"])) as Hf
    by (vm_compute; reflexivity).
  assert ("missing.db" <> "out.db") as Hne' by discriminate.
  assert (Example.capture_file !! "missing.db" = None) as Hn
    by (vm_compute; reflexivity).
  assert (after !! "missing.db" = Some (SqliteFile empty_db)) as Hnew
    by (vm_compute; reflexivity).
  destruct (analyze_keeps_other_files Example.resolver_query Example.sr
              Example.stylize Example.Lists Example.Lists_bool Example.check
              "out.db" None None ["capture.pcap"] ["missing.db"] None true
              Example.capture_file []) as (Hkept & Hcreated & _ & _).
  split; [exact Hne|]. split; [exact Hf|].
  split; [exact (Hkept "capture.pcap" _ Hne Hf)|].
  split; [exact Hne'|]. split; [exact Hn|]. split; [exact Hnew|].
  exact (Hcreated "missing.db" (SqliteFile empty_db) Hne' Hn Hnew).
Defined.

(** Opening a capture file as a database leaves it as it is. *)
Lemma create_db_no_clobber_witness :
  is_Some (Example.capture_file !! "capture.pcap") /\
  create_db "capture.pcap" false Example.capture_file = Example.capture_file.
Proof.
  assert (is_Some (Example.capture_file !! "capture.pcap")) as Hex
    by (exists (PcapFile [Example.who_has "X" "B"]); vm_compute; reflexivity).
  split; [exact Hex|].
  exact (proj1 (create_db_no_clobber "capture.pcap" false Example.capture_file) Hex).
Defined.

(** ** The table *)

Lemma get_output_errors_witness :
  let s := Example.ledger_dangling in
  Exists (fun t => ~ loads s t) (transactions s) /\
  get_output Example.stylize Example.Lists Example.Lists_bool Example.check
    s None None None true false = Raise AttributeError.
Proof.
  intros s.
  assert (Exists (fun t => ~ loads s t) (transactions s)) as Hex
    by (apply (bool_decide_unpack _); vm_compute; exact I).
  split; [exact Hex|].
  exact (proj2 (proj1 (get_output_errors Example.stylize Example.Lists
                         Example.Lists_bool Example.check s None None None true false)
                  AttributeError)
           (conj eq_refl Hex)).
Defined.

Lemma get_output_rectangular_witness :
  let s := Example.ledger_probed in
  let rows := [["A"; "D"; "X"; "2"]; [""; "B"; ""; "1"]] in
  let headers := ["Sender"; "Target"; "TS"; "ARP#"] in
  get_output Example.stylize Example.Lists Example.Lists_bool Example.check
    s None None None false true = Ok (Tabulate rows headers) /\
  length headers = 4 /\
  Forall (fun row => length row = length headers) rows.
Proof.
  intros s rows headers.
  assert (get_output Example.stylize Example.Lists Example.Lists_bool Example.check
            s None None None false true = Ok (Tabulate rows headers)) as Hout
    by (vm_compute; reflexivity).
  split; [exact Hout|].
  exact (get_output_rectangular Example.stylize Example.Lists Example.Lists_bool
           Example.check s None None None false true rows headers Hout).
Defined.

Lemma get_output_row_count_witness :
  let s := Example.ledger_interleaved in
  let rows := [["A"; "B"; "3"]; [""; "E"; "1"]; ["C"; "D"; "2"]] in
  let headers := ["Sender"; "Target"; "ARP#"] in
  get_output Example.stylize Example.Lists Example.Lists_bool Example.check
    s None None None false false = Ok (Tabulate rows headers) /\
  exists xs ys,
    mapM (load_transaction s) (order_by_desc_count (transactions s)) = Ok xs /\
    map the_transaction xs ≡ₚ transactions s /\
    ys ≡ₚ List.filter
            (listed Example.Lists Example.Lists_bool Example.check None None) xs /\
    Forall2 (fun y row =>
               exists labelled,
                 styled_as Example.stylize None
                   (make_row s None false false labelled y) row)
            ys rows /\
    (@None Example.Lists = None -> @None Example.Lists = None ->
     map the_transaction ys ≡ₚ transactions s /\
     length rows = length (transactions s)).
Proof.
  intros s rows headers.
  assert (get_output Example.stylize Example.Lists Example.Lists_bool Example.check
            s None None None false false = Ok (Tabulate rows headers)) as Hout
    by (vm_compute; reflexivity).
  split; [exact Hout|].
  exact (get_output_row_count Example.stylize Example.Lists Example.Lists_bool
           Example.check s None None None false false rows headers Hout).
Defined.

(** The group of A, first, in the odd style, the group of C in the even
    one. *)
Lemma get_output_styles_witness :
  let s := Example.ledger_interleaved in
  let profile := mkColorProfile "[e]" "[o]" "[h]" None in
  let rows := [["[o]A[0m"; "[o]B[0m"; "[o]3[0m"];
               ["[o][0m"; "[o]E[0m"; "[o]1[0m"];
               ["[e]C[0m"; "[e]D[0m"; "[e]2[0m"]] in
  let headers := ["[h]Sender[0m"; "[h]Target[0m"; "[h]ARP#[0m"] in
  get_output Example.stylize Example.Lists Example.Lists_bool Example.check
    s None None (Some profile) false false = Ok (Tabulate rows headers) /\
  headers = style_list Example.stylize (build_headers Example.stylize None false false)
              (header_style profile).
Proof.
  intros s profile rows headers.
  assert (get_output Example.stylize Example.Lists Example.Lists_bool Example.check
            s None None (Some profile) false false = Ok (Tabulate rows headers)) as Hout
    by (vm_compute; reflexivity).
  split; [exact Hout|].
  destruct (get_output_styles Example.stylize Example.Lists Example.Lists_bool
              Example.check s None None profile false false rows headers Hout)
    as (xs & _ & _ & Hh).
  exact Hh.
Defined.

(** ** The filter and the capture *)

Lemma filter_packet_accepts_witness :
  let sender_lists : option Example.Lists := Some ["X"] in
  let packet := Example.who_has "A" "B" in
  filter_packet Example.Lists Example.Lists_bool Example.check packet sender_lists None
    = Some ("A", "B") /\
  filter_packet Example.Lists Example.Lists_bool Example.check packet None None
    = Some ("A", "B") /\
  unpack_packet packet = Ok ("A", "B").
Proof.
  intros sender_lists packet.
  assert (filter_packet Example.Lists Example.Lists_bool Example.check packet
            sender_lists None = Some ("A", "B")) as Hf by (vm_compute; reflexivity).
  split; [exact Hf|].
  exact (proj1 (proj2 (filter_packet_accepts Example.Lists Example.Lists_bool
                         Example.check packet sender_lists None))
           ("A", "B") Hf).
Defined.

(** A first capture, on a database file that does not exist. *)
Lemma async_sniff_outcome_witness :
  let arriving := [Example.who_has "A" "B"; mkPacket None; Example.who_has "C" "B"] in
  let run :=
    async_sniff Example.resolver_query Example.sr Example.stylize
      Example.Lists Example.Lists_bool Example.check in
  (forall f, (∅ : gmap string File) !! "capture.db" = Some f ->
             exists d, f = SqliteFile d /\ db_wf d) /\
  (exists d,
     load "capture.db" (create_db "capture.db" false ∅) = Ok d /\
     ((∅ : gmap string File) !! "capture.db" = None -> d = empty_db) /\
     run None 0 None None "capture.db" false None true arriving ∅ [] =
       (create_db "capture.db" false ∅, [],
        Raise (Exception "Active ARP resolution requires an interface ip"))) /\
  (exists d,
     load "capture.db" (create_db "capture.db" false ∅) = Ok d /\
     ((∅ : gmap string File) !! "capture.db" = None -> d = empty_db) /\
     exists w out,
       handle_packets Example.resolver_query Example.sr
         (do_sniff Example.Lists Example.Lists_bool Example.check arriving 0 None None)
         false true (Some "eth0") (mkWorld d []) = Ok w /\
       db_wf (db w) /\
       get_output Example.stylize Example.Lists Example.Lists_bool Example.check
         (db w) None None None false true = Ok out /\
       run (Some "eth0") 0 None None "capture.db" false None true arriving ∅ [] =
         (store "capture.db" (db w) (create_db "capture.db" false ∅), net w,
          Ok (out,
              do_sniff Example.Lists Example.Lists_bool Example.check
                arriving 0 None None))).
Proof.
  intros arriving run.
  assert (forall f, (∅ : gmap string File) !! "capture.db" = Some f ->
                    exists d, f = SqliteFile d /\ db_wf d) as Hfs.
  { intros f Hf. rewrite lookup_empty in Hf. discriminate. }
  split; [exact Hfs|]. split.
  - exact (async_sniff_outcome Example.resolver_query Example.sr Example.stylize
             Example.Lists Example.Lists_bool Example.check
             None 0 None None "capture.db" false None true arriving ∅ [] Hfs).
  - exact (async_sniff_outcome Example.resolver_query Example.sr Example.stylize
             Example.Lists Example.Lists_bool Example.check
             (Some "eth0") 0 None None "capture.db" false None true arriving ∅ [] Hfs).
Defined.

(** ** Reverse names *)

Lemma ptr_records_unique_witness :
  let w := run_ops Example.resolver_query Example.sr Example.capture Example.fresh in
  ptrs_owned (db Example.fresh) /\
  NoDup (map PTR.ip_id (ptrs (db Example.fresh))) /\
  ptrs_owned (db w) /\
  NoDup (map PTR.ip_id (ptrs (db w))) /\
  forall r, length (ip_ptr r (db w)) <= 1.
Proof.
  intros w.
  assert (ptrs_owned (db Example.fresh)) as Hown by constructor.
  assert (NoDup (map PTR.ip_id (ptrs (db Example.fresh)))) as Hnd by constructor.
  split; [exact Hown|]. split; [exact Hnd|].
  exact (ptr_records_unique Example.resolver_query Example.sr Example.capture
           Example.fresh Hown Hnd).
Defined.

(** The address of A, created by the import, gets the reverse name A has in
    the source. *)
Lemma merge_carries_names_witness :
  let isess := Example.ledger_named in
  let r' := IP.mk 1 "A" None false in
  let d := db (merge Example.resolver_query Example.sr isess Example.fresh).1 in
  ptrs_owned (db Example.fresh) /\
  r' ∈ ips d /\
  names_carried isess (db Example.fresh) d r'.
Proof.
  intros isess r' d.
  assert (ptrs_owned (db Example.fresh)) as Hown by constructor.
  assert (r' ∈ ips d) as Hin by (apply (bool_decide_unpack _); vm_compute; exact I).
  split; [exact Hown|]. split; [exact Hin|].
  exact (merge_carries_names Example.resolver_query Example.sr isess Example.fresh
           r' Hown Hin).
Defined.

(** ** Sessions *)

Lemma session_report_returns_witness :
  let w := run_ops Example.resolver_query Example.sr
             (Example.capture ++ [CallMerge Example.ledger_dangling]) Example.fresh in
  db_wf (db Example.fresh) /\
  db_wf (db w) /\
  exists out,
    get_output Example.stylize Example.Lists Example.Lists_bool Example.check
      (db w) None None None true true = Ok out.
Proof.
  intros w.
  assert (db_wf (db Example.fresh)) as Hwf by (split; constructor).
  split; [exact Hwf|].
  exact (session_report_returns Example.resolver_query Example.sr Example.stylize
           Example.Lists Example.Lists_bool Example.check
           (Example.capture ++ [CallMerge Example.ledger_dangling]) Example.fresh
           None None None true true Hwf).
Defined.

Lemma mac_address_from_probe_witness :
  let w0 := mkWorld Example.ledger_probed [] in
  let w := run_ops Example.resolver_query Example.sr Example.capture w0 in
  (forall r, r ∈ ips (db w0) ->
     IP.mac_address r <> Some EmptyString /\
     (is_Some (IP.mac_address r) -> IP.arp_resolve_attempted r = true)) /\
  (forall r, r ∈ ips (db w) ->
     IP.mac_address r <> Some EmptyString /\
     (is_Some (IP.mac_address r) -> IP.arp_resolve_attempted r = true)).
Proof.
  intros w0 w.
  assert (forall r, r ∈ ips (db w0) ->
            IP.mac_address r <> Some EmptyString /\
            (is_Some (IP.mac_address r) -> IP.arp_resolve_attempted r = true)) as H0.
  { apply Forall_forall. apply (bool_decide_unpack _). vm_compute. exact I. }
  split; [exact H0|].
  exact (mac_address_from_probe Example.resolver_query Example.sr Example.capture
           w0 H0).
Defined.
